(** * Gesture tracker and particle field of the 3D Christmas tree

    A shallow embedding of [src/components/HandTracker.tsx] (the prediction
    loop [predict]) and of the particle system ([ParticleSystem], [SubSystem]
    and [PhotoGroup]), together with the properties the specification states
    about them.

    Numbers.  JavaScript numbers are idealised as exact rationals ([Q]): the
    constants [0.3], [0.003], [1.4] ... are the rationals they denote and
    arithmetic does not round.  Frame counters are natural numbers.  The
    functions of [Math] and of three.js that the code calls but does not
    define ([Math.hypot], [Math.sin], quaternion rotation, [distanceTo]) are
    the fields of an interface, [MathLib]; every theorem holds for each
    implementation of it.

    Landmarks.  A detected hand is an array of 21 points; it is modelled as a
    total map from the landmark index to the point, so a short array (whose
    [TypeError] the [try]/[catch] of [predict] swallows) is not an input of
    this model. *)

From Stdlib Require Import QArith ZArith List Bool Arith Lia Lqa.
From Stdlib Require String.
Import ListNotations.

Local Open Scope Q_scope.

(** ** Numbers and vectors *)

(** [a < b] on JavaScript numbers, as a boolean. *)
Definition Qltb (a b : Q) : bool := negb (Qle_bool b a).

(** [Math.min] and [Math.max] on two numbers. *)
Definition Qmin2 (a b : Q) : Q := if Qltb b a then b else a.
Definition Qmax2 (a b : Q) : Q := if Qltb a b then b else a.

(** [Math.abs]. *)
Definition Qabs' (a : Q) : Q := if Qltb a 0 then - a else a.

Record Vector3 : Type := mkVector3 { vx : Q; vy : Q; vz : Q }.

Record Euler : Type := mkEuler { ex : Q; ey : Q; ez : Q }.

Record Quaternion : Type := mkQuaternion { qx : Q; qy : Q; qz : Q; qw : Q }.

(** The library functions the code relies on. *)
Class MathLib : Type := {
  (* Math.hypot(a, b, c) *)
  hypot : Q -> Q -> Q -> Q;
  (* Math.sin *)
  sin : Q -> Q;
  (* Quaternion.setFromEuler *)
  setFromEuler : Euler -> Quaternion;
  (* Vector3.applyQuaternion *)
  applyQuaternion : Vector3 -> Quaternion -> Vector3;
  (* Vector3.distanceTo *)
  distanceTo : Vector3 -> Vector3 -> Q
}.

(** ** types.ts *)

Record HandData : Type := mkHandData {
  hasHand : bool;
  isOpen : bool;
  isClosed : bool;
  isPinching : bool;
  pinchDistance : Q;
  palmPosition : Vector3
}.

Record ParticleData : Type := mkParticleData {
  treePos : Vector3;
  spherePos : Vector3;
  scale : Q;
  rotationOffset : Euler
}.

(** ** HandTracker.tsx *)

Module HandTracker.

(** The values [persistenceRef.current.lastState] takes. *)
Inductive StableState : Type := NEUTRAL | FIST | OPEN | PINCH.

Definition StableState_eqb (a b : StableState) : bool :=
  match a, b with
  | NEUTRAL, NEUTRAL | FIST, FIST | OPEN, OPEN | PINCH, PINCH => true
  | _, _ => false
  end.

Record Smoothed : Type := mkSmoothed { sx : Q; sy : Q; spinch : Q }.

Record Persistence : Type := mkPersistence {
  fistFrames : nat;
  pinchFrames : nat;
  openFrames : nat;
  lastState : StableState
}.

(** The refs of the component that [predict] reads and writes. *)
Record Tracker : Type := mkTracker {
  smoothedRef : Smoothed;
  persistenceRef : Persistence;
  missingHandFramesRef : nat;
  lastValidHandDataRef : HandData
}.

Definition GRACE_LIMIT : nat := 40.
Definition THRESHOLD : nat := 3.
Definition alpha : Q := 3 # 10.

(** The data emitted when the grace period has run out, which is also the
    initial value of [lastValidHandDataRef]. *)
Definition resetData : HandData :=
  {| hasHand := false; isOpen := false; isClosed := false;
     isPinching := false; pinchDistance := 1;
     palmPosition := mkVector3 0 0 0 |}.

Definition initialTracker : Tracker :=
  {| smoothedRef := mkSmoothed 0 0 1;
     persistenceRef := mkPersistence 0 0 0 NEUTRAL;
     missingHandFramesRef := 0;
     lastValidHandDataRef := resetData |}.

(** [results.landmarks[0]]: the 21 points of the detected hand. *)
Definition Landmarks : Type := nat -> Vector3.

(** What the classification part of [predict] (lines 132-178) computes from
    one hand. *)
Record Frame : Type := mkFrame {
  rawX : Q;
  rawY : Q;
  targetPinch : Q;
  frameIsFist : bool;
  frameIsPinch : bool;
  frameIsOpen : bool
}.

Section Classifier.
Context {M : MathLib}.

(** [d(i, j)], the distance between two landmarks. *)
Definition d (lm : Landmarks) (i j : nat) : Q :=
  hypot (vx (lm i) - vx (lm j)) (vy (lm i) - vy (lm j)) (vz (lm i) - vz (lm j)).

Definition tips : list nat := [8; 12; 16; 20]%nat.

(** One step of [tips.forEach]: the pair is [(foldedCount, extendedCount)]. *)
Definition countTip (lm : Landmarks) (palmScale : Q) (c : nat * nat) (t : nat)
  : nat * nat :=
  let dist := d lm 0 t in
  let c1 := if Qltb dist (palmScale * (14 # 10)) then S (fst c) else fst c in
  let c2 := if Qltb (palmScale * (17 # 10)) dist then S (snd c) else snd c in
  (c1, c2).

Definition classify (lm : Landmarks) : Frame :=
  let rawX := ((1 # 2) - vx (lm 0%nat)) * 6 in
  let rawY := ((1 # 2) - vy (lm 0%nat)) * 6 in
  let palmScale := d lm 0 9 in
  if Qltb 0 palmScale then
    let pinchDist := d lm 4 8 in
    let normPinch := pinchDist / palmScale in
    let targetPinch := Qmin2 (Qmax2 normPinch 0) 1 in
    let counts := fold_left (countTip lm palmScale) tips (0%nat, 0%nat) in
    let foldedCount := fst counts in
    let extendedCount := snd counts in
    let middleFingerDist := d lm 0 12 in
    let isMiddleExtended := Qltb (palmScale * (15 # 10)) middleFingerDist in
    if (3 <=? foldedCount)%nat then
      mkFrame rawX rawY targetPinch true false false
    else if (3 <=? extendedCount)%nat then
      mkFrame rawX rawY targetPinch false false true
    else if Qltb normPinch (1 # 2) && isMiddleExtended then
      mkFrame rawX rawY targetPinch false true false
    else
      mkFrame rawX rawY targetPinch false false false
  else
    mkFrame rawX rawY 1 false false false.

(** The fingertips that are folded (within 1.4 palm scales of the wrist)
    and those that are extended (beyond 1.7 palm scales), as the
    specification counts them. *)
Definition foldedTips (lm : Landmarks) : list nat :=
  filter (fun t => Qltb (d lm 0 t) (d lm 0 9 * (14 # 10))) tips.

Definition extendedTips (lm : Landmarks) : list nat :=
  filter (fun t => Qltb (d lm 0 9 * (17 # 10)) (d lm 0 t)) tips.

End Classifier.

(** Lines 184-198: the persistence counters and the stable state. *)
Definition updateCounters (p : Persistence) (f : Frame) : Persistence :=
  {| fistFrames := if frameIsFist f then S (fistFrames p) else 0%nat;
     pinchFrames := if frameIsPinch f then S (pinchFrames p) else 0%nat;
     openFrames := if frameIsOpen f then S (openFrames p) else 0%nat;
     lastState := lastState p |}.

Definition finalStateOf (p : Persistence) : StableState :=
  if (THRESHOLD <? pinchFrames p)%nat then PINCH
  else if (THRESHOLD <? fistFrames p)%nat then FIST
  else if (THRESHOLD <? openFrames p)%nat then OPEN
  else if ((fistFrames p =? 0) && (pinchFrames p =? 0)
           && (openFrames p =? 0))%nat
       then NEUTRAL
  else lastState p.

Definition stabilize (p : Persistence) (f : Frame) : Persistence :=
  let p1 := updateCounters p f in
  {| fistFrames := fistFrames p1;
     pinchFrames := pinchFrames p1;
     openFrames := openFrames p1;
     lastState := finalStateOf p1 |}.

(** Lines 200-203: exponential smoothing of the pointer and of the pinch. *)
Definition smooth (s : Smoothed) (f : Frame) : Smoothed :=
  {| sx := sx s + (rawX f - sx s) * alpha;
     sy := sy s + (rawY f - sy s) * alpha;
     spinch := spinch s + (targetPinch f - spinch s) * alpha |}.

Section Predict.
Context {M : MathLib}.

(** One processed video frame of [predict].  [results] is [None] when
    [results.landmarks] is missing or empty, and the first hand otherwise.
    The second component is the argument of the call of [onHandUpdate]. *)
Definition predict (t : Tracker) (results : option Landmarks)
  : Tracker * HandData :=
  match results with
  | Some lm =>
      let f := classify lm in
      let p := stabilize (persistenceRef t) f in
      let s := smooth (smoothedRef t) f in
      let finalState := lastState p in
      let newData :=
        {| hasHand := true;
           isOpen := StableState_eqb finalState OPEN;
           isClosed := StableState_eqb finalState FIST;
           isPinching := StableState_eqb finalState PINCH;
           pinchDistance := spinch s;
           palmPosition := mkVector3 (sx s) (sy s) 0 |} in
      ({| smoothedRef := s;
          persistenceRef := p;
          missingHandFramesRef := 0;
          lastValidHandDataRef := newData |}, newData)
  | None =>
      let missing := S (missingHandFramesRef t) in
      if (missing <? GRACE_LIMIT)%nat then
        ({| smoothedRef := smoothedRef t;
            persistenceRef := persistenceRef t;
            missingHandFramesRef := missing;
            lastValidHandDataRef := lastValidHandDataRef t |},
         lastValidHandDataRef t)
      else
        ({| smoothedRef := smoothedRef t;
            persistenceRef :=
              {| fistFrames := fistFrames (persistenceRef t);
                 pinchFrames := pinchFrames (persistenceRef t);
                 openFrames := openFrames (persistenceRef t);
                 lastState := NEUTRAL |};
            missingHandFramesRef := missing;
            lastValidHandDataRef := lastValidHandDataRef t |},
         resetData)
  end.

(** The tracker after a sequence of processed frames, and what each frame
    emitted (oldest first). *)
Fixpoint run (t : Tracker) (rs : list (option Landmarks))
  : Tracker * list HandData :=
  match rs with
  | [] => (t, [])
  | r :: rs' =>
      let (t1, e) := predict t r in
      let (t2, es) := run t1 rs' in
      (t2, e :: es)
  end.

End Predict.

End HandTracker.

(** ** ParticleSystem.tsx *)

Module ParticleSystem.

(** Modelled from the spec: [THREE.MathUtils.lerp] belongs to three.js,
    whose source is not under [src/].  The spec reads its use at lines 440
    and 460 as a decay of the angle toward the target at the given rate; the
    definition is the one of three.js, [(1 - t) * x + t * y]. *)
Definition lerp (x y t : Q) : Q := (1 - t) * x + t * y.

(** The refs of [ParticleSystem] that its frame callback reads and writes. *)
Record Refs : Type := mkRefs {
  containerRotation : Euler;
  prevHandPos : Q * Q;
  wasTrackingRef : bool;
  isExplodedRef : bool
}.

Definition initialRefs : Refs :=
  {| containerRotation := mkEuler 0 0 0;
     prevHandPos := (0, 0);
     wasTrackingRef := false;
     isExplodedRef := false |}.

Definition DEADZONE : Q := 3 # 1000.
Definition sensitivity : Q := 8 # 10.

(** Lines 412-415, the shape state machine. *)
Definition shapeStep (h : HandData) (exploded : bool) : bool :=
  if hasHand h then
    let e1 := if isOpen h then true else exploded in
    if isClosed h then false else e1
  else exploded.

(** The reference point the deltas of this frame are taken from (lines
    420-423). *)
Definition anchor (r : Refs) (h : HandData) : Q * Q :=
  if wasTrackingRef r then prevHandPos r
  else (vx (palmPosition h), vy (palmPosition h)).

Definition deltaX (r : Refs) (h : HandData) : Q :=
  vx (palmPosition h) - fst (anchor r h).

Definition deltaY (r : Refs) (h : HandData) : Q :=
  vy (palmPosition h) - snd (anchor r h).

(** Lines 434-446: the rotation a significant movement applies. *)
Definition rotate (h : HandData) (dx dy : Q) (rot : Euler) : Euler :=
  if Qltb DEADZONE (Qabs' dx) || Qltb DEADZONE (Qabs' dy) then
    if isClosed h then
      {| ex := lerp (ex rot) 0 (1 # 10);
         ey := ey rot + dx * sensitivity;
         ez := ez rot |}
    else if isOpen h then
      {| ex := ex rot + dy * sensitivity;
         ey := ey rot + dx * sensitivity;
         ez := ez rot |}
    else rot
  else rot.

(** Lines 457-462: the tree is levelled while it is not exploded. *)
Definition autoLevel (exploded : bool) (rot : Euler) : Euler :=
  if negb exploded then
    {| ex := lerp (ex rot) 0 (5 # 100);
       ey := ey rot;
       ez := lerp (ez rot) 0 (5 # 100) |}
  else rot.

(** The frame callback of [ParticleSystem] (lines 408-463), run with
    [handData.current = h]. *)
Definition useFrame (r : Refs) (h : HandData) : Refs :=
  let exploded := shapeStep h (isExplodedRef r) in
  if hasHand h then
    let rot := rotate h (deltaX r h) (deltaY r h) (containerRotation r) in
    {| containerRotation := autoLevel exploded rot;
       prevHandPos := (vx (palmPosition h), vy (palmPosition h));
       wasTrackingRef := true;
       isExplodedRef := exploded |}
  else
    {| containerRotation := autoLevel exploded (containerRotation r);
       prevHandPos := prevHandPos r;
       wasTrackingRef := false;
       isExplodedRef := exploded |}.

(** The refs after a sequence of frames, each with the hand data current
    at that frame. *)
Fixpoint frames (r : Refs) (hs : list HandData) : Refs :=
  match hs with
  | [] => r
  | h :: hs' => frames (useFrame r h) hs'
  end.

(** Every frame of [hs], run from [r], computes deltas within the deadzone
    (a frame without a hand computes none). *)
Fixpoint withinDeadzone (r : Refs) (hs : list HandData) : Prop :=
  match hs with
  | [] => True
  | h :: hs' =>
      (hasHand h = true ->
         Qabs' (deltaX r h) <= DEADZONE /\ Qabs' (deltaY r h) <= DEADZONE)
      /\ withinDeadzone (useFrame r h) hs'
  end.

(** The frames of [hs], run from [r], on which the tree is not exploded
    when the levelling of lines 457-462 is reached. *)
Fixpoint compactFrames (r : Refs) (hs : list HandData) : nat :=
  match hs with
  | [] => 0
  | h :: hs' =>
      ((if isExplodedRef (useFrame r h) then 0 else 1)
       + compactFrames (useFrame r h) hs')%nat
  end.

(** [q] to the power [n]. *)
Fixpoint powQ (q : Q) (n : nat) : Q :=
  match n with
  | O => 1
  | S n' => q * powQ q n'
  end.

(** A tree lying on its side while the hand rests: pitch 1, not exploded,
    the hand tracked at the origin without a gesture. *)
Definition tiltedRefs : Refs :=
  {| containerRotation := mkEuler 1 2 (-1);
     prevHandPos := (0, 0);
     wasTrackingRef := true;
     isExplodedRef := false |}.

Definition restingHand : HandData :=
  {| hasHand := true; isOpen := false; isClosed := false;
     isPinching := false; pinchDistance := 1;
     palmPosition := mkVector3 0 0 0 |}.

Definition noHand : HandData :=
  {| hasHand := false; isOpen := false; isClosed := false;
     isPinching := false; pinchDistance := 1;
     palmPosition := mkVector3 0 0 0 |}.

End ParticleSystem.

(** ** SubSystem: the instanced particles *)

Module SubSystem.

(** A store into [currentPositions], a [Float32Array]: a write out of range
    is ignored. *)
Fixpoint setAt (l : list Q) (i : nat) (v : Q) : list Q :=
  match l, i with
  | [], _ => []
  | _ :: l', O => v :: l'
  | a :: l', S i' => a :: setAt l' i' v
  end.

(** A read of [currentPositions]; every read of the code is in range. *)
Definition getAt (l : list Q) (i : nat) : Q := nth i l 0.

Definition lerpFactor : Q := 8 # 100.

Section Frame.
Context {M : MathLib}.

(** Step 1 of the loop (lines 535-540): the local target position of the
    object of index [i]. *)
Definition target (isExploded : bool) (time : Q) (i : nat) (p : ParticleData)
  : Vector3 :=
  if isExploded then spherePos p
  else
    {| vx := vx (treePos p);
       vy := vy (treePos p)
             + sin (time * (15 # 10) + inject_Z (Z.of_nat i)) * (5 # 100);
       vz := vz (treePos p) |}.

(** Step 2 of the loop (lines 543-549): the displayed position of object
    [i] moves toward the target. *)
Definition moveObject (isExploded : bool) (time : Q) (i : nat)
  (p : ParticleData) (cur : list Q) : list Q :=
  let targetPos := target isExploded time i p in
  let ix := (i * 3)%nat in
  let iy := (i * 3 + 1)%nat in
  let iz := (i * 3 + 2)%nat in
  let c1 :=
    setAt cur ix
          (getAt cur ix + (vx targetPos - getAt cur ix) * lerpFactor) in
  let c2 :=
    setAt c1 iy
          (getAt c1 iy + (vy targetPos - getAt c1 iy) * lerpFactor) in
  setAt c2 iz (getAt c2 iz + (vz targetPos - getAt c2 iz) * lerpFactor).

(** The loop [for (let i = 0; i < data.length; i++)], entered at index [i]
    with the objects [data] still to visit. *)
Fixpoint loop (isExploded : bool) (time : Q) (i : nat)
  (data : list ParticleData) (cur : list Q) : list Q :=
  match data with
  | [] => cur
  | p :: rest =>
      loop isExploded time (S i) rest (moveObject isExploded time i p cur)
  end.

(** The frame callback of [SubSystem] once the mesh is mounted, as far as
    [currentPositions] goes: steps 3 and 4 of the loop only build the
    instance matrices. *)
Definition useFrame (isExploded : bool) (time : Q)
  (data : list ParticleData) (currentPositions : list Q) : list Q :=
  loop isExploded time 0 data currentPositions.

(** [currentPositions] as the effect of lines 508-516 fills it. *)
Definition initialPositions (data : list ParticleData) : list Q :=
  flat_map (fun p => [vx (treePos p); vy (treePos p); vz (treePos p)]) data.

End Frame.

End SubSystem.

(** ** PhotoGroup: the photo frames and the focus on the nearest one *)

Module PhotoGroup.

(** [minDistance] is [None] while it is [Infinity]. *)
Record Scan : Type := mkScan { minDistance : option Q; idx : Z }.

(** [distance < minDistance]. *)
Definition below (distance : Q) (m : option Q) : bool :=
  match m with
  | None => true
  | Some v => Qltb distance v
  end.

Definition CUTOFF : Q := 12.

Section Frame.
Context {M : MathLib}.

(** [activePhotos]: as many placeholders as there are textures. *)
Definition activePhotos (data : list ParticleData) (textures : nat)
  : list ParticleData := firstn textures data.

(** Lines 316-328: the world position of photo [i]. *)
Definition worldPos (isExploded : bool) (time : Q) (rotation : Euler)
  (i : nat) (p : ParticleData) : Vector3 :=
  let localPos :=
    if isExploded then spherePos p
    else
      {| vx := vx (treePos p);
         vy := vy (treePos p)
               + sin (time * (15 # 10) + inject_Z (Z.of_nat i)) * (5 # 100);
         vz := vz (treePos p) |} in
  applyQuaternion localPos (setFromEuler rotation).

(** Line 339: the distance from the photo [p] of index [i] to the camera. *)
Definition distanceAt (isExploded : bool) (time : Q) (rotation : Euler)
  (camera : Vector3) (i : nat) (p : ParticleData) : Q :=
  distanceTo (worldPos isExploded time rotation i p) camera.

(** Lines 339-344 for the photo of index [i]. *)
Definition visit (isExploded : bool) (time : Q) (rotation : Euler)
  (camera : Vector3) (i : nat) (p : ParticleData) (s : Scan) : Scan :=
  let distance := distanceAt isExploded time rotation camera i p in
  if below distance (minDistance s)
  then {| minDistance := Some distance; idx := Z.of_nat i |}
  else s.

(** [activePhotos.forEach], entered at index [i]. *)
Fixpoint scan (isExploded : bool) (time : Q) (rotation : Euler)
  (camera : Vector3) (i : nat) (photos : list ParticleData) (s : Scan) : Scan :=
  match photos with
  | [] => s
  | p :: rest =>
      scan isExploded time rotation camera (S i) rest
           (visit isExploded time rotation camera i p s)
  end.

(** The frame callback (lines 303-358): the new value of [closestIndex],
    [prev] being its value before the frame. *)
Definition useFrame (isExploded : bool) (time : Q) (rotation : Euler)
  (camera : Vector3) (photos : list ParticleData) (prev : Z) : Z :=
  match photos with
  | [] => prev
  | _ =>
      let s :=
        scan isExploded time rotation camera 0 photos (mkScan None (-1)) in
      match minDistance s with
      | Some m => if Qltb m CUTOFF then idx s else (-1)%Z
      | None => (-1)%Z
      end
  end.

(** The distance line 339 measures for the photo of index [i]. *)
Definition distanceOf (isExploded : bool) (time : Q) (rotation : Euler)
  (camera : Vector3) (photos : list ParticleData) (i : nat) : option Q :=
  match nth_error photos i with
  | Some p => Some (distanceAt isExploded time rotation camera i p)
  | None => None
  end.

(** What the scan knows once the photos before [k] are visited: the first
    photo among those at the least distance. *)
Definition scanned (isExploded : bool) (time : Q) (rotation : Euler)
  (camera : Vector3) (photos : list ParticleData) (k : nat) (s : Scan)
  : Prop :=
  match minDistance s with
  | None => k = 0%nat /\ idx s = (-1)%Z
  | Some m =>
      exists (j : nat) (p : ParticleData),
        (j < k)%nat /\ nth_error photos j = Some p
        /\ idx s = Z.of_nat j
        /\ m = distanceAt isExploded time rotation camera j p
        /\ (forall (j' : nat) (p' : ParticleData),
              (j' < k)%nat -> nth_error photos j' = Some p' ->
              m <= distanceAt isExploded time rotation camera j' p')
        /\ (forall (j' : nat) (p' : ParticleData),
              (j' < j)%nat -> nth_error photos j' = Some p' ->
              m < distanceAt isExploded time rotation camera j' p')
  end.

End Frame.

(** The props the render passes to the [PhotoFrame] of index [i]
    (lines 372-373). *)
Definition isHovered (closestIndex : Z) (i : nat) : bool :=
  (closestIndex =? Z.of_nat i)%Z.

Definition isSelected (closestIndex : Z) (h : HandData) (i : nat) : bool :=
  isHovered closestIndex i && isPinching h.

End PhotoGroup.

(** ** App.tsx: the tracker feeds the particle system *)

Module App.

Import HandTracker.

(** What the canvas holds: the particles of each [SubSystem] and the
    active photos of [PhotoGroup]. *)
Record Scene : Type := mkScene {
  subsystems : list (list ParticleData);
  photos : list ParticleData
}.

(** [handDataRef] is the ref [handleHandUpdate] stores every emitted
    [HandData] in and the particle system reads at each frame;
    [positions] holds the [currentPositions] of each [SubSystem] and
    [closestIndex] is the state of [PhotoGroup]. *)
Record World : Type := mkWorld {
  tracker : Tracker;
  handDataRef : HandData;
  refs : ParticleSystem.Refs;
  positions : list (list Q);
  closestIndex : Z
}.

Definition initialWorld (sc : Scene) : World :=
  {| tracker := initialTracker;
     handDataRef := resetData;
     refs := ParticleSystem.initialRefs;
     positions := map SubSystem.initialPositions (subsystems sc);
     closestIndex := (-1)%Z |}.

(** The stable state of a world, and whether its tree is exploded. *)
Definition stable (w : World) : StableState :=
  lastState (persistenceRef (tracker w)).

Definition exploded (w : World) : bool :=
  ParticleSystem.isExplodedRef (refs w).

(** The tree is exploded and neither the stable state nor the last valid
    data says fist. *)
Definition expandedNoFist (w : World) : Prop :=
  stable w <> FIST
  /\ isClosed (lastValidHandDataRef (tracker w)) = false
  /\ exploded w = true.

(** Each subsystem holds three coordinates for each of its particles. *)
Definition sized (datas : list (list ParticleData))
  (curs : list (list Q)) : Prop :=
  Forall2 (fun d c => length c = (length d * 3)%nat) datas curs.

(** The coordinates of the object of index [j] in [c'] are those in [c],
    each moved toward [t] by [lerpFactor] of the distance
    (lines 547-549). *)
Definition movedToward (t : Vector3) (j : nat) (c c' : list Q) : Prop :=
  SubSystem.getAt c' (j * 3)
  = SubSystem.getAt c (j * 3)
    + (vx t - SubSystem.getAt c (j * 3)) * SubSystem.lerpFactor
  /\ SubSystem.getAt c' (j * 3 + 1)
     = SubSystem.getAt c (j * 3 + 1)
       + (vy t - SubSystem.getAt c (j * 3 + 1)) * SubSystem.lerpFactor
  /\ SubSystem.getAt c' (j * 3 + 2)
     = SubSystem.getAt c (j * 3 + 2)
       + (vz t - SubSystem.getAt c (j * 3 + 2)) * SubSystem.lerpFactor.

(** The two callbacks that run on animation frames: a video frame
    [predict] processes, and a frame of the canvas at the given clock time
    with the camera at the given place. *)
Inductive Event : Type :=
| Detect (results : option Landmarks)
| Render (time : Q) (camera : Vector3).

(** What one tick brings: the observation, and the clock time and the
    camera position of its canvas frame. *)
Record Tick : Type := mkTick {
  observed : option Landmarks;
  frameTime : Q;
  cameraPosition : Vector3
}.

Section Step.
Context {M : MathLib}.

(** The frame callbacks of the subsystems, each on its own particles and
    positions, all reading the same [isExplodedRef.current]. *)
Definition childFrames (isExploded : bool) (time : Q)
  (datas : list (list ParticleData)) (curs : list (list Q))
  : list (list Q) :=
  map (fun dc => SubSystem.useFrame isExploded time (fst dc) (snd dc))
      (combine datas curs).

(** In a frame of the canvas the callbacks run in the order they
    subscribed: those of the children [SubSystem] and [PhotoGroup], whose
    effects run first, before the one of [ParticleSystem].  So the
    children read [isExplodedRef] (lines 527 and 307) and the rotation as
    the frame before left them, and line 413 changes the flag after.  The
    callbacks of [TopStar] and of the photo frames touch none of this
    state. *)
Definition step (sc : Scene) (w : World) (e : Event) : World :=
  match e with
  | Detect results =>
      let (t, data) := predict (tracker w) results in
      {| tracker := t; handDataRef := data; refs := refs w;
         positions := positions w; closestIndex := closestIndex w |}
  | Render time camera =>
      {| tracker := tracker w;
         handDataRef := handDataRef w;
         refs := ParticleSystem.useFrame (refs w) (handDataRef w);
         positions :=
           childFrames (ParticleSystem.isExplodedRef (refs w)) time
                       (subsystems sc) (positions w);
         closestIndex :=
           PhotoGroup.useFrame (ParticleSystem.isExplodedRef (refs w)) time
             (ParticleSystem.containerRotation (refs w)) camera
             (photos sc) (closestIndex w) |}
  end.

(** A tick of the specification: one observation, then one frame. *)
Definition tick (sc : Scene) (w : World) (i : Tick) : World :=
  step sc (step sc w (Detect (observed i)))
       (Render (frameTime i) (cameraPosition i)).

Fixpoint ticks (sc : Scene) (w : World) (ts : list Tick) : World :=
  match ts with
  | [] => w
  | i :: ts' => ticks sc (tick sc w i) ts'
  end.

(** No tick of [ts], run from [w], leaves the fist counter above the
    threshold. *)
Fixpoint fistBelowThreshold (sc : Scene) (w : World) (ts : list Tick)
  : Prop :=
  match ts with
  | [] => True
  | i :: ts' =>
      (fistFrames (persistenceRef (tracker (tick sc w i))) <= THRESHOLD)%nat
      /\ fistBelowThreshold sc (tick sc w i) ts'
  end.

(** The tick observes a hand showing the gesture. *)
Definition showsOpen (i : Tick) : Prop :=
  match observed i with
  | Some lm => frameIsOpen (classify lm) = true
  | None => False
  end.

Definition showsFist (i : Tick) : Prop :=
  match observed i with
  | Some lm => frameIsFist (classify lm) = true
  | None => False
  end.

End Step.

End App.

(** ** A rational implementation of the library functions

    Used to run the definitions on concrete hands and scenes: the square root
    is taken to six decimals, sine and cosine are Taylor polynomials. *)

Module RefMath.

Definition Qsqrt (q : Q) : Q :=
  Z.sqrt ((Qnum q * 1000000000000) / Z.pos (Qden q)) # 1000000.

Definition sinT (x : Q) : Q :=
  x - x * x * x / 6 + x * x * x * x * x / 120.

Definition cosT (x : Q) : Q :=
  1 - x * x / 2 + x * x * x * x / 24.

Definition quatOfEuler (e : Euler) : Quaternion :=
  let c1 := cosT (ex e / 2) in let c2 := cosT (ey e / 2) in
  let c3 := cosT (ez e / 2) in
  let s1 := sinT (ex e / 2) in let s2 := sinT (ey e / 2) in
  let s3 := sinT (ez e / 2) in
  {| qx := Qred (s1 * c2 * c3 + c1 * s2 * s3);
     qy := Qred (c1 * s2 * c3 - s1 * c2 * s3);
     qz := Qred (c1 * c2 * s3 + s1 * s2 * c3);
     qw := Qred (c1 * c2 * c3 - s1 * s2 * s3) |}.

Definition rotateBy (v : Vector3) (q : Quaternion) : Vector3 :=
  let tx := 2 * (qy q * vz v - qz q * vy v) in
  let ty := 2 * (qz q * vx v - qx q * vz v) in
  let tz := 2 * (qx q * vy v - qy q * vx v) in
  {| vx := Qred (vx v + qw q * tx + qy q * tz - qz q * ty);
     vy := Qred (vy v + qw q * ty + qz q * tx - qx q * tz);
     vz := Qred (vz v + qw q * tz + qx q * ty - qy q * tx) |}.

Definition dist (a b : Vector3) : Q :=
  Qsqrt ((vx a - vx b) * (vx a - vx b) + (vy a - vy b) * (vy a - vy b)
         + (vz a - vz b) * (vz a - vz b)).

#[export] Instance refMath : MathLib :=
  {| hypot := fun a b c => Qsqrt (a * a + b * b + c * c);
     sin := sinT;
     setFromEuler := quatOfEuler;
     applyQuaternion := rotateBy;
     distanceTo := dist |}.

(** A flat hand: wrist at the centre of the image, palm of scale 0.1, the
    fingertips at the given distances above the wrist and the thumb tip
    [pinch] to the side of the index tip. *)
Definition hand (index middle ring little pinch : Q) : HandTracker.Landmarks :=
  fun i =>
    match i with
    | 0%nat => mkVector3 (1 # 2) (1 # 2) 0
    | 9%nat => mkVector3 (1 # 2) (4 # 10) 0
    | 4%nat => mkVector3 ((1 # 2) + pinch) ((1 # 2) - index) 0
    | 8%nat => mkVector3 (1 # 2) ((1 # 2) - index) 0
    | 12%nat => mkVector3 (1 # 2) ((1 # 2) - middle) 0
    | 16%nat => mkVector3 (1 # 2) ((1 # 2) - ring) 0
    | 20%nat => mkVector3 (1 # 2) ((1 # 2) - little) 0
    | _ => mkVector3 (1 # 2) (1 # 2) 0
    end.

Definition openHand : HandTracker.Landmarks :=
  hand (2 # 10) (2 # 10) (2 # 10) (2 # 10) (1 # 10).

Definition fistHand : HandTracker.Landmarks :=
  hand (1 # 10) (1 # 10) (1 # 10) (1 # 10) (1 # 10).

Definition pinchHand : HandTracker.Landmarks :=
  hand (16 # 100) (16 # 100) (16 # 100) (16 # 100) (2 # 100).

Definition relaxedHand : HandTracker.Landmarks :=
  hand (16 # 100) (16 # 100) (16 # 100) (16 # 100) (1 # 10).

(** The wrist on the base of the middle finger: a palm of scale 0. *)
Definition pointHand : HandTracker.Landmarks :=
  fun _ => mkVector3 (1 # 2) (1 # 2) 0.

End RefMath.

(** ** Concrete scenes *)

Module Scenes.

(** A photo placeholder given by its two anchors. *)
Definition photoAt (tree sphere : Vector3) : ParticleData :=
  {| treePos := tree; spherePos := sphere; scale := 1;
     rotationOffset := mkEuler 0 0 0 |}.

(** The observer on the axis of the tree, 14 units away. *)
Definition camera : Vector3 := mkVector3 0 0 14.

(** Two photos of the exploded tree at 8 and at 15 units from the
    observer. *)
Definition nearAndFar : list ParticleData :=
  [photoAt (mkVector3 0 0 0) (mkVector3 0 0 6);
   photoAt (mkVector3 0 1 0) (mkVector3 0 0 (-1))].

(** Two photos at 15 and at 14 units. *)
Definition bothFar : list ParticleData :=
  [photoAt (mkVector3 0 0 0) (mkVector3 0 0 (-1));
   photoAt (mkVector3 0 1 0) (mkVector3 0 0 0)].

Definition pinchingHand : HandData :=
  {| hasHand := true; isOpen := false; isClosed := false;
     isPinching := true; pinchDistance := 2 # 10;
     palmPosition := mkVector3 0 0 0 |}.

(** The canvas with one subsystem and the two photos. *)
Definition scene : App.Scene :=
  {| App.subsystems := [nearAndFar]; App.photos := nearAndFar |}.

(** A tick observing the given hand, the canvas frame at time 0. *)
Definition tickOf (lm : HandTracker.Landmarks) : App.Tick :=
  {| App.observed := Some lm; App.frameTime := 0;
     App.cameraPosition := camera |}.

(** A tick without a hand. *)
Definition emptyTick : App.Tick :=
  {| App.observed := None; App.frameTime := 0;
     App.cameraPosition := camera |}.

End Scenes.

(** ** HandTracker.tsx: the whole of [predict], and what the frames emit *)

Module PredictLoop.

Import HandTracker.

(** The refs [predict] reads before it reaches the detection. *)
Record Loop : Type := mkLoop {
  lastProcessTime : Q;
  lastVideoTime : Q;
  trackerRefs : Tracker
}.

Definition initialLoop : Loop :=
  {| lastProcessTime := 0; lastVideoTime := -1;
     trackerRefs := initialTracker |}.

(** What one call of [predict] finds: the clock, whether the landmarker and
    the video are ready (line 126), the time of the video frame and what
    [detectForVideo] returns for it. *)
Record Call : Type := mkCall {
  now : Q;
  ready : bool;
  currentTime : Q;
  results : option Landmarks
}.

Definition MIN_INTERVAL : Q := 30.

Section Call.
Context {M : MathLib}.

(** One call of [predict] (lines 118-238); the second component is the
    argument of [onHandUpdate] when the call reaches it. *)
Definition predictCall (l : Loop) (c : Call) : Loop * option HandData :=
  if Qltb (now c - lastProcessTime l) MIN_INTERVAL then (l, None)
  else if ready c then
    if negb (Qeq_bool (currentTime c) (lastVideoTime l)) then
      let (t, data) := predict (trackerRefs l) (results c) in
      ({| lastProcessTime := now c;
          lastVideoTime := currentTime c;
          trackerRefs := t |}, Some data)
    else
      ({| lastProcessTime := now c;
          lastVideoTime := lastVideoTime l;
          trackerRefs := trackerRefs l |}, None)
  else
    ({| lastProcessTime := now c;
        lastVideoTime := lastVideoTime l;
        trackerRefs := trackerRefs l |}, None).

Fixpoint predictCalls (l : Loop) (cs : list Call) : Loop :=
  match cs with
  | [] => l
  | c :: cs' => predictCalls (fst (predictCall l c)) cs'
  end.

(** What the calls [cs], made in turn from [l], pass to [onHandUpdate]:
    [None] for a call that does not reach it. *)
Fixpoint emitted (l : Loop) (cs : list Call) : list (option HandData) :=
  match cs with
  | [] => []
  | c :: cs' =>
      snd (predictCall l c) :: emitted (fst (predictCall l c)) cs'
  end.

End Call.

(** At most one gesture flag is set, and only with a hand. *)
Definition oneGesture (e : HandData) : Prop :=
  (isOpen e = true -> isClosed e = false /\ isPinching e = false)
  /\ (isClosed e = true -> isOpen e = false /\ isPinching e = false)
  /\ (isPinching e = true -> isOpen e = false /\ isClosed e = false)
  /\ (hasHand e = false ->
      isOpen e = false /\ isClosed e = false /\ isPinching e = false).

(** The wrist of a detected hand lies in the image. *)
Definition wristInImage (r : option Landmarks) : Prop :=
  match r with
  | Some lm =>
      0 <= vx (lm 0%nat) <= 1 /\ 0 <= vy (lm 0%nat) <= 1
  | None => True
  end.

(** The pointer lies in the control range. *)
Definition pointerInRange (e : HandData) : Prop :=
  - (3) <= vx (palmPosition e) <= 3 /\ - (3) <= vy (palmPosition e) <= 3
  /\ vz (palmPosition e) = 0.

(** The frame shows the gesture [g]. *)
Definition shows {M : MathLib} (g : StableState) (lm : Landmarks) : Prop :=
  match g with
  | FIST => frameIsFist (classify lm) = true
  | PINCH => frameIsPinch (classify lm) = true
  | OPEN => frameIsOpen (classify lm) = true
  | NEUTRAL => False
  end.

(** The counter of the gesture [g]. *)
Definition counterOf (g : StableState) (p : Persistence) : nat :=
  match g with
  | FIST => fistFrames p
  | PINCH => pinchFrames p
  | OPEN => openFrames p
  | NEUTRAL => 0
  end.

(** At most one of the three counters is not 0. *)
Definition oneCounter (p : Persistence) : Prop :=
  (fistFrames p = 0 /\ pinchFrames p = 0)%nat
  \/ (fistFrames p = 0 /\ openFrames p = 0)%nat
  \/ (pinchFrames p = 0 /\ openFrames p = 0)%nat.

End PredictLoop.

(** ** Runs of the particle system used by the further properties *)

Module Runs.

Import ParticleSystem.

(** Every frame of [hs], run from [r], has a hand showing an open hand or
    a fist and moving by more than the deadzone. *)
Fixpoint steering (r : Refs) (hs : list HandData) : Prop :=
  match hs with
  | [] => True
  | h :: hs' =>
      hasHand h = true
      /\ (isOpen h = true \/ isClosed h = true)
      /\ (DEADZONE < Qabs' (deltaX r h) \/ DEADZONE < Qabs' (deltaY r h))
      /\ steering (useFrame r h) hs'
  end.

(** The frames of a subsystem at the given times, the tree exploded or not
    throughout. *)
Fixpoint subsystemFrames {M : MathLib} (isExploded : bool) (times : list Q)
  (data : list ParticleData) (currentPositions : list Q) : list Q :=
  match times with
  | [] => currentPositions
  | time :: times' =>
      subsystemFrames isExploded times' data
        (SubSystem.useFrame isExploded time data currentPositions)
  end.

(** A hand making a fist at the given place. *)
Definition fistAt (x y : Q) : HandData :=
  {| hasHand := true; isOpen := false; isClosed := true;
     isPinching := false; pinchDistance := 1;
     palmPosition := mkVector3 x y 0 |}.

(** An open hand at the given place. *)
Definition openAt (x y : Q) : HandData :=
  {| hasHand := true; isOpen := true; isClosed := false;
     isPinching := false; pinchDistance := 1;
     palmPosition := mkVector3 x y 0 |}.

(** A pinching hand at the given place. *)
Definition pinchAt (x y : Q) : HandData :=
  {| hasHand := true; isOpen := false; isClosed := false;
     isPinching := true; pinchDistance := 2 # 10;
     palmPosition := mkVector3 x y 0 |}.

End Runs.

(** ** Snowfall.tsx *)

Module Snowfall.

(** [Math.random]: the draws in the order they are made. *)
Definition Random : Type := nat -> Q.

Record Flake : Type := mkFlake {
  x : Q;
  y : Q;
  z : Q;
  speed : Q;
  swaySpeed : Q;
  swayAmp : Q;
  scale : Q
}.

Definition count : nat := 600.

(** The loop of lines 13-23, entered with [n] flakes still to make and
    [k] draws already made. *)
Fixpoint generate (rnd : Random) (k : nat) (n : nat) : list Flake :=
  match n with
  | O => []
  | S n' =>
      {| x := (rnd k - (1 # 2)) * 30;
         y := rnd (k + 1)%nat * 20;
         z := (rnd (k + 2)%nat - (1 # 2)) * 30;
         speed := (2 # 100) + rnd (k + 3)%nat * (4 # 100);
         swaySpeed := (1 # 2) + rnd (k + 4)%nat;
         swayAmp := (2 # 100) + rnd (k + 5)%nat * (5 # 100);
         scale := (5 # 100) + rnd (k + 6)%nat * (8 # 100) |}
      :: generate rnd (k + 7) n'
  end.

(** [particles] as the component makes it once. *)
Definition particles (rnd : Random) : list Flake := generate rnd 0 count.

(** Lines 35-43 for one flake: it falls, and starts again from the top at a
    new place once it is below the ground.  The second component counts
    the draws made. *)
Definition fall (rnd : Random) (k : nat) (p : Flake) : Flake * nat :=
  let y1 := y p - speed p in
  if Qltb y1 (- (5)) then
    ({| x := (rnd k - (1 # 2)) * 30;
        y := 15;
        z := (rnd (S k) - (1 # 2)) * 30;
        speed := speed p; swaySpeed := swaySpeed p; swayAmp := swayAmp p;
        scale := scale p |}, S (S k))
  else
    ({| x := x p; y := y1; z := z p;
        speed := speed p; swaySpeed := swaySpeed p; swayAmp := swayAmp p;
        scale := scale p |}, k).

(** The frame callback once the mesh is mounted, as far as the flakes go:
    the rest of the loop only builds the instance matrices. *)
Fixpoint useFrame (rnd : Random) (k : nat) (ps : list Flake)
  : list Flake * nat :=
  match ps with
  | [] => ([], k)
  | p :: ps' =>
      let (p1, k1) := fall rnd k p in
      let (ps1, k2) := useFrame rnd k1 ps' in
      (p1 :: ps1, k2)
  end.

(** [n] frames in a row. *)
Fixpoint frames (rnd : Random) (n : nat) (k : nat) (ps : list Flake)
  : list Flake * nat :=
  match n with
  | O => (ps, k)
  | S n' =>
      let (ps1, k1) := useFrame rnd k ps in
      frames rnd n' k1 ps1
  end.

(** The flake is within the volume the component fills. *)
Definition inVolume (p : Flake) : Prop :=
  - (15) <= x p <= 15 /\ - (5) <= y p <= 20 /\ - (15) <= z p <= 15
  /\ 2 # 100 <= speed p <= 6 # 100.

End Snowfall.

(** ** PhotoFrame: how a photo frame approaches its target *)

Module PhotoFrame.

(** Modelled from the spec: [Vector3.lerp] belongs to three.js, whose
    source is not under [src/].  The spec reads its use at lines 236-237 as
    smoothing per axis with a coefficient that depends on the frame time;
    the definition is the one of three.js,
    [this.x += (v.x - this.x) * alpha] on each axis. *)
Definition lerp (this v : Vector3) (alpha : Q) : Vector3 :=
  {| vx := vx this + (vx v - vx this) * alpha;
     vy := vy this + (vy v - vy this) * alpha;
     vz := vz this + (vz v - vz this) * alpha |}.

(** [groupRef.current], as far as its position and scale go. *)
Record Group : Type := mkGroup { position : Vector3; scale : Vector3 }.

(** The value [targetScale.current.setScalar] receives (lines 211-233). *)
Definition targetScale (isHovered isSelected : bool) : Q :=
  if isSelected then 2
  else if isHovered then 45 # 100
  else 35 # 100.

Section Frame.
Context {M : MathLib}.

(** [targetPos.current] after lines 211-233; [position] is the prop of the
    frame. *)
Definition targetPos (cameraPosition : Vector3) (cameraQuaternion : Quaternion)
  (elapsedTime : Q) (position : Vector3) (isHovered isSelected : bool)
  : Vector3 :=
  if isSelected then
    let direction := applyQuaternion (mkVector3 0 0 (- (1))) cameraQuaternion in
    {| vx := vx cameraPosition + vx direction * 5;
       vy := vy cameraPosition + vy direction * 5;
       vz := vz cameraPosition + vz direction * 5 |}
  else if isHovered then
    {| vx := vx position;
       vy := vy position + sin (elapsedTime * 3) * (1 # 10);
       vz := vz position |}
  else position.

(** The frame callback (lines 208-245) once the group is mounted, without
    the rotation of the group. *)
Definition useFrame (cameraPosition : Vector3) (cameraQuaternion : Quaternion)
  (elapsedTime delta : Q) (position : Vector3) (isHovered isSelected : bool)
  (g : Group) : Group :=
  let speed := 10 * delta in
  let s := targetScale isHovered isSelected in
  {| position :=
       lerp (PhotoFrame.position g)
            (targetPos cameraPosition cameraQuaternion elapsedTime position
                       isHovered isSelected) speed;
     scale := lerp (PhotoFrame.scale g) (mkVector3 s s s) speed |}.

End Frame.

(** What the smoothing does to the distance from the target on one axis:
    [axis] holds the value before the frame, the value after it and the
    target. *)
Definition approaches (delta : Q) (axis : Q * Q * Q) : Prop :=
  let '(a, a', t) := axis in
  a' - t == (1 - 10 * delta) * (a - t)
  /\ (0 <= delta <= 1 # 10 -> Qabs' (a' - t) <= Qabs' (a - t))
  /\ (delta == 1 # 10 -> a' == t)
  /\ (2 # 10 < delta -> ~ a == t -> Qabs' (a - t) < Qabs' (a' - t)).

End PhotoFrame.

(** ** utils/geometry: the particles of the tree *)

Module Geometry.

Import Stdlib.Strings.String.

(** The [type] of a particle ([types.ts]). *)
Inductive ParticleType : Type :=
| foliage | orb_gold | orb_red | orb_silver | snow | cane
| photo_placeholder | box.

Definition ParticleType_eqb (a b : ParticleType) : bool :=
  match a, b with
  | foliage, foliage | orb_gold, orb_gold | orb_red, orb_red
  | orb_silver, orb_silver | snow, snow | cane, cane
  | photo_placeholder, photo_placeholder | box, box => true
  | _, _ => false
  end.

Inductive TemplateType : Type := TREE.

(** What the generator calls besides the functions of [MathLib]. *)
Class GeoLib : Type := {
  Color : Type;
  (* new THREE.Color(hex) *)
  colorOf : String.string -> Color;
  (* Color.lerp *)
  colorLerp : Color -> Color -> Q -> Color;
  (* Math.cos, Math.sqrt, Math.acos, Math.pow, Math.PI *)
  cos : Q -> Q;
  sqrt : Q -> Q;
  acos : Q -> Q;
  pow : Q -> Q -> Q;
  PI : Q;
  (* Vector3.normalize *)
  normalize : Vector3 -> Vector3
}.

(** The fields of [ParticleData] that [color] and [type] complete. *)
Record Particle {G : GeoLib} : Type := mkParticle {
  data : ParticleData;
  color : Color;
  ptype : ParticleType
}.

(** The argument of [addParticle]: a particle without its sphere position,
    the rotation being optional. *)
Record Partial {G : GeoLib} : Type := mkPartial {
  p_treePos : Vector3;
  p_color : Color;
  p_scale : Q;
  p_rotationOffset : option Euler;
  p_type : ParticleType
}.

Definition FOLIAGE : nat := 400.
Definition ORB_GOLD : nat := 500.
Definition ORB_RED : nat := 30.
Definition ORB_SILVER : nat := 20.
Definition SNOW : nat := 20.
Definition CANE : nat := 10.
Definition PHOTO : nat := 10.

(** A computation that draws from [Math.random]: it receives the number
    of draws made so far and returns it updated. *)
Definition Gen (A : Type) : Type := nat -> A * nat.

Definition ret {A : Type} (a : A) : Gen A := fun k => (a, k).

Definition bind {A B : Type} (c : Gen A) (f : A -> Gen B) : Gen B :=
  fun k => let (a, k1) := c k in f a k1.

Notation "x <- c ;; f" := (bind c (fun x => f))
  (at level 61, c at next level, right associativity).

(** [Vector3.multiplyScalar]. *)
Definition multiplyScalar (v : Vector3) (s : Q) : Vector3 :=
  {| vx := vx v * s; vy := vy v * s; vz := vz v * s |}.

(** The index of a loop as a number. *)
Definition num (i : nat) : Q := inject_Z (Z.of_nat i).

Section Generate.
Context {M : MathLib} {G : GeoLib}.
Variable rnd : Snowfall.Random.

(** [Math.random()]. *)
Definition random : Gen Q := fun k => (rnd k, S k).

Definition getSpherePoint (radius : Q) : Gen Vector3 :=
  u <- random ;;
  v <- random ;;
  let theta := 2 * PI * u in
  let phi := acos (2 * v - 1) in
  ret (multiplyScalar
         {| vx := sin phi * cos theta;
            vy := sin phi * sin theta;
            vz := cos phi |} radius).

Definition getExplosionPoint : Gen Vector3 :=
  a <- random ;;
  b <- random ;;
  c <- random ;;
  let dir := normalize (mkVector3 (a - (1 # 2)) (b - (1 # 2)) (c - (1 # 2))) in
  r <- random ;;
  ret (multiplyScalar dir (6 + r * 8)).

(** [addParticle]: the particle it pushes. *)
Definition addParticle (p : Partial) : Gen Particle :=
  spherePos <-
    (if ParticleType_eqb (p_type p) photo_placeholder
     then getSpherePoint (35 # 10)
     else
       c <- random ;;
       if Qltb c (8 # 10) then getSpherePoint (35 # 10)
       else getExplosionPoint) ;;
  ret {| data :=
           {| treePos := p_treePos p;
              spherePos := spherePos;
              scale := p_scale p;
              rotationOffset :=
                match p_rotationOffset p with
                | Some e => e
                | None => mkEuler 0 0 0
                end |};
         color := p_color p;
         ptype := p_type p |}.

(** The bodies of the seven loops (lines 65-176), [i] being the index. *)
Definition foliageBody (i : nat) : Gen Particle :=
  u <- random ;;
  let h := 4 - 8 * sqrt u in
  let maxR := (4 - h) * (5 # 10) in
  r0 <- random ;;
  let r := sqrt r0 * maxR in
  a <- random ;;
  let angle := a * PI * 2 in
  c <- random ;;
  s <- random ;;
  rx <- random ;;
  ry <- random ;;
  addParticle
    {| p_treePos := mkVector3 (cos angle * r) h (sin angle * r);
       p_color :=
         colorLerp (colorOf "#228B22"%string) (colorOf "#006400"%string) c;
       p_scale := s * (4 # 10) + (3 # 10);
       p_rotationOffset := Some (mkEuler (rx * PI) (ry * PI) 0);
       p_type := foliage |}.

Definition orbGoldBody (i : nat) : Gen Particle :=
  u <- random ;;
  let h := (38 # 10) - (78 # 10) * pow u (6 # 10) in
  let maxR := (4 - h) * (55 # 100) in
  let angle := num i * (5 # 10) in
  j <- random ;;
  let r := maxR * ((9 # 10) + j * (2 # 10)) in
  let x := cos angle * r in
  let z := sin angle * r in
  s <- random ;;
  ry <- random ;;
  addParticle
    {| p_treePos := mkVector3 x h z;
       p_color := colorOf "#FFD700"%string;
       p_scale := (s * (4 # 10) + (4 # 10)) * (15 # 10);
       p_rotationOffset := Some (mkEuler 0 (ry * PI) 0);
       p_type := orb_gold |}.

Definition orbRedBody (i : nat) : Gen Particle :=
  u <- random ;;
  let h := u * 6 - 3 in
  let maxR := (4 - h) * (58 # 100) in
  a <- random ;;
  let angle := a * PI * 2 in
  addParticle
    {| p_treePos := mkVector3 (cos angle * maxR) h (sin angle * maxR);
       p_color := colorOf "#DC143C"%string;
       p_scale := 1;
       p_rotationOffset := None;
       p_type := orb_red |}.

Definition orbSilverBody (i : nat) : Gen Particle :=
  u <- random ;;
  let h := u * 7 - (35 # 10) in
  let maxR := (4 - h) * (58 # 100) in
  a <- random ;;
  let angle := a * PI * 2 in
  addParticle
    {| p_treePos := mkVector3 (cos angle * maxR) h (sin angle * maxR);
       p_color := colorOf "#C0C0C0"%string;
       p_scale := 9 # 10;
       p_rotationOffset := None;
       p_type := orb_silver |}.

Definition snowBody (i : nat) : Gen Particle :=
  u <- random ;;
  let h := u * 8 - 3 in
  let r := (4 - h) * (7 # 10) in
  a <- random ;;
  let angle := a * PI * 2 in
  rx <- random ;;
  ry <- random ;;
  rz <- random ;;
  addParticle
    {| p_treePos := mkVector3 (cos angle * r) h (sin angle * r);
       p_color := colorOf "#FFFFFF"%string;
       p_scale := 12 # 10;
       p_rotationOffset := Some (mkEuler rx ry rz);
       p_type := snow |}.

Definition caneBody (i : nat) : Gen Particle :=
  u <- random ;;
  let h := u * 5 - (35 # 10) in
  let r := (4 - h) * (6 # 10) in
  a <- random ;;
  let angle := a * PI * 2 in
  rx <- random ;;
  ry <- random ;;
  addParticle
    {| p_treePos := mkVector3 (cos angle * r) h (sin angle * r);
       p_color := colorOf "#FF0000"%string;
       p_scale := 8 # 10;
       p_rotationOffset := Some (mkEuler (rx * (5 # 10)) (ry * PI) 0);
       p_type := cane |}.

(** The height, the angle and the radius of the photo of index [i]. *)
Definition photoHeight (i : nat) : Q :=
  num i / num (PHOTO - 1) * (35 # 10) - 1.

Definition photoAngle (i : nat) : Q := num i * (18 # 10).

Definition photoRadius (i : nat) : Q :=
  (4 - photoHeight i) * (55 # 100) + (4 # 10).

Definition photoBody (i : nat) : Gen Particle :=
  let h := photoHeight i in
  let angle := photoAngle i in
  let r := photoRadius i in
  addParticle
    {| p_treePos := mkVector3 (cos angle * r) h (sin angle * r);
       p_color := colorOf "#FFD700"%string;
       p_scale := 25 # 100;
       p_rotationOffset := Some (mkEuler 0 (- angle) 0);
       p_type := photo_placeholder |}.

(** [for (let i = ...; i < ...; i++)] with [n] rounds to go from index
    [i]: the particles it pushes, in order. *)
Fixpoint forLoop (n : nat) (i : nat) (body : nat -> Gen Particle)
  : Gen (list Particle) :=
  match n with
  | O => ret []
  | S n' =>
      a <- body i ;;
      rest <- forLoop n' (S i) body ;;
      ret (a :: rest)
  end.

Definition generateParticles (type : TemplateType) : Gen (list Particle) :=
  match type with
  | TREE =>
      l1 <- forLoop FOLIAGE 0 foliageBody ;;
      l2 <- forLoop ORB_GOLD 0 orbGoldBody ;;
      l3 <- forLoop ORB_RED 0 orbRedBody ;;
      l4 <- forLoop ORB_SILVER 0 orbSilverBody ;;
      l5 <- forLoop SNOW 0 snowBody ;;
      l6 <- forLoop CANE 0 caneBody ;;
      l7 <- forLoop PHOTO 0 photoBody ;;
      ret (l1 ++ l2 ++ l3 ++ l4 ++ l5 ++ l6 ++ l7)
  end.

End Generate.

(** [groups] of [ParticleSystem] (lines 392-400): the particles by type. *)
Record Groups {G : GeoLib} : Type := mkGroups {
  g_foliage : list Particle;
  g_orb_gold : list Particle;
  g_orb_red : list Particle;
  g_orb_silver : list Particle;
  g_snow : list Particle;
  g_cane : list Particle;
  g_photo_placeholder : list Particle
}.

Arguments mkGroups {G} _ _ _ _ _ _ _.

Section Groups.
Context {G : GeoLib}.

(** [if (g[p.type]) g[p.type].push(p)]: a type without a group is
    skipped. *)
Definition pushInto (g : Groups) (p : Particle) : Groups :=
  match ptype p with
  | foliage =>
      mkGroups (g_foliage g ++ [p]) (g_orb_gold g) (g_orb_red g)
               (g_orb_silver g) (g_snow g) (g_cane g) (g_photo_placeholder g)
  | orb_gold =>
      mkGroups (g_foliage g) (g_orb_gold g ++ [p]) (g_orb_red g)
               (g_orb_silver g) (g_snow g) (g_cane g) (g_photo_placeholder g)
  | orb_red =>
      mkGroups (g_foliage g) (g_orb_gold g) (g_orb_red g ++ [p])
               (g_orb_silver g) (g_snow g) (g_cane g) (g_photo_placeholder g)
  | orb_silver =>
      mkGroups (g_foliage g) (g_orb_gold g) (g_orb_red g)
               (g_orb_silver g ++ [p]) (g_snow g) (g_cane g)
               (g_photo_placeholder g)
  | snow =>
      mkGroups (g_foliage g) (g_orb_gold g) (g_orb_red g)
               (g_orb_silver g) (g_snow g ++ [p]) (g_cane g)
               (g_photo_placeholder g)
  | cane =>
      mkGroups (g_foliage g) (g_orb_gold g) (g_orb_red g)
               (g_orb_silver g) (g_snow g) (g_cane g ++ [p])
               (g_photo_placeholder g)
  | photo_placeholder =>
      mkGroups (g_foliage g) (g_orb_gold g) (g_orb_red g)
               (g_orb_silver g) (g_snow g) (g_cane g)
               (g_photo_placeholder g ++ [p])
  | box => g
  end.

Definition groups (particles : list Particle) : Groups :=
  fold_left pushInto particles (mkGroups [] [] [] [] [] [] []).

(** The particles of one type, in order. *)
Definition ofType (t : ParticleType) (particles : list Particle)
  : list Particle :=
  filter (fun p => ParticleType_eqb (ptype p) t) particles.

(** The state of [App] an upload touches. *)
Record Upload (Texture : Type) : Type := mkUpload {
  userTextures : list Texture;
  isPanelExpanded : bool;
  isProcessing : bool
}.

Arguments mkUpload {Texture} _ _ _.
Arguments userTextures {Texture} _.
Arguments isPanelExpanded {Texture} _.
Arguments isProcessing {Texture} _.

(** [Promise.all]: the values in the order of the promises once every one
    has resolved; a promise is [None] when it never resolves, and then
    the whole never does. *)
Fixpoint promiseAll {A : Type} (promises : list (option A))
  : option (list A) :=
  match promises with
  | [] => Some []
  | p :: rest =>
      match p, promiseAll rest with
      | Some a, Some l => Some (a :: l)
      | _, _ => None
      end
  end.

(** [handleFileUpload] of [App.tsx] (lines 48-76), with the state it
    leaves once the loads are over.  [load file] is what the promise of
    the file resolves with, [None] when the loader never calls back: the
    code passes no error callback, so a failed load leaves its promise
    pending, [then] never runs and the loading state stays on. *)
Definition handleFileUpload {File Texture : Type}
  (load : File -> option Texture) (files : list File)
  (st : Upload Texture) : Upload Texture :=
  match files with
  | [] => st
  | _ =>
      let filesToLoad := firstn 10 files in
      let promises := map load filesToLoad in
      match promiseAll promises with
      | Some textures =>
          {| userTextures := textures;
             isPanelExpanded := false;
             isProcessing := false |}
      | None =>
          {| userTextures := userTextures st;
             isPanelExpanded := isPanelExpanded st;
             isProcessing := true |}
      end
  end.

End Groups.

Arguments mkUpload {Texture} _ _ _.
Arguments userTextures {Texture} _.
Arguments isPanelExpanded {Texture} _.
Arguments isProcessing {Texture} _.

(** A rational stand-in for the library functions of the generator, used
    to run it on concrete draws; its accuracy plays no part in the
    theorems, which hold for every implementation. *)
#[export] Instance refGeo : GeoLib :=
  {| Color := String.string;
     colorOf := fun hex => hex;
     colorLerp := fun a b t => if Qltb t (1 # 2) then a else b;
     cos := RefMath.cosT;
     sqrt := RefMath.Qsqrt;
     acos := fun v => (355 # 226) - v - v * v * v / 6;
     pow := fun u e => RefMath.Qsqrt u;
     PI := 355 # 113;
     normalize := fun v =>
       multiplyScalar v
         (/ RefMath.Qsqrt (vx v * vx v + vy v * vy v + vz v * vz v)) |}.

End Geometry.

(** ** Concrete calls and photos *)

Module Samples.

(** A call of [predict] at the time [t] (in ms) that finds the video ready
    at its frame number [frame], with an open hand in it. *)
Definition callAt (t frame : Q) : PredictLoop.Call :=
  {| PredictLoop.now := t; PredictLoop.ready := true;
     PredictLoop.currentTime := frame;
     PredictLoop.results := Some RefMath.openHand |}.

(** Three photos of the exploded tree, the last two at the same distance
    (8) from the camera of [Scenes]. *)
Definition tiedPhotos : list ParticleData :=
  [Scenes.photoAt (mkVector3 0 0 0) (mkVector3 0 0 4);
   Scenes.photoAt (mkVector3 0 1 0) (mkVector3 0 0 6);
   Scenes.photoAt (mkVector3 0 2 0) (mkVector3 0 0 6)].

End Samples.

(** * Properties *)

(** ** Comparisons *)

Lemma Qltb_lt (a b : Q) : Qltb a b = true <-> a < b.
Proof.
  unfold Qltb. rewrite negb_true_iff. split; intro H.
  - apply Qnot_le_lt. intro L. apply Qle_bool_iff in L. congruence.
  - destruct (Qle_bool b a) eqn:E; [|reflexivity].
    apply Qle_bool_iff in E. exfalso. apply (Qlt_not_le _ _ H E).
Qed.

Lemma Qltb_ge (a b : Q) : Qltb a b = false <-> b <= a.
Proof.
  unfold Qltb. rewrite negb_false_iff. apply Qle_bool_iff.
Qed.

Lemma Qabs'_nonneg (a : Q) : 0 <= Qabs' a.
Proof.
  unfold Qabs'. destruct (Qltb a 0) eqn:E.
  - apply Qltb_lt in E. lra.
  - apply Qltb_ge in E. exact E.
Qed.

Lemma Qabs'_cases (a : Q) :
  (a < 0 /\ Qabs' a = - a) \/ (0 <= a /\ Qabs' a = a).
Proof.
  unfold Qabs'. destruct (Qltb a 0) eqn:E.
  - left. apply Qltb_lt in E. auto.
  - right. apply Qltb_ge in E. auto.
Qed.

(** ** The stabilizer *)

Module StabilizerFacts.

Import HandTracker.

(** The classifier raises at most one flag. *)
Lemma classify_flags `{MathLib} (lm : Landmarks) :
  let f := classify lm in
  (frameIsFist f, frameIsPinch f, frameIsOpen f) = (true, false, false)
  \/ (frameIsFist f, frameIsPinch f, frameIsOpen f) = (false, true, false)
  \/ (frameIsFist f, frameIsPinch f, frameIsOpen f) = (false, false, true)
  \/ (frameIsFist f, frameIsPinch f, frameIsOpen f) = (false, false, false).
Proof.
  unfold classify. cbv zeta.
  repeat match goal with
         | |- context [if ?c then _ else _] => destruct c
         end; cbn; auto.
Qed.

(** A frame without a hand leaves the counters and the smoothed values as
    they are. *)
Lemma predict_absent_keeps `{MathLib} (t : Tracker) :
  let t' := fst (predict t None) in
  fistFrames (persistenceRef t') = fistFrames (persistenceRef t)
  /\ pinchFrames (persistenceRef t') = pinchFrames (persistenceRef t)
  /\ openFrames (persistenceRef t') = openFrames (persistenceRef t)
  /\ smoothedRef t' = smoothedRef t
  /\ lastValidHandDataRef t' = lastValidHandDataRef t
  /\ missingHandFramesRef t' = S (missingHandFramesRef t).
Proof.
  unfold predict. cbv zeta.
  destruct (S (missingHandFramesRef t) <? GRACE_LIMIT)%nat; cbn;
    repeat split; reflexivity.
Qed.

(** The same over a dropout of [n] frames. *)
Lemma dropout_keeps `{MathLib} (n : nat) : forall t : Tracker,
  let t' := fst (run t (repeat None n)) in
  fistFrames (persistenceRef t') = fistFrames (persistenceRef t)
  /\ pinchFrames (persistenceRef t') = pinchFrames (persistenceRef t)
  /\ openFrames (persistenceRef t') = openFrames (persistenceRef t)
  /\ smoothedRef t' = smoothedRef t
  /\ lastValidHandDataRef t' = lastValidHandDataRef t
  /\ missingHandFramesRef t' = (missingHandFramesRef t + n)%nat.
Proof.
  induction n as [|n IH]; intro t; cbn zeta.
  - cbn. rewrite Nat.add_0_r. auto 10.
  - change (repeat None (S n)) with (@None Landmarks :: repeat None n).
    cbn [run].
    destruct (predict t None) as [t1 e] eqn:E.
    destruct (run t1 (repeat None n)) as [t2 es] eqn:E2.
    pose proof (predict_absent_keeps t) as K. rewrite E in K. cbn in K.
    pose proof (IH t1) as K1. rewrite E2 in K1. cbn in K1. cbn [fst].
    destruct K as (a & b & c & e1 & f & g).
    destruct K1 as (a1 & b1 & c1 & e2 & f1 & g1).
    rewrite a1, b1, c1, e2, f1, g1, a, b, c, e1, f, g.
    repeat split; lia.
Qed.

(** A frame without a hand, within the grace period. *)
Lemma predict_absent_grace `{MathLib} (t : Tracker) :
  (S (missingHandFramesRef t) < GRACE_LIMIT)%nat ->
  predict t None
  = ({| smoothedRef := smoothedRef t;
        persistenceRef := persistenceRef t;
        missingHandFramesRef := S (missingHandFramesRef t);
        lastValidHandDataRef := lastValidHandDataRef t |},
     lastValidHandDataRef t).
Proof.
  intro L. unfold predict. cbv zeta.
  apply Nat.ltb_lt in L. rewrite L. reflexivity.
Qed.

(** While the grace period lasts, a dropout emits the last valid data. *)
Lemma grace_emits `{MathLib} (n : nat) : forall t : Tracker,
  (missingHandFramesRef t + n < GRACE_LIMIT)%nat ->
  snd (run t (repeat None n)) = repeat (lastValidHandDataRef t) n
  /\ lastState (persistenceRef (fst (run t (repeat None n))))
     = lastState (persistenceRef t).
Proof.
  induction n as [|n IH]; intros t L.
  - cbn. auto.
  - change (repeat None (S n)) with (@None Landmarks :: repeat None n).
    cbn [run]. rewrite predict_absent_grace by lia.
    match goal with
    | |- context [run ?t1 _] =>
        specialize (IH t1 ltac:(cbn [missingHandFramesRef]; lia));
        destruct (run t1 (repeat None n)) as [t2 es]
    end.
    cbn in IH. destruct IH as [IH1 IH2]. cbn. rewrite IH1, IH2. auto.
Qed.

(** Once the grace limit is reached, a frame without a hand emits the reset
    data and forces the stable state to [NEUTRAL]. *)
Lemma expiry_resets `{MathLib} (t : Tracker) :
  (GRACE_LIMIT <= S (missingHandFramesRef t))%nat ->
  snd (predict t None) = resetData
  /\ lastState (persistenceRef (fst (predict t None))) = NEUTRAL.
Proof.
  intro L. unfold predict. cbv zeta.
  apply Nat.ltb_ge in L. rewrite L. cbn. auto.
Qed.

Lemma run_app `{MathLib} (rs1 : list (option Landmarks)) :
  forall (t : Tracker) (rs2 : list (option Landmarks)),
  run t (rs1 ++ rs2)
  = (fst (run (fst (run t rs1)) rs2),
     snd (run t rs1) ++ snd (run (fst (run t rs1)) rs2)).
Proof.
  induction rs1 as [|r rs1 IH]; intros t rs2; cbn [run app].
  - cbn. destruct (run t rs2); reflexivity.
  - destruct (predict t r) as [t1 e].
    rewrite IH. destruct (run t1 rs1) as [t2 es]. cbn. reflexivity.
Qed.

(** Forty frames without a hand, counted from a frame with one. *)
Lemma forty_missing `{MathLib} (t0 : Tracker) :
  missingHandFramesRef t0 = 0%nat ->
  snd (run t0 (repeat None 40))
  = repeat (lastValidHandDataRef t0) 39 ++ [resetData]
  /\ lastState (persistenceRef (fst (run t0 (repeat None 40)))) = NEUTRAL
  /\ (forall n : nat, (n <= 39)%nat ->
        lastState (persistenceRef (fst (run t0 (repeat None n))))
        = lastState (persistenceRef t0)).
Proof.
  intros M0.
  assert (G : forall n : nat, (n <= 39)%nat ->
            snd (run t0 (repeat None n)) = repeat (lastValidHandDataRef t0) n
            /\ lastState (persistenceRef (fst (run t0 (repeat None n))))
               = lastState (persistenceRef t0)).
  { intros n Hn. apply grace_emits. rewrite M0. unfold GRACE_LIMIT. lia. }
  replace (repeat None 40) with (repeat (@None Landmarks) 39 ++ [None])
    by reflexivity.
  rewrite run_app. cbn [fst snd].
  destruct (G 39%nat (le_n _)) as [G1 G2].
  pose proof (dropout_keeps 39 t0) as K. cbv zeta in K.
  destruct K as (_ & _ & _ & _ & _ & K).
  set (t39 := fst (run t0 (repeat None 39))) in *.
  assert (X : (GRACE_LIMIT <= S (missingHandFramesRef t39))%nat)
    by (rewrite K, M0; unfold GRACE_LIMIT; lia).
  destruct (expiry_resets t39 X) as [X1 X2].
  clearbody t39.
  cbn [run]. destruct (predict t39 None) as [t40 e40].
  cbn [fst snd app] in X1, X2 |- *.
  rewrite G1, X1, X2. repeat split.
  intros n Hn. apply (G n Hn).
Qed.

(** The rule of lines 184-198, on the counters after their update. *)
Lemma stabilize_rule (p : Persistence) (f : Frame) :
  let p' := stabilize p f in
  (fistFrames p' = (if frameIsFist f then S (fistFrames p) else 0)
   /\ pinchFrames p' = (if frameIsPinch f then S (pinchFrames p) else 0)
   /\ openFrames p' = (if frameIsOpen f then S (openFrames p) else 0))%nat
  /\ ((3 < pinchFrames p')%nat -> lastState p' = PINCH)
  /\ ((pinchFrames p' <= 3)%nat -> (3 < fistFrames p')%nat ->
      lastState p' = FIST)
  /\ ((pinchFrames p' <= 3)%nat -> (fistFrames p' <= 3)%nat ->
      (3 < openFrames p')%nat -> lastState p' = OPEN)
  /\ (pinchFrames p' = 0%nat -> fistFrames p' = 0%nat ->
      openFrames p' = 0%nat -> lastState p' = NEUTRAL)
  /\ ((pinchFrames p' <= 3)%nat -> (fistFrames p' <= 3)%nat ->
      (openFrames p' <= 3)%nat ->
      ~ (pinchFrames p' = 0 /\ fistFrames p' = 0 /\ openFrames p' = 0)%nat ->
      lastState p' = lastState p)
  /\ (lastState p' <> lastState p ->
      match lastState p' with
      | PINCH => (3 < pinchFrames p')%nat
      | FIST => (3 < fistFrames p')%nat
      | OPEN => (3 < openFrames p')%nat
      | NEUTRAL =>
          (pinchFrames p' = 0 /\ fistFrames p' = 0 /\ openFrames p' = 0)%nat
      end).
Proof.
  unfold stabilize. cbv zeta.
  cbn [fistFrames pinchFrames openFrames lastState].
  unfold finalStateOf, THRESHOLD, updateCounters.
  cbn [fistFrames pinchFrames openFrames lastState].
  set (nf := if frameIsFist f then _ else _).
  set (np := if frameIsPinch f then _ else _).
  set (no := if frameIsOpen f then _ else _).
  destruct (3 <? np)%nat eqn:Ep;
    [apply Nat.ltb_lt in Ep | apply Nat.ltb_ge in Ep];
  (destruct (3 <? nf)%nat eqn:Ef;
    [apply Nat.ltb_lt in Ef | apply Nat.ltb_ge in Ef]);
  (destruct (3 <? no)%nat eqn:Eo;
    [apply Nat.ltb_lt in Eo | apply Nat.ltb_ge in Eo]);
  (destruct (nf =? 0)%nat eqn:Zf;
    [apply Nat.eqb_eq in Zf | apply Nat.eqb_neq in Zf]);
  (destruct (np =? 0)%nat eqn:Zp;
    [apply Nat.eqb_eq in Zp | apply Nat.eqb_neq in Zp]);
  (destruct (no =? 0)%nat eqn:Zo;
    [apply Nat.eqb_eq in Zo | apply Nat.eqb_neq in Zo]);
  cbn [andb];
  repeat split; intros; try reflexivity; try lia; try tauto;
  try (exfalso; lia); try congruence.
Qed.

(** A frame showing a gesture whose counter already exceeds the threshold
    makes that gesture the stable state. *)
Lemma stabilize_resumes (p : Persistence) (f : Frame) :
  (frameIsFist f, frameIsPinch f, frameIsOpen f) = (true, false, false)
  \/ (frameIsFist f, frameIsPinch f, frameIsOpen f) = (false, true, false)
  \/ (frameIsFist f, frameIsPinch f, frameIsOpen f) = (false, false, true)
  \/ (frameIsFist f, frameIsPinch f, frameIsOpen f) = (false, false, false) ->
  ((3 < fistFrames p)%nat -> frameIsFist f = true ->
     lastState (stabilize p f) = FIST)
  /\ ((3 < pinchFrames p)%nat -> frameIsPinch f = true ->
     lastState (stabilize p f) = PINCH)
  /\ ((3 < openFrames p)%nat -> frameIsOpen f = true ->
     lastState (stabilize p f) = OPEN).
Proof.
  intro F.
  destruct (stabilize_rule p f) as ((Cf & Cp & Co) & Rp & Rf & Ro & _).
  repeat split; intros Big Flag;
    destruct F as [F|[F|[F|F]]]; inversion F as [[Ff Fp Fo]];
    try congruence; rewrite ?Ff, ?Fp, ?Fo in *;
    [apply Rf | apply Rp | apply Ro]; lia.
Qed.

(** The loop over the fingertips counts the folded and the extended ones. *)
Lemma countTip_fold `{MathLib} (lm : Landmarks) (palmScale : Q)
  (l : list nat) :
  forall a b : nat,
  fold_left (countTip lm palmScale) l (a, b)
  = ((a + length (filter (fun t => Qltb (d lm 0 t) (palmScale * (14 # 10)))
                         l))%nat,
     (b + length (filter (fun t => Qltb (palmScale * (17 # 10)) (d lm 0 t))
                         l))%nat).
Proof.
  induction l as [|t l IH]; intros a b; cbn [fold_left filter length].
  - now rewrite !Nat.add_0_r.
  - unfold countTip at 2. cbv zeta. cbn [fst snd]. rewrite IH.
    destruct (Qltb (d lm 0 t) (palmScale * (14 # 10)));
      destruct (Qltb (palmScale * (17 # 10)) (d lm 0 t));
      cbn [length]; f_equal; lia.
Qed.

(** Clamping to [[0, 1]] does not change the comparison with 0.5. *)
Lemma clamp_below_half (n : Q) :
  Qmin2 (Qmax2 n 0) 1 < 1 # 2 <-> n < 1 # 2.
Proof.
  unfold Qmin2, Qmax2.
  destruct (Qltb n 0) eqn:A; [apply Qltb_lt in A | apply Qltb_ge in A].
  - destruct (Qltb 1 0) eqn:B; [apply Qltb_lt in B | apply Qltb_ge in B];
      split; intros; lra.
  - destruct (Qltb 1 n) eqn:B; [apply Qltb_lt in B | apply Qltb_ge in B];
      split; intros; lra.
Qed.

(** The pinch target of a frame with a positive palm scale. *)
Lemma classify_targetPinch `{MathLib} (lm : Landmarks) :
  0 < d lm 0 9 ->
  targetPinch (classify lm) = Qmin2 (Qmax2 (d lm 4 8 / d lm 0 9) 0) 1.
Proof.
  intro P. apply Qltb_lt in P. unfold classify. cbv zeta. rewrite P.
  repeat match goal with
         | |- context [if ?c then mkFrame _ _ _ _ _ _ else _] => destruct c
         end; reflexivity.
Qed.

End StabilizerFacts.

(** ** The claims about the tracker *)

Module TrackerClaims.

Import HandTracker StabilizerFacts.

(** C1.  On every frame with a hand, the counters are updated from the flags
    of the frame and the stable state follows from the updated counters in
    fixed priority: [PINCH] if the pinch counter exceeds 3, else [FIST] if
    the fist counter does, else [OPEN] if the open counter does, else
    [NEUTRAL] if the three counters are 0, else the previous stable state.
    Hence the stable state changes to a gesture only on a frame where the
    counter of that gesture exceeds 3, and to [NEUTRAL] only on a frame where
    the three counters are 0.  The tracker [t] is arbitrary, so this covers
    every frame of every sequence. *)
Theorem stable_state_priority `{MathLib} (t : Tracker) (lm : Landmarks) :
  let p := persistenceRef t in
  let p' := persistenceRef (fst (predict t (Some lm))) in
  let f := classify lm in
  (fistFrames p' = (if frameIsFist f then S (fistFrames p) else 0)
   /\ pinchFrames p' = (if frameIsPinch f then S (pinchFrames p) else 0)
   /\ openFrames p' = (if frameIsOpen f then S (openFrames p) else 0))%nat
  /\ ((3 < pinchFrames p')%nat -> lastState p' = PINCH)
  /\ ((pinchFrames p' <= 3)%nat -> (3 < fistFrames p')%nat ->
      lastState p' = FIST)
  /\ ((pinchFrames p' <= 3)%nat -> (fistFrames p' <= 3)%nat ->
      (3 < openFrames p')%nat -> lastState p' = OPEN)
  /\ (pinchFrames p' = 0%nat -> fistFrames p' = 0%nat ->
      openFrames p' = 0%nat -> lastState p' = NEUTRAL)
  /\ ((pinchFrames p' <= 3)%nat -> (fistFrames p' <= 3)%nat ->
      (openFrames p' <= 3)%nat ->
      ~ (pinchFrames p' = 0 /\ fistFrames p' = 0 /\ openFrames p' = 0)%nat ->
      lastState p' = lastState p)
  /\ (lastState p' <> lastState p ->
      match lastState p' with
      | PINCH => (3 < pinchFrames p')%nat
      | FIST => (3 < fistFrames p')%nat
      | OPEN => (3 < openFrames p')%nat
      | NEUTRAL =>
          (pinchFrames p' = 0 /\ fistFrames p' = 0 /\ openFrames p' = 0)%nat
      end).
Proof.
  cbv zeta. unfold predict. cbv zeta. cbn [fst persistenceRef].
  exact (stabilize_rule (persistenceRef t) (classify lm)).
Qed.

(** C3.  A frame with a hand is followed by 40 frames without one: the
    first 39 emit again the data the frame with the hand emitted, the 40th
    emits the reset data ([hasHand] false, pointer at the origin, pinch
    distance 1) and forces the stable state, kept until then, to [NEUTRAL].
    A frame with a hand always sets the counter of missing frames to 0. *)
Theorem grace_period `{MathLib} (t : Tracker) (lm : Landmarks) :
  let t0 := fst (predict t (Some lm)) in
  let e0 := snd (predict t (Some lm)) in
  snd (run t0 (repeat None 40)) = repeat e0 39 ++ [resetData]
  /\ lastState (persistenceRef (fst (run t0 (repeat None 40)))) = NEUTRAL
  /\ (forall n : nat, (n <= 39)%nat ->
        lastState (persistenceRef (fst (run t0 (repeat None n))))
        = lastState (persistenceRef t0))
  /\ resetData
     = {| hasHand := false; isOpen := false; isClosed := false;
          isPinching := false; pinchDistance := 1;
          palmPosition := mkVector3 0 0 0 |}
  /\ (forall (t' : Tracker) (lm' : Landmarks),
        missingHandFramesRef (fst (predict t' (Some lm'))) = 0%nat).
Proof.
  cbv zeta.
  destruct (forty_missing (fst (predict t (Some lm))) eq_refl)
    as (A & B & C).
  split; [exact A|]. split; [exact B|]. split; [exact C|].
  split; reflexivity.
Qed.

(** C9.  A frame without a hand, the one on which the grace period expires
    included, changes none of the three counters.  So after a dropout of any
    length a counter that exceeded 3 before it makes the stable state that
    of its gesture on the first frame with a hand, if that frame shows the
    gesture; when the dropout reached the grace limit the stable state was
    [NEUTRAL] just before. *)
Theorem dropout_keeps_counters `{MathLib} (t : Tracker) :
  (fistFrames (persistenceRef (fst (predict t None)))
     = fistFrames (persistenceRef t)
   /\ pinchFrames (persistenceRef (fst (predict t None)))
     = pinchFrames (persistenceRef t)
   /\ openFrames (persistenceRef (fst (predict t None)))
     = openFrames (persistenceRef t))
  /\ (forall (n : nat) (lm : Landmarks),
        let t' := fst (run t (repeat None n)) in
        let after := persistenceRef (fst (predict t' (Some lm))) in
        ((3 < fistFrames (persistenceRef t))%nat ->
           frameIsFist (classify lm) = true -> lastState after = FIST)
        /\ ((3 < pinchFrames (persistenceRef t))%nat ->
           frameIsPinch (classify lm) = true -> lastState after = PINCH)
        /\ ((3 < openFrames (persistenceRef t))%nat ->
           frameIsOpen (classify lm) = true -> lastState after = OPEN))
  /\ (forall n : nat,
        (GRACE_LIMIT <= missingHandFramesRef t + S n)%nat ->
        lastState (persistenceRef (fst (run t (repeat None (S n)))))
        = NEUTRAL).
Proof.
  split; [|split].
  - pose proof (predict_absent_keeps t) as K. cbv zeta in K. tauto.
  - intros n lm. cbv zeta.
    pose proof (dropout_keeps n t) as K. cbv zeta in K.
    destruct K as (Kf & Kp & Ko & _).
    set (t' := fst (run t (repeat None n))) in *.
    unfold predict. cbv zeta. cbn [fst persistenceRef].
    destruct (stabilize_resumes (persistenceRef t') (classify lm)
                (classify_flags lm)) as (Rf & Rp & Ro).
    rewrite Kf in Rf. rewrite Kp in Rp. rewrite Ko in Ro. auto.
  - intros n L.
    cbn [repeat]. rewrite repeat_cons, run_app. cbn [fst].
    pose proof (dropout_keeps n t) as K. cbv zeta in K.
    destruct K as (_ & _ & _ & _ & _ & K).
    set (tn := fst (run t (repeat None n))) in *.
    assert (X : (GRACE_LIMIT <= S (missingHandFramesRef tn))%nat)
      by (rewrite K; lia).
    destruct (expiry_resets tn X) as [_ X2].
    cbn [run]. destruct (predict tn None) as [t1 e1].
    cbn [fst snd] in X2 |- *.
    exact X2.
Qed.

(** C10.  The frame on which the grace period expires emits the pointer at
    the origin and the pinch distance 1 but leaves the smoothed values as
    they were; so do all frames of a dropout.  The first frame with a hand
    after a dropout therefore smooths from the values before the dropout,
    and what it emits differs from smoothing from the emitted baseline by
    0.7 times the distance of the old values from that baseline. *)
Theorem smoothing_survives_dropout `{MathLib} (t : Tracker) (n : nat)
  (lm : Landmarks) :
  let t' := fst (run t (repeat None n)) in
  let f := classify lm in
  let s := smoothedRef t in
  let s' := smoothedRef (fst (predict t' (Some lm))) in
  let e := snd (predict t' (Some lm)) in
  ((GRACE_LIMIT <= S (missingHandFramesRef t))%nat ->
     palmPosition (snd (predict t None)) = mkVector3 0 0 0
     /\ pinchDistance (snd (predict t None)) = 1
     /\ hasHand (snd (predict t None)) = false)
  /\ smoothedRef (fst (predict t None)) = s
  /\ smoothedRef t' = s
  /\ sx s' = sx s + (rawX f - sx s) * (3 # 10)
  /\ sy s' = sy s + (rawY f - sy s) * (3 # 10)
  /\ spinch s' = spinch s + (targetPinch f - spinch s) * (3 # 10)
  /\ palmPosition e = mkVector3 (sx s') (sy s') 0
  /\ pinchDistance e = spinch s'
  /\ sx s' - (0 + (rawX f - 0) * (3 # 10)) == (7 # 10) * sx s
  /\ sy s' - (0 + (rawY f - 0) * (3 # 10)) == (7 # 10) * sy s
  /\ spinch s' - (1 + (targetPinch f - 1) * (3 # 10))
     == (7 # 10) * (spinch s - 1).
Proof.
  cbv zeta.
  pose proof (dropout_keeps n t) as K. cbv zeta in K.
  destruct K as (_ & _ & _ & K & _).
  pose proof (predict_absent_keeps t) as K1. cbv zeta in K1.
  destruct K1 as (_ & _ & _ & K1 & _).
  set (t' := fst (run t (repeat None n))) in *. clearbody t'.
  split.
  { intro X. destruct (expiry_resets t X) as [X1 _]. rewrite X1.
    repeat split. }
  split; [exact K1|]. split; [exact K|].
  unfold predict. cbv zeta.
  cbn [fst snd smoothedRef palmPosition pinchDistance].
  unfold smooth, alpha. cbn [sx sy spinch]. rewrite K.
  repeat split; ring.
Qed.

(** C4.  With a positive palm scale the flags of the frame follow the first
    match: fist if at least 3 of the 4 fingertips are folded (nearer to the
    wrist than 1.4 palm scales); else open if at least 3 are extended
    (farther than 1.7 palm scales); else pinch if the normalised pinch
    distance is below 0.5 and the middle fingertip is farther than 1.5 palm
    scales; else no flag.  The pinch distance compared is the one before
    clamping to [[0, 1]], which makes no difference.  With a palm scale of 0
    or less no flag is raised and the pinch target keeps its default 1. *)
Theorem raw_gesture_first_match `{MathLib} (lm : Landmarks) :
  let f := classify lm in
  let palmScale := d lm 0 9 in
  let folded := length (foldedTips lm) in
  let extended := length (extendedTips lm) in
  let normPinch := d lm 4 8 / palmScale in
  let flags := (frameIsFist f, frameIsPinch f, frameIsOpen f) in
  (forall t : nat,
     In t (foldedTips lm)
     <-> In t [8; 12; 16; 20]%nat /\ d lm 0 t < palmScale * (14 # 10))
  /\ (forall t : nat,
     In t (extendedTips lm)
     <-> In t [8; 12; 16; 20]%nat /\ palmScale * (17 # 10) < d lm 0 t)
  /\ (0 < palmScale ->
      ((3 <= folded)%nat -> flags = (true, false, false))
      /\ ((folded < 3)%nat -> (3 <= extended)%nat ->
          flags = (false, false, true))
      /\ ((folded < 3)%nat -> (extended < 3)%nat ->
          normPinch < 1 # 2 -> palmScale * (15 # 10) < d lm 0 12 ->
          flags = (false, true, false))
      /\ ((folded < 3)%nat -> (extended < 3)%nat ->
          ~ (normPinch < 1 # 2 /\ palmScale * (15 # 10) < d lm 0 12) ->
          flags = (false, false, false)))
  /\ (0 < palmScale -> (targetPinch f < 1 # 2 <-> normPinch < 1 # 2))
  /\ (palmScale <= 0 ->
      flags = (false, false, false) /\ targetPinch f = 1).
Proof.
  cbv zeta. split; [|split; [|split; [|split]]].
  - intro t. unfold foldedTips. rewrite filter_In, Qltb_lt. reflexivity.
  - intro t. unfold extendedTips. rewrite filter_In, Qltb_lt. reflexivity.
  - intro P. apply Qltb_lt in P. unfold classify. cbv zeta. rewrite P.
    rewrite countTip_fold. cbn [fst snd Nat.add].
    fold (foldedTips lm). fold (extendedTips lm).
    destruct (3 <=? length (foldedTips lm))%nat eqn:Ef;
      [apply Nat.leb_le in Ef | apply Nat.leb_gt in Ef].
    { cbn [frameIsFist frameIsPinch frameIsOpen].
      repeat split; intros; try reflexivity; exfalso; lia. }
    destruct (3 <=? length (extendedTips lm))%nat eqn:Ee;
      [apply Nat.leb_le in Ee | apply Nat.leb_gt in Ee].
    { cbn [frameIsFist frameIsPinch frameIsOpen].
      repeat split; intros; try reflexivity; exfalso; lia. }
    generalize (d lm 4 8 / d lm 0 9) as np. intro np.
    destruct (Qltb np (1 # 2)) eqn:Ep;
      [apply Qltb_lt in Ep | apply Qltb_ge in Ep];
      (destruct (Qltb (d lm 0 9 * (15 # 10)) (d lm 0 12)) eqn:Em;
       [apply Qltb_lt in Em | apply Qltb_ge in Em]);
      cbn [andb frameIsFist frameIsPinch frameIsOpen];
      repeat split; intros; try reflexivity; try (exfalso; lia);
      try (exfalso; tauto); exfalso; lra.
  - intro P. rewrite (classify_targetPinch lm P). apply clamp_below_half.
  - intro P. apply Qltb_ge in P. unfold classify. cbv zeta. rewrite P.
    cbn. split; reflexivity.
Qed.

(** The scenario of C9 on a concrete hand: four frames of a fist, a
    dropout of 45 frames, which leaves the stable state [NEUTRAL] and the
    fist counter at 4, and one more frame of a fist, which makes the stable
    state [FIST] at once. *)
Example fist_resumes_after_dropout :
  let t := fst (run (M := RefMath.refMath) initialTracker
                  (repeat (Some RefMath.fistHand) 4 ++ repeat None 45)) in
  lastState (persistenceRef t) = NEUTRAL
  /\ fistFrames (persistenceRef t) = 4%nat
  /\ lastState (persistenceRef
                  (fst (predict (M := RefMath.refMath) t
                          (Some RefMath.fistHand)))) = FIST.
Proof.
  vm_compute. repeat split.
Qed.

End TrackerClaims.

(** ** The orientation of the field *)

Module OrientationFacts.

Import ParticleSystem.

Lemma lerp_to_zero (x t : Q) : lerp x 0 t == (1 - t) * x.
Proof. unfold lerp. ring. Qed.

(** Within the deadzone the hand does not rotate the field. *)
Lemma rotate_deadzone (h : HandData) (dx dy : Q) (rot : Euler) :
  Qabs' dx <= DEADZONE -> Qabs' dy <= DEADZONE -> rotate h dx dy rot = rot.
Proof.
  intros Hx Hy. unfold rotate.
  apply Qltb_ge in Hx. apply Qltb_ge in Hy. rewrite Hx, Hy. reflexivity.
Qed.

(** The levelling never touches the yaw. *)
Lemma autoLevel_yaw (exploded : bool) (rot : Euler) :
  ey (autoLevel exploded rot) = ey rot.
Proof. destruct exploded; reflexivity. Qed.

Lemma autoLevel_exploded (rot : Euler) : autoLevel true rot = rot.
Proof. reflexivity. Qed.

Lemma autoLevel_compact (rot : Euler) :
  ex (autoLevel false rot) == (19 # 20) * ex rot
  /\ ez (autoLevel false rot) == (19 # 20) * ez rot.
Proof. cbn. rewrite !lerp_to_zero. split; ring. Qed.

(** One frame whose deltas are within the deadzone. *)
Lemma useFrame_deadzone (r : Refs) (h : HandData) :
  (hasHand h = true ->
     Qabs' (deltaX r h) <= DEADZONE /\ Qabs' (deltaY r h) <= DEADZONE) ->
  containerRotation (useFrame r h)
  = autoLevel (isExplodedRef (useFrame r h)) (containerRotation r).
Proof.
  intro D. unfold useFrame. destruct (hasHand h) eqn:E.
  - destruct (D eq_refl) as [Dx Dy]. cbn.
    rewrite rotate_deadzone by assumption. reflexivity.
  - reflexivity.
Qed.

(** One frame without a hand. *)
Lemma useFrame_absent (r : Refs) (h : HandData) :
  hasHand h = false ->
  containerRotation (useFrame r h)
  = autoLevel (isExplodedRef r) (containerRotation r)
  /\ isExplodedRef (useFrame r h) = isExplodedRef r.
Proof.
  intro E. unfold useFrame, shapeStep. rewrite E. cbn. auto.
Qed.

Lemma powQ_pos (n : nat) : 0 < powQ (19 # 20) n <= 1.
Proof.
  induction n as [|n IH]; cbn [powQ].
  - lra.
  - lra.
Qed.

(** Bernoulli's bound for the decay: [0.95 ^ n <= 19 / (19 + n)]. *)
Lemma powQ_bound (n : nat) :
  powQ (19 # 20) n * (19 + inject_Z (Z.of_nat n)) <= 19.
Proof.
  induction n as [|n IH].
  - cbn [powQ Z.of_nat]. change (inject_Z 0) with 0. lra.
  - cbn [powQ]. rewrite Nat2Z.inj_succ. unfold Z.succ. rewrite inject_Z_plus.
    pose proof (powQ_pos n) as P.
    set (a := powQ (19 # 20) n) in *.
    set (m := inject_Z (Z.of_nat n)) in *.
    change (inject_Z 1) with 1.
    setoid_replace ((19 # 20) * a * (19 + (m + 1)))
      with ((19 # 20) * (a * (19 + m) + a)) by ring.
    lra.
Qed.

(** Every rational is below some natural number. *)
Lemma Q_below_nat (y : Q) : exists n : nat, y < inject_Z (Z.of_nat n).
Proof.
  destruct y as [a b].
  exists (Z.to_nat (Z.max a 0) + 1)%nat.
  unfold Qlt. cbn [Qnum Qden inject_Z].
  rewrite Nat2Z.inj_add, Z2Nat.id by lia. nia.
Qed.

(** The decay gets below every positive bound. *)
Lemma powQ_vanishes (x eps : Q) :
  0 <= x -> 0 < eps ->
  exists N : nat, forall n : nat, (N <= n)%nat -> powQ (19 # 20) n * x < eps.
Proof.
  intros Hx He.
  destruct (Q_below_nat (19 * x / eps)) as [N HN].
  exists N. intros n Hn.
  pose proof (powQ_bound n) as B. pose proof (powQ_pos n) as P.
  set (a := powQ (19 # 20) n) in *.
  assert (Hm : inject_Z (Z.of_nat N) <= inject_Z (Z.of_nat n)).
  { rewrite <- Zle_Qle. lia. }
  assert (H0 : 0 <= inject_Z (Z.of_nat n)).
  { change 0 with (inject_Z 0). rewrite <- Zle_Qle. lia. }
  set (m := inject_Z (Z.of_nat n)) in *.
  set (k := inject_Z (Z.of_nat N)) in *.
  assert (Hk : 19 * x < eps * k).
  { setoid_replace (19 * x) with ((19 * x / eps) * eps) by (field; lra).
    setoid_replace (eps * k) with (k * eps) by ring.
    apply Qmult_lt_r; assumption. }
  assert (H1 : a * x * (19 + m) <= 19 * x).
  { setoid_replace (a * x * (19 + m)) with (a * (19 + m) * x) by ring.
    apply Qmult_le_compat_r; assumption. }
  assert (H2 : eps * k <= eps * (19 + m)).
  { setoid_replace (eps * k) with (k * eps) by ring.
    setoid_replace (eps * (19 + m)) with ((19 + m) * eps) by ring.
    apply Qmult_le_compat_r; lra. }
  assert (H3 : a * x * (19 + m) < eps * (19 + m)) by lra.
  setoid_replace (a * x * (19 + m)) with ((19 + m) * (a * x)) in H3 by ring.
  setoid_replace (eps * (19 + m)) with ((19 + m) * eps) in H3 by ring.
  apply Qmult_lt_l in H3; [exact H3 | lra].
Qed.

(** Scaling by a positive factor scales the absolute value. *)
Lemma Qabs'_scaled (p x y : Q) :
  0 < p -> y == p * x -> Qabs' y == p * Qabs' x.
Proof.
  intros Hp E.
  destruct (Qabs'_cases x) as [[Hx Ex]|[Hx Ex]]; rewrite Ex.
  - assert (0 < p * (- x)) by (apply Qmult_lt_0_compat; lra).
    assert (p * (- x) == - (p * x)) by ring.
    destruct (Qabs'_cases y) as [[Hy Ey]|[Hy Ey]]; rewrite Ey; lra.
  - assert (0 <= p * x) by (apply Qmult_le_0_compat; lra).
    destruct (Qabs'_cases y) as [[Hy Ey]|[Hy Ey]]; rewrite Ey; lra.
Qed.

(** A run of frames within the deadzone only levels the field. *)
Lemma frames_deadzone (hs : list HandData) : forall r : Refs,
  withinDeadzone r hs ->
  ey (containerRotation (frames r hs)) = ey (containerRotation r)
  /\ ex (containerRotation (frames r hs))
     == powQ (19 # 20) (compactFrames r hs) * ex (containerRotation r)
  /\ ez (containerRotation (frames r hs))
     == powQ (19 # 20) (compactFrames r hs) * ez (containerRotation r)
  /\ (compactFrames r hs = 0%nat ->
      containerRotation (frames r hs) = containerRotation r).
Proof.
  induction hs as [|h hs IH]; intros r D.
  - cbn. repeat split; ring.
  - destruct D as [Dh D]. cbn [frames compactFrames].
    destruct (IH _ D) as (Iy & Ix & Iz & Ie).
    pose proof (useFrame_deadzone r h Dh) as U.
    destruct (isExplodedRef (useFrame r h)) eqn:E.
    + rewrite autoLevel_exploded in U. cbn [Nat.add].
      rewrite Iy, Ix, Iz, U. repeat split; try reflexivity.
      intro Z. rewrite (Ie Z). exact U.
    + destruct (autoLevel_compact (containerRotation r)) as [Ax Az].
      rewrite <- U in Ax, Az.
      rewrite Iy, Ix, Iz, U, autoLevel_yaw, <- U, Ax, Az.
      cbn [Nat.add powQ]. repeat split; try ring.
      intro Z. discriminate Z.
Qed.

(** A run of frames without a hand, the tree not exploded. *)
Lemma frames_absent (hs : list HandData) : forall r : Refs,
  Forall (fun h => hasHand h = false) hs ->
  isExplodedRef r = false ->
  isExplodedRef (frames r hs) = false
  /\ ey (containerRotation (frames r hs)) = ey (containerRotation r)
  /\ ex (containerRotation (frames r hs))
     == powQ (19 # 20) (length hs) * ex (containerRotation r)
  /\ ez (containerRotation (frames r hs))
     == powQ (19 # 20) (length hs) * ez (containerRotation r).
Proof.
  induction hs as [|h hs IH]; intros r A C.
  - cbn. repeat split; try assumption; ring.
  - inversion A as [|? ? Ah A']; subst. cbn [frames length powQ].
    destruct (useFrame_absent r h Ah) as [U E]. rewrite C in U, E.
    destruct (IH _ A' E) as (Ie & Iy & Ix & Iz).
    destruct (autoLevel_compact (containerRotation r)) as [Ax Az].
    rewrite <- U in Ax, Az.
    rewrite Ie, Iy, Ix, Iz, Ax, Az, U.
    repeat split; try ring.
Qed.

End OrientationFacts.

(** ** The claims about the orientation *)

Module OrientationClaims.

Import ParticleSystem OrientationFacts.

(** C5, as the specification states it, fails: with the tree not exploded
    and a pitch of 1, one frame in which the hand does not move at all
    (deltas 0, within the deadzone) takes the pitch to 0.95. *)
Lemma deadzone_changes_pitch :
  withinDeadzone tiltedRefs [restingHand]
  /\ ex (containerRotation (frames tiltedRefs [restingHand])) == 19 # 20
  /\ ~ ex (containerRotation (frames tiltedRefs [restingHand]))
       == ex (containerRotation tiltedRefs).
Proof.
  split; [|split].
  - cbn. split; [|exact I]. intros _. split; discriminate.
  - vm_compute. reflexivity.
  - vm_compute. discriminate.
Qed.

(** C5, amended.  Over a sequence of frames whose pointer deltas all lie
    within the deadzone, the yaw does not change, and the pitch and the roll
    are scaled by 0.95 once for each frame on which the tree is not
    exploded; with the tree exploded on every frame the three angles are
    unchanged. *)
Theorem deadzone_keeps_orientation (r : Refs) (hs : list HandData) :
  withinDeadzone r hs ->
  let rot := containerRotation r in
  let rot' := containerRotation (frames r hs) in
  ey rot' = ey rot
  /\ ex rot' == powQ (19 # 20) (compactFrames r hs) * ex rot
  /\ ez rot' == powQ (19 # 20) (compactFrames r hs) * ez rot
  /\ (compactFrames r hs = 0%nat -> rot' = rot).
Proof.
  intro D. cbv zeta. apply frames_deadzone. exact D.
Qed.

Lemma deadzone_keeps_orientation_witness :
  withinDeadzone tiltedRefs [restingHand; noHand; restingHand]
  /\ ey (containerRotation
           (frames tiltedRefs [restingHand; noHand; restingHand])) = 2
  /\ ex (containerRotation
           (frames tiltedRefs [restingHand; noHand; restingHand]))
     == powQ (19 # 20) 3 * 1.
Proof.
  assert (D : withinDeadzone tiltedRefs [restingHand; noHand; restingHand]).
  { cbn. repeat split; try discriminate. }
  destruct (deadzone_keeps_orientation tiltedRefs _ D) as (Y & X & _).
  split; [exact D|]. split; [exact Y|exact X].
Defined.

(** C6.  With the tree not exploded and no hand, every frame moves the
    pitch and the roll toward 0 by 0.05 of their value: their absolute
    values do not grow, they keep their sign, and after [n] frames they are
    [0.95 ^ n] times what they were, which gets below every positive bound.
    The yaw is not changed by these frames, and the levelling changes it in
    no mode. *)
Theorem auto_level_decay (r : Refs) :
  isExplodedRef r = false ->
  (forall h : HandData, hasHand h = false ->
     let rot := containerRotation r in
     let rot' := containerRotation (useFrame r h) in
     ex rot' - ex rot == (0 - ex rot) * (5 # 100)
     /\ ez rot' - ez rot == (0 - ez rot) * (5 # 100)
     /\ Qabs' (ex rot') <= Qabs' (ex rot)
     /\ Qabs' (ez rot') <= Qabs' (ez rot)
     /\ (0 < ex rot -> 0 < ex rot' < ex rot)
     /\ (ex rot < 0 -> ex rot < ex rot' < 0)
     /\ (0 < ez rot -> 0 < ez rot' < ez rot)
     /\ (ez rot < 0 -> ez rot < ez rot' < 0)
     /\ ey rot' = ey rot
     /\ isExplodedRef (useFrame r h) = false)
  /\ (forall hs : list HandData,
        Forall (fun h => hasHand h = false) hs ->
        isExplodedRef (frames r hs) = false
        /\ ey (containerRotation (frames r hs)) = ey (containerRotation r)
        /\ ex (containerRotation (frames r hs))
           == powQ (19 # 20) (length hs) * ex (containerRotation r)
        /\ ez (containerRotation (frames r hs))
           == powQ (19 # 20) (length hs) * ez (containerRotation r))
  /\ (forall eps : Q, 0 < eps ->
        exists N : nat, forall hs : list HandData,
          Forall (fun h => hasHand h = false) hs ->
          (N <= length hs)%nat ->
          Qabs' (ex (containerRotation (frames r hs))) < eps
          /\ Qabs' (ez (containerRotation (frames r hs))) < eps)
  /\ (forall (exploded : bool) (rot : Euler),
        ey (autoLevel exploded rot) = ey rot).
Proof.
  intro C. split; [|split; [|split]].
  - intros h A. cbv zeta.
    destruct (useFrame_absent r h A) as [U E]. rewrite C in U, E.
    destruct (autoLevel_compact (containerRotation r)) as [Ax Az].
    rewrite <- U in Ax, Az.
    assert (Y : ey (containerRotation (useFrame r h))
                = ey (containerRotation r))
      by (rewrite U; apply autoLevel_yaw).
    pose proof (Qabs'_scaled (19 # 20) _ _ ltac:(lra) Ax) as Bx.
    pose proof (Qabs'_scaled (19 # 20) _ _ ltac:(lra) Az) as Bz.
    pose proof (Qabs'_nonneg (ex (containerRotation r))).
    pose proof (Qabs'_nonneg (ez (containerRotation r))).
    repeat split; try assumption; intros; lra.
  - intros hs A. apply frames_absent; assumption.
  - intros eps He.
    destruct (powQ_vanishes (Qabs' (ex (containerRotation r))) eps
                (Qabs'_nonneg _) He) as [Nx HNx].
    destruct (powQ_vanishes (Qabs' (ez (containerRotation r))) eps
                (Qabs'_nonneg _) He) as [Nz HNz].
    exists (Nat.max Nx Nz). intros hs A L.
    destruct (frames_absent hs r A C) as (_ & _ & Ix & Iz).
    pose proof (powQ_pos (length hs)) as [P _].
    rewrite (Qabs'_scaled _ _ _ P Ix), (Qabs'_scaled _ _ _ P Iz).
    split; [apply HNx | apply HNz]; lia.
  - intros exploded rot. apply autoLevel_yaw.
Qed.

Lemma auto_level_decay_witness :
  ex (containerRotation (useFrame tiltedRefs noHand)) - 1
  == (0 - 1) * (5 # 100)
  /\ ey (containerRotation (useFrame tiltedRefs noHand)) = 2.
Proof.
  destruct (auto_level_decay tiltedRefs eq_refl) as (S1 & _).
  destruct (S1 noHand eq_refl) as (X & _ & _ & _ & _ & _ & _ & _ & Y & _).
  split; [exact X | exact Y].
Defined.

End OrientationClaims.

(** ** The displayed positions *)

Module SubSystemFacts.

Import SubSystem.

Lemma setAt_length (l : list Q) : forall (i : nat) (v : Q),
  length (setAt l i v) = length l.
Proof.
  induction l as [|a l IH]; intros [|i] v; cbn; auto.
Qed.

Lemma getAt_setAt_same (l : list Q) : forall (i : nat) (v : Q),
  (i < length l)%nat -> getAt (setAt l i v) i = v.
Proof.
  unfold getAt.
  induction l as [|a l IH]; intros [|i] v L; cbn in *; try lia; auto.
  apply IH. lia.
Qed.

Lemma getAt_setAt_other (l : list Q) : forall (i j : nat) (v : Q),
  i <> j -> getAt (setAt l i v) j = getAt l j.
Proof.
  unfold getAt.
  induction l as [|a l IH]; intros [|i] [|j] v N; cbn; auto; try lia.
Qed.

Section Loop.
Context {M : MathLib}.
Variables (isExploded : bool) (time : Q).

Lemma moveObject_length (i : nat) (p : ParticleData) (cur : list Q) :
  length (moveObject isExploded time i p cur) = length cur.
Proof.
  unfold moveObject. cbv zeta. now rewrite !setAt_length.
Qed.

(** The three coordinates of object [i] after its step of the loop. *)
Lemma moveObject_own (i : nat) (p : ParticleData) (cur : list Q) :
  (i * 3 + 2 < length cur)%nat ->
  let t := target isExploded time i p in
  getAt (moveObject isExploded time i p cur) (i * 3)
  = getAt cur (i * 3) + (vx t - getAt cur (i * 3)) * lerpFactor
  /\ getAt (moveObject isExploded time i p cur) (i * 3 + 1)
     = getAt cur (i * 3 + 1) + (vy t - getAt cur (i * 3 + 1)) * lerpFactor
  /\ getAt (moveObject isExploded time i p cur) (i * 3 + 2)
     = getAt cur (i * 3 + 2) + (vz t - getAt cur (i * 3 + 2)) * lerpFactor.
Proof.
  intro L. cbv zeta. unfold moveObject. cbv zeta.
  set (v1 := getAt cur (i * 3) + _).
  set (c1 := setAt cur (i * 3) v1).
  assert (E1 : getAt c1 (i * 3 + 1) = getAt cur (i * 3 + 1))
    by (apply getAt_setAt_other; lia).
  assert (L1 : length c1 = length cur) by apply setAt_length.
  rewrite E1.
  set (v2 := getAt cur (i * 3 + 1) + _).
  set (c2 := setAt c1 (i * 3 + 1) v2).
  assert (E2 : getAt c2 (i * 3 + 2) = getAt cur (i * 3 + 2)).
  { unfold c2, c1. rewrite !getAt_setAt_other by lia. reflexivity. }
  assert (L2 : length c2 = length cur)
    by (unfold c2; rewrite setAt_length; exact L1).
  rewrite E2.
  set (v3 := getAt cur (i * 3 + 2) + _).
  split; [|split].
  - rewrite getAt_setAt_other by lia.
    unfold c2. rewrite getAt_setAt_other by lia.
    unfold c1. apply getAt_setAt_same. lia.
  - rewrite getAt_setAt_other by lia.
    unfold c2. apply getAt_setAt_same. lia.
  - apply getAt_setAt_same. lia.
Qed.

(** The step of object [i] leaves the other coordinates alone. *)
Lemma moveObject_others (i : nat) (p : ParticleData) (cur : list Q) (m : nat) :
  (m < i * 3 \/ i * 3 + 2 < m)%nat ->
  getAt (moveObject isExploded time i p cur) m = getAt cur m.
Proof.
  intro N. unfold moveObject. cbv zeta.
  rewrite !getAt_setAt_other by lia. reflexivity.
Qed.

(** The loop entered at index [k] leaves the coordinates of the objects
    before [k] alone and moves each object it visits once. *)
Lemma loop_spec (rest : list ParticleData) : forall (k : nat) (cur : list Q),
  ((k + length rest) * 3 <= length cur)%nat ->
  length (loop isExploded time k rest cur) = length cur
  /\ (forall m : nat, (m < k * 3)%nat ->
        getAt (loop isExploded time k rest cur) m = getAt cur m)
  /\ (forall (j : nat) (p : ParticleData),
        nth_error rest j = Some p ->
        let i := (k + j)%nat in
        let t := target isExploded time i p in
        let cur' := loop isExploded time k rest cur in
        getAt cur' (i * 3)
        = getAt cur (i * 3) + (vx t - getAt cur (i * 3)) * lerpFactor
        /\ getAt cur' (i * 3 + 1)
           = getAt cur (i * 3 + 1)
             + (vy t - getAt cur (i * 3 + 1)) * lerpFactor
        /\ getAt cur' (i * 3 + 2)
           = getAt cur (i * 3 + 2)
             + (vz t - getAt cur (i * 3 + 2)) * lerpFactor).
Proof.
  induction rest as [|q rest IH]; intros k cur L; cbn [loop length] in *.
  - split; [reflexivity|]. split; [reflexivity|].
    intros [|j] p E; discriminate E.
  - specialize (IH (S k) (moveObject isExploded time k q cur)).
    rewrite moveObject_length in IH.
    destruct (IH ltac:(lia)) as (Il & Ib & Iv). clear IH.
    split; [exact Il|]. split.
    + intros m Hm. rewrite Ib by lia. apply moveObject_others. lia.
    + intros [|j] p E; cbv zeta.
      * injection E as ->. rewrite Nat.add_0_r.
        rewrite !Ib by lia. apply moveObject_own. lia.
      * cbn [nth_error] in E. specialize (Iv j p E). cbv zeta in Iv.
        replace (k + S j)%nat with (S k + j)%nat by lia.
        destruct Iv as (I1 & I2 & I3). rewrite I1, I2, I3.
        rewrite !moveObject_others by lia. repeat split.
Qed.

End Loop.

End SubSystemFacts.

Module SubSystemClaims.

Import SubSystem SubSystemFacts.

(** C8.  In a frame of a subsystem the target of each object is its sphere
    position when the tree is exploded and otherwise its tree position with
    [sin (time * 1.5 + i) * 0.05] added to the height; each coordinate of
    the displayed position then moves toward the target by 0.08 of the
    distance, on its own.  The photos, which [PhotoGroup] places, have the
    same target, rotated with the field. *)
Theorem displayed_position_update `{MathLib} (isExploded : bool) (time : Q)
  (data : list ParticleData) (currentPositions : list Q)
  (i : nat) (p : ParticleData) :
  nth_error data i = Some p ->
  length currentPositions = (length data * 3)%nat ->
  let cur' := useFrame isExploded time data currentPositions in
  let t := target isExploded time i p in
  (isExploded = true -> t = spherePos p)
  /\ (isExploded = false ->
      t = {| vx := vx (treePos p);
             vy := vy (treePos p)
                   + sin (time * (15 # 10) + inject_Z (Z.of_nat i))
                     * (5 # 100);
             vz := vz (treePos p) |})
  /\ getAt cur' (i * 3)
     = getAt currentPositions (i * 3)
       + (vx t - getAt currentPositions (i * 3)) * (8 # 100)
  /\ getAt cur' (i * 3 + 1)
     = getAt currentPositions (i * 3 + 1)
       + (vy t - getAt currentPositions (i * 3 + 1)) * (8 # 100)
  /\ getAt cur' (i * 3 + 2)
     = getAt currentPositions (i * 3 + 2)
       + (vz t - getAt currentPositions (i * 3 + 2)) * (8 # 100)
  /\ length cur' = length currentPositions
  /\ (forall rotation : Euler,
        PhotoGroup.worldPos isExploded time rotation i p
        = applyQuaternion t (setFromEuler rotation)).
Proof.
  intros E L. cbv zeta.
  destruct (loop_spec isExploded time data 0 currentPositions)
    as (Hl & _ & Hv).
  { cbn [Nat.add]. lia. }
  specialize (Hv i p E). cbv zeta in Hv. cbn [Nat.add] in Hv.
  destruct Hv as (H1 & H2 & H3).
  split; [intros ->; reflexivity|].
  split; [intros ->; reflexivity|].
  unfold useFrame. repeat split; auto.
Qed.

Lemma displayed_position_update_witness :
  nth_error Scenes.nearAndFar 1
  = Some (Scenes.photoAt (mkVector3 0 1 0) (mkVector3 0 0 (-1)))
  /\ length (initialPositions Scenes.nearAndFar)
     = (length Scenes.nearAndFar * 3)%nat
  /\ getAt (useFrame (M := RefMath.refMath) true 0 Scenes.nearAndFar
              (initialPositions Scenes.nearAndFar)) (1 * 3 + 1)
     = 1 + (0 - 1) * (8 # 100).
Proof.
  assert (E : nth_error Scenes.nearAndFar 1
              = Some (Scenes.photoAt (mkVector3 0 1 0) (mkVector3 0 0 (-1))))
    by reflexivity.
  assert (L : length (initialPositions Scenes.nearAndFar)
              = (length Scenes.nearAndFar * 3)%nat) by reflexivity.
  destruct (displayed_position_update (H := RefMath.refMath) true 0
              Scenes.nearAndFar (initialPositions Scenes.nearAndFar) 1 _ E L)
    as (_ & _ & _ & Y & _).
  split; [exact E|]. split; [exact L|]. exact Y.
Defined.

End SubSystemClaims.

(** ** The focus on the nearest photo *)

Module PhotoGroupFacts.

Import PhotoGroup.

Section Scan.
Context {M : MathLib}.
Variables (isExploded : bool) (time : Q) (rotation : Euler) (camera : Vector3).
Variable photos : list ParticleData.

Lemma visit_scanned (k : nat) (p : ParticleData) (s : Scan) :
  scanned isExploded time rotation camera photos k s ->
  nth_error photos k = Some p ->
  scanned isExploded time rotation camera photos (S k)
          (visit isExploded time rotation camera k p s).
Proof.
  intros I E. unfold visit. cbv zeta.
  unfold scanned in I.
  destruct (minDistance s) as [m|] eqn:Em; cbn [below].
  - destruct I as (j & q & Lj & Ej & Ei & Emq & Hall & Hfirst).
    destruct (Qltb (distanceAt isExploded time rotation camera k p) m)
      eqn:B; [apply Qltb_lt in B | apply Qltb_ge in B].
    + unfold scanned. cbn [minDistance idx].
      exists k, p. repeat split; auto.
      * intros j' p' L' E'.
        destruct (Nat.eq_dec j' k) as [->|N].
        -- rewrite E in E'. injection E' as <-. lra.
        -- specialize (Hall j' p' ltac:(lia) E'). lra.
      * intros j' p' L' E'. specialize (Hall j' p' L' E'). lra.
    + unfold scanned. rewrite Em.
      exists j, q. repeat split; auto.
      intros j' p' L' E'.
      destruct (Nat.eq_dec j' k) as [->|N].
      * rewrite E in E'. injection E' as <-. exact B.
      * apply Hall; [lia | exact E'].
  - destruct I as [-> _]. unfold scanned. cbn [minDistance idx].
    exists 0%nat, p. repeat split; auto.
    + intros j' p' L' E'. assert (j' = 0)%nat as -> by lia.
      rewrite E in E'. injection E' as <-. lra.
    + intros j' p' L'. lia.
Qed.

Lemma scan_scanned (rest : list ParticleData) :
  forall (pre : list ParticleData) (s : Scan),
  photos = pre ++ rest ->
  scanned isExploded time rotation camera photos (length pre) s ->
  scanned isExploded time rotation camera photos (length photos)
          (scan isExploded time rotation camera (length pre) rest s).
Proof.
  induction rest as [|p rest IH]; intros pre s E I; cbn [scan].
  - replace (length photos) with (length pre)
      by (rewrite E, app_nil_r; reflexivity).
    exact I.
  - assert (Ep : nth_error photos (length pre) = Some p).
    { rewrite E, nth_error_app2, Nat.sub_diag by lia. reflexivity. }
    specialize (IH (pre ++ [p])
                   (visit isExploded time rotation camera (length pre) p s)).
    rewrite length_app, Nat.add_1_r in IH. apply IH.
    + rewrite <- app_assoc. exact E.
    + apply visit_scanned; assumption.
Qed.

(** A frame over at least one photo picks the first photo at the least
    distance and keeps it if that distance is below the cutoff. *)
Lemma useFrame_nearest (prev : Z) :
  photos <> [] ->
  exists (j : nat) (p : ParticleData),
    nth_error photos j = Some p
    /\ (forall (j' : nat) (p' : ParticleData),
          nth_error photos j' = Some p' ->
          distanceAt isExploded time rotation camera j p
          <= distanceAt isExploded time rotation camera j' p')
    /\ (forall (j' : nat) (p' : ParticleData),
          (j' < j)%nat -> nth_error photos j' = Some p' ->
          distanceAt isExploded time rotation camera j p
          < distanceAt isExploded time rotation camera j' p')
    /\ useFrame isExploded time rotation camera photos prev
       = if Qltb (distanceAt isExploded time rotation camera j p) CUTOFF
         then Z.of_nat j else (-1)%Z.
Proof.
  intro N.
  pose proof (scan_scanned photos [] (mkScan None (-1)) eq_refl) as I.
  cbn [length] in I. specialize (I (conj eq_refl eq_refl)).
  unfold useFrame. destruct photos as [|p0 ps] eqn:Eph; [congruence|].
  rewrite <- Eph in *.
  unfold scanned in I.
  destruct (minDistance (scan isExploded time rotation camera 0 photos
                              (mkScan None (-1)))) as [m|] eqn:Em.
  - destruct I as (j & q & Lj & Ej & Ei & Emq & Hall & Hfirst).
    exists j, q. subst m. rewrite Ei. repeat split; auto.
    intros j' p' E'. apply (Hall j' p'); [|exact E'].
    apply nth_error_Some. congruence.
  - destruct I as [I _]. rewrite Eph in I. discriminate I.
Qed.

End Scan.

Lemma isHovered_unique (c : Z) (i j : nat) :
  isHovered c i = true -> isHovered c j = true -> i = j.
Proof.
  unfold isHovered. intros Hi Hj.
  apply Z.eqb_eq in Hi. apply Z.eqb_eq in Hj. lia.
Qed.

Lemma isHovered_none (i : nat) : isHovered (-1) i = false.
Proof. unfold isHovered. apply Z.eqb_neq. lia. Qed.

End PhotoGroupFacts.

Module PhotoGroupClaims.

Import PhotoGroup PhotoGroupFacts.

(** C7.  After a frame over at least one photo: a photo whose distance to
    the camera is below that of every other photo is hovered exactly when
    that distance is below 12; a hovered photo is at the least distance,
    which is below 12; if every photo is at 12 or more, none is hovered; a
    photo is selected exactly when it is hovered and the hand is pinching;
    so at most one photo is hovered and at most one is selected. *)
Theorem nearest_photo_focus `{MathLib} (isExploded : bool) (time : Q)
  (rotation : Euler) (camera : Vector3) (photos : list ParticleData)
  (prev : Z) (h : HandData) :
  photos <> [] ->
  let c := useFrame isExploded time rotation camera photos prev in
  let dist := distanceOf isExploded time rotation camera photos in
  (forall (i : nat) (di : Q),
     dist i = Some di ->
     (forall (j : nat) (dj : Q), j <> i -> dist j = Some dj -> di < dj) ->
     (isHovered c i = true <-> di < 12))
  /\ (forall i : nat,
        isHovered c i = true ->
        exists di : Q,
          dist i = Some di /\ di < 12
          /\ forall (j : nat) (dj : Q), dist j = Some dj -> di <= dj)
  /\ ((forall (i : nat) (di : Q), dist i = Some di -> 12 <= di) ->
      forall i : nat, isHovered c i = false)
  /\ (forall i : nat,
        isSelected c h i = true
        <-> isHovered c i = true /\ isPinching h = true)
  /\ (forall i j : nat,
        isHovered c i = true -> isHovered c j = true -> i = j)
  /\ (forall i j : nat,
        isSelected c h i = true -> isSelected c h j = true -> i = j).
Proof.
  intro N. cbv zeta.
  destruct (useFrame_nearest isExploded time rotation camera photos prev N)
    as (k & p & Ek & Hall & _ & Ec).
  rewrite Ec. clear Ec. unfold CUTOFF.
  set (dk := distanceAt isExploded time rotation camera k p) in *.
  assert (Dk : distanceOf isExploded time rotation camera photos k = Some dk)
    by (unfold distanceOf; rewrite Ek; reflexivity).
  assert (Least : forall (j : nat) (dj : Q),
            distanceOf isExploded time rotation camera photos j = Some dj ->
            dk <= dj).
  { intros j dj Ej. unfold distanceOf in Ej.
    destruct (nth_error photos j) as [pj|] eqn:Epj; [|discriminate Ej].
    injection Ej as <-. exact (Hall j pj Epj). }
  split; [|split; [|split; [|split; [|split]]]].
  - intros i di Ei U.
    assert (k = i) as <-.
    { destruct (Nat.eq_dec k i) as [E|NE]; [exact E|].
      specialize (U k dk NE Dk). specialize (Least i di Ei). lra. }
    rewrite Dk in Ei. injection Ei as <-.
    destruct (Qltb dk 12) eqn:B.
    + apply Qltb_lt in B. unfold isHovered. rewrite Z.eqb_refl. tauto.
    + apply Qltb_ge in B. rewrite isHovered_none.
      split; [discriminate | intro; lra].
  - intros i Hi. destruct (Qltb dk 12) eqn:B.
    + apply Qltb_lt in B. unfold isHovered in Hi. apply Z.eqb_eq in Hi.
      apply Nat2Z.inj in Hi. subst i. exists dk. auto.
    + rewrite isHovered_none in Hi. discriminate Hi.
  - intros Far i. specialize (Far k dk Dk).
    apply Qltb_ge in Far. rewrite Far. apply isHovered_none.
  - intro i. unfold isSelected. apply andb_true_iff.
  - intros i j. apply isHovered_unique.
  - intros i j Hi Hj. unfold isSelected in Hi, Hj.
    apply andb_true_iff in Hi. apply andb_true_iff in Hj.
    destruct Hi as [Hi _]. destruct Hj as [Hj _].
    exact (isHovered_unique _ i j Hi Hj).
Qed.

Lemma nearest_photo_focus_witness :
  Scenes.nearAndFar <> []
  /\ distanceOf (M := RefMath.refMath) true 0 (mkEuler 0 0 0) Scenes.camera
       Scenes.nearAndFar 0 = Some (8000000 # 1000000)
  /\ distanceOf (M := RefMath.refMath) true 0 (mkEuler 0 0 0) Scenes.camera
       Scenes.nearAndFar 1 = Some (15000000 # 1000000)
  /\ isHovered
       (useFrame (M := RefMath.refMath) true 0 (mkEuler 0 0 0) Scenes.camera
          Scenes.nearAndFar (-1)) 0 = true
  /\ isHovered
       (useFrame (M := RefMath.refMath) true 0 (mkEuler 0 0 0) Scenes.camera
          Scenes.nearAndFar (-1)) 1 = false
  /\ (forall i : nat,
        isHovered
          (useFrame (M := RefMath.refMath) true 0 (mkEuler 0 0 0)
             Scenes.camera Scenes.bothFar 0) i = false).
Proof.
  assert (N1 : Scenes.nearAndFar <> []) by discriminate.
  assert (N2 : Scenes.bothFar <> []) by discriminate.
  destruct (nearest_photo_focus (H := RefMath.refMath) true 0 (mkEuler 0 0 0)
              Scenes.camera Scenes.nearAndFar (-1) Scenes.pinchingHand N1)
    as (U & _ & _ & _ & One & _).
  destruct (nearest_photo_focus (H := RefMath.refMath) true 0 (mkEuler 0 0 0)
              Scenes.camera Scenes.bothFar 0 Scenes.pinchingHand N2)
    as (_ & _ & Far & _).
  cbv zeta in U, Far.
  assert (H0 : isHovered
                 (useFrame (M := RefMath.refMath) true 0 (mkEuler 0 0 0)
                    Scenes.camera Scenes.nearAndFar (-1)) 0 = true).
  { apply (U 0%nat (8000000 # 1000000)).
    - vm_compute. reflexivity.
    - intros [|[|j]] dj NE E.
      + congruence.
      + vm_compute in E. injection E as <-. reflexivity.
      + unfold distanceOf in E. cbn in E. destruct j; discriminate E.
    - reflexivity. }
  split; [exact N1|]. split; [vm_compute; reflexivity|].
  split; [vm_compute; reflexivity|]. split; [exact H0|]. split.
  - destruct (isHovered
                (useFrame (M := RefMath.refMath) true 0 (mkEuler 0 0 0)
                   Scenes.camera Scenes.nearAndFar (-1)) 1) eqn:H1;
      [|reflexivity].
    specialize (One 0%nat 1%nat H0 H1). discriminate One.
  - apply Far. intros [|[|j]] di E.
    + vm_compute in E. injection E as <-. discriminate.
    + vm_compute in E. injection E as <-. discriminate.
    + unfold distanceOf in E. cbn in E. destruct j; discriminate E.
Defined.

End PhotoGroupClaims.

(** ** From the gesture to the shape *)

Module AppFacts.

Import HandTracker StabilizerFacts App.

Lemma useFrame_exploded (r : ParticleSystem.Refs) (h : HandData) :
  ParticleSystem.isExplodedRef (ParticleSystem.useFrame r h)
  = ParticleSystem.shapeStep h (ParticleSystem.isExplodedRef r).
Proof.
  unfold ParticleSystem.useFrame. destruct (hasHand h); reflexivity.
Qed.

Section Ticks.
Context {M : MathLib}.

Lemma tick_tracker (sc : Scene) (w : World) (i : Tick) :
  tracker (tick sc w i) = fst (predict (tracker w) (observed i))
  /\ handDataRef (tick sc w i) = snd (predict (tracker w) (observed i))
  /\ exploded (tick sc w i)
     = ParticleSystem.shapeStep (snd (predict (tracker w) (observed i)))
                                (exploded w).
Proof.
  unfold tick, exploded. cbn [step].
  destruct (predict (tracker w) (observed i)) as [t e].
  cbn [tracker handDataRef refs fst snd].
  rewrite useFrame_exploded. auto.
Qed.

(** The children's callbacks of a tick read the flag and the rotation the
    tick before left. *)
Lemma tick_children (sc : Scene) (w : World) (i : Tick) :
  positions (tick sc w i)
  = childFrames (exploded w) (frameTime i) (subsystems sc) (positions w)
  /\ closestIndex (tick sc w i)
     = PhotoGroup.useFrame (exploded w) (frameTime i)
         (ParticleSystem.containerRotation (refs w)) (cameraPosition i)
         (photos sc) (closestIndex w).
Proof.
  unfold tick, exploded. cbn [step].
  destruct (predict (tracker w) (observed i)) as [t e].
  cbn [positions closestIndex refs]. split; reflexivity.
Qed.

(** A tick with a hand: the counters, the stable state and the shape. *)
Lemma tick_present (sc : Scene) (w : World) (i : Tick) (lm : Landmarks) :
  observed i = Some lm ->
  let p' := stabilize (persistenceRef (tracker w)) (classify lm) in
  persistenceRef (tracker (tick sc w i)) = p'
  /\ isClosed (lastValidHandDataRef (tracker (tick sc w i)))
     = StableState_eqb (lastState p') FIST
  /\ exploded (tick sc w i)
     = if StableState_eqb (lastState p') FIST then false
       else if StableState_eqb (lastState p') OPEN then true
       else exploded w.
Proof.
  intro Ob. cbv zeta. destruct (tick_tracker sc w i) as (Et & _ & Ee).
  rewrite Et, Ee, Ob. unfold predict. cbv zeta.
  cbn [fst snd persistenceRef lastValidHandDataRef].
  unfold ParticleSystem.shapeStep. cbn [hasHand isOpen isClosed].
  repeat split.
Qed.

(** A tick showing an open hand. *)
Lemma tick_open (sc : Scene) (w : World) (i : Tick) :
  showsOpen i ->
  let p := persistenceRef (tracker w) in
  let p' := persistenceRef (tracker (tick sc w i)) in
  fistFrames p' = 0%nat /\ pinchFrames p' = 0%nat
  /\ openFrames p' = S (openFrames p)
  /\ ((openFrames p < 3)%nat ->
      lastState p' = lastState p
      /\ (lastState p = NEUTRAL -> exploded (tick sc w i) = exploded w))
  /\ ((3 <= openFrames p)%nat ->
      lastState p' = OPEN /\ exploded (tick sc w i) = true).
Proof.
  unfold showsOpen. destruct (observed i) as [lm|] eqn:Ob; [|contradiction].
  intro O. cbv zeta.
  destruct (tick_present sc w i lm Ob) as (Ep & _ & Ee). cbv zeta in Ee.
  rewrite Ep in *.
  destruct (stabilize_rule (persistenceRef (tracker w)) (classify lm))
    as ((Cf & Cp & Co) & _ & _ & Ro & _ & Rk & _).
  pose proof (classify_flags lm) as F. cbv zeta in F.
  assert (Ff : frameIsFist (classify lm) = false)
    by (destruct F as [F|[F|[F|F]]]; inversion F; congruence).
  assert (Fp : frameIsPinch (classify lm) = false)
    by (destruct F as [F|[F|[F|F]]]; inversion F; congruence).
  rewrite Ff in Cf. rewrite Fp in Cp. rewrite O in Co.
  split; [exact Cf|]. split; [exact Cp|]. split; [exact Co|]. split.
  - intro L.
    assert (K : lastState (stabilize (persistenceRef (tracker w))
                             (classify lm))
                = lastState (persistenceRef (tracker w)))
      by (apply Rk; lia).
    split; [exact K|]. intro Nn. rewrite Ee, K, Nn. reflexivity.
  - intro L.
    assert (K : lastState (stabilize (persistenceRef (tracker w))
                             (classify lm)) = OPEN)
      by (apply Ro; lia).
    split; [exact K|]. rewrite Ee, K. reflexivity.
Qed.

(** A tick showing a fist. *)
Lemma tick_fist (sc : Scene) (w : World) (i : Tick) :
  showsFist i ->
  let p := persistenceRef (tracker w) in
  let p' := persistenceRef (tracker (tick sc w i)) in
  fistFrames p' = S (fistFrames p)
  /\ ((3 <= fistFrames p)%nat ->
      lastState p' = FIST /\ exploded (tick sc w i) = false).
Proof.
  unfold showsFist. destruct (observed i) as [lm|] eqn:Ob; [|contradiction].
  intro O. cbv zeta.
  destruct (tick_present sc w i lm Ob) as (Ep & _ & Ee). cbv zeta in Ee.
  rewrite Ep in *.
  destruct (stabilize_rule (persistenceRef (tracker w)) (classify lm))
    as ((Cf & Cp & Co) & _ & Rf & _).
  pose proof (classify_flags lm) as F. cbv zeta in F.
  assert (Fp : frameIsPinch (classify lm) = false)
    by (destruct F as [F|[F|[F|F]]]; inversion F; congruence).
  rewrite Fp in Cp. rewrite O in Cf.
  split; [exact Cf|]. intro L.
  assert (K : lastState (stabilize (persistenceRef (tracker w))
                           (classify lm)) = FIST)
    by (apply Rf; lia).
  split; [exact K|]. rewrite Ee, K. reflexivity.
Qed.

(** The tree stays exploded while the stable state has not been [FIST]. *)
Lemma tick_keeps_expanded (sc : Scene) (w : World) (i : Tick) :
  expandedNoFist w ->
  (fistFrames (persistenceRef (tracker (tick sc w i))) <= THRESHOLD)%nat ->
  expandedNoFist (tick sc w i).
Proof.
  intros (Is & Ic & Ie) L. unfold expandedNoFist, stable in *.
  destruct (observed i) as [lm|] eqn:Ob.
  - destruct (tick_present sc w i lm Ob) as (Ep & Ec & Ee).
    cbv zeta in Ec, Ee.
    rewrite Ep in *. rewrite Ec, Ee, Ie.
    destruct (stabilize_rule (persistenceRef (tracker w)) (classify lm))
      as (_ & _ & _ & _ & _ & _ & Rc).
    unfold THRESHOLD in L.
    destruct (lastState (stabilize (persistenceRef (tracker w))
                           (classify lm))) eqn:K;
      cbn [StableState_eqb]; repeat split; try discriminate.
    all: exfalso; assert (C : FIST <> lastState (persistenceRef (tracker w)))
           by congruence;
         pose proof (Nat.lt_le_trans _ _ _ (Rc C) L) as Bad; lia.
  - destruct (tick_tracker sc w i) as (Et & _ & Ee).
    rewrite Et, Ee, Ie, Ob.
    unfold predict. cbv zeta.
    destruct (S (missingHandFramesRef (tracker w)) <? GRACE_LIMIT)%nat;
      cbn [fst snd persistenceRef lastValidHandDataRef lastState].
    + unfold ParticleSystem.shapeStep. rewrite Ic.
      repeat split; try assumption.
      destruct (hasHand (lastValidHandDataRef (tracker w))),
        (isOpen (lastValidHandDataRef (tracker w))); reflexivity.
    + repeat split; try assumption. discriminate.
Qed.

Lemma ticks_keep_expanded (sc : Scene) (ts : list Tick) : forall w : World,
  expandedNoFist w -> fistBelowThreshold sc w ts ->
  expandedNoFist (ticks sc w ts).
Proof.
  induction ts as [|i ts IH]; intros w I B; cbn [ticks].
  - exact I.
  - destruct B as [B1 B2]. apply IH; [|exact B2].
    apply tick_keeps_expanded; assumption.
Qed.

(** *** The positions the subsystems hold *)

Lemma childFrames_nth (isExploded : bool) (time : Q)
  (datas : list (list ParticleData)) :
  forall (curs : list (list Q)) (k : nat) (d : list ParticleData)
         (c : list Q),
  nth_error datas k = Some d -> nth_error curs k = Some c ->
  nth_error (childFrames isExploded time datas curs) k
  = Some (SubSystem.useFrame isExploded time d c).
Proof.
  unfold childFrames.
  induction datas as [|d0 datas IH]; intros [|c0 curs] [|k] d c Ed Ec;
    cbn [nth_error combine map fst snd] in *; try discriminate.
  - injection Ed as ->. injection Ec as ->. reflexivity.
  - apply IH; assumption.
Qed.

Lemma useFrame_length (isExploded : bool) (time : Q)
  (d : list ParticleData) (c : list Q) :
  length c = (length d * 3)%nat ->
  length (SubSystem.useFrame isExploded time d c) = (length d * 3)%nat.
Proof.
  intro L. unfold SubSystem.useFrame.
  destruct (SubSystemFacts.loop_spec isExploded time d 0 c) as (Hl & _).
  { cbn [Nat.add]. lia. }
  rewrite Hl. exact L.
Qed.

Lemma childFrames_sized (isExploded : bool) (time : Q)
  (datas : list (list ParticleData)) (curs : list (list Q)) :
  sized datas curs -> sized datas (childFrames isExploded time datas curs).
Proof.
  unfold sized, childFrames.
  induction 1 as [|d c datas curs R F IH];
    cbn [combine map fst snd]; constructor.
  - apply useFrame_length. exact R.
  - exact IH.
Qed.

Lemma initial_sized (sc : Scene) :
  sized (subsystems sc) (positions (initialWorld sc)).
Proof.
  unfold sized. cbn [initialWorld positions].
  induction (subsystems sc) as [|d ds IH]; cbn [map]; constructor.
  - unfold SubSystem.initialPositions.
    induction d as [|p d Id]; cbn [flat_map length app]; [reflexivity|].
    cbn [Nat.mul Nat.add] in *. rewrite Id. lia.
  - exact IH.
Qed.

Lemma tick_sized (sc : Scene) (w : World) (i : Tick) :
  sized (subsystems sc) (positions w) ->
  sized (subsystems sc) (positions (tick sc w i)).
Proof.
  intro Z. destruct (tick_children sc w i) as [-> _].
  apply childFrames_sized. exact Z.
Qed.

Lemma ticks_sized (sc : Scene) (ts : list Tick) : forall w : World,
  sized (subsystems sc) (positions w) ->
  sized (subsystems sc) (positions (ticks sc w ts)).
Proof.
  induction ts as [|i ts IH]; intros w Z; cbn [ticks]; [exact Z|].
  apply IH. apply tick_sized. exact Z.
Qed.

Lemma sized_nth (datas : list (list ParticleData)) (curs : list (list Q)) :
  sized datas curs ->
  forall (k : nat) (d : list ParticleData),
  nth_error datas k = Some d ->
  exists c : list Q,
    nth_error curs k = Some c /\ length c = (length d * 3)%nat.
Proof.
  unfold sized.
  induction 1 as [|d0 c0 datas curs R F IH]; intros [|k] d E;
    cbn [nth_error] in *; try discriminate.
  - injection E as <-. exists c0. auto.
  - apply IH. exact E.
Qed.

(** What a tick does to the object [j] of the subsystem [k]: it moves
    toward the target the flag of the tick before selects. *)
Lemma tick_moves (sc : Scene) (w : World) (i : Tick) (k j : nat)
  (d : list ParticleData) (p : ParticleData) :
  sized (subsystems sc) (positions w) ->
  nth_error (subsystems sc) k = Some d ->
  nth_error d j = Some p ->
  exists c c' : list Q,
    nth_error (positions w) k = Some c
    /\ nth_error (positions (tick sc w i)) k = Some c'
    /\ movedToward (SubSystem.target (exploded w) (frameTime i) j p) j c c'.
Proof.
  intros Z Ed Ep.
  destruct (sized_nth _ _ Z k d Ed) as (c & Ec & Lc).
  destruct (tick_children sc w i) as [Pp _].
  exists c, (SubSystem.useFrame (exploded w) (frameTime i) d c).
  split; [exact Ec|]. split.
  - rewrite Pp. apply childFrames_nth; assumption.
  - unfold movedToward, SubSystem.useFrame.
    destruct (SubSystemFacts.loop_spec (exploded w) (frameTime i) d 0 c)
      as (_ & _ & Hv).
    { cbn [Nat.add]. lia. }
    specialize (Hv j p Ep). cbv zeta in Hv. cbn [Nat.add] in Hv.
    exact Hv.
Qed.

End Ticks.

End AppFacts.

Module AppClaims.

Import HandTracker StabilizerFacts App AppFacts.

(** C2, as the specification states it, fails: the change does not happen
    at tick 4.  With an open hand on ticks 0 to 3 the stable state is still
    [NEUTRAL] and the tree not exploded after tick 2, and after tick 3
    already the stable state is [OPEN] and the tree exploded; tick 4 changes
    neither. *)
Lemma open_at_tick_three :
  let open := Scenes.tickOf RefMath.openHand in
  let w2 := ticks (M := RefMath.refMath) Scenes.scene
              (initialWorld Scenes.scene) [open; open; open] in
  let w3 := tick (M := RefMath.refMath) Scenes.scene w2 open in
  let w4 := tick (M := RefMath.refMath) Scenes.scene w3 open in
  showsOpen (M := RefMath.refMath) open
  /\ (stable w2 = NEUTRAL /\ exploded w2 = false)
  /\ (stable w3 = OPEN /\ exploded w3 = true)
  /\ (stable w4 = stable w3 /\ exploded w4 = exploded w3).
Proof.
  vm_compute. repeat split.
Qed.

(** C2, amended.  From the initial state, with an open hand on ticks 0 to
    3: the stable state is [NEUTRAL] and the tree not exploded after ticks
    0, 1 and 2; the stable state becomes [OPEN] and the tree exploded at
    tick 3, and both stay so on a further tick with an open hand.  The
    frame of tick 3 itself still moves every object toward its tree
    target, the subsystems having read the flag before it changed.  From
    tick 4 onward, as long as the ticks before left the fist counter at 3
    or less, the tree stays exploded and the frame of each tick moves
    every object of every subsystem toward its sphere position and places
    the photos at their sphere positions.  Four ticks in a row showing a
    fist, from any state, make the stable state [FIST] and end the
    explosion, and the frame of the tick after them uses the tree targets
    again. *)
Theorem open_expands_until_fist `{MathLib} (sc : Scene)
  (i0 i1 i2 i3 : Tick) :
  showsOpen i0 -> showsOpen i1 -> showsOpen i2 -> showsOpen i3 ->
  let w0 := tick sc (initialWorld sc) i0 in
  let w1 := tick sc w0 i1 in
  let w2 := tick sc w1 i2 in
  let w3 := tick sc w2 i3 in
  (stable w0 = NEUTRAL /\ exploded w0 = false)
  /\ (stable w1 = NEUTRAL /\ exploded w1 = false)
  /\ (stable w2 = NEUTRAL /\ exploded w2 = false)
  /\ (stable w3 = OPEN /\ exploded w3 = true)
  /\ (forall i4 : Tick,
        showsOpen i4 ->
        stable (tick sc w3 i4) = OPEN /\ exploded (tick sc w3 i4) = true)
  /\ (positions w3
      = childFrames false (frameTime i3) (subsystems sc) (positions w2)
      /\ closestIndex w3
         = PhotoGroup.useFrame false (frameTime i3)
             (ParticleSystem.containerRotation (refs w2))
             (cameraPosition i3) (photos sc) (closestIndex w2))
  /\ (forall (ts : list Tick) (i : Tick),
        fistBelowThreshold sc w3 ts ->
        let w := ticks sc w3 ts in
        exploded w = true
        /\ positions (tick sc w i)
           = childFrames true (frameTime i) (subsystems sc) (positions w)
        /\ (forall (k j : nat) (d : list ParticleData) (p : ParticleData),
              nth_error (subsystems sc) k = Some d ->
              nth_error d j = Some p ->
              SubSystem.target true (frameTime i) j p = spherePos p
              /\ exists c c' : list Q,
                   nth_error (positions w) k = Some c
                   /\ nth_error (positions (tick sc w i)) k = Some c'
                   /\ movedToward (spherePos p) j c c')
        /\ closestIndex (tick sc w i)
           = PhotoGroup.useFrame true (frameTime i)
               (ParticleSystem.containerRotation (refs w))
               (cameraPosition i) (photos sc) (closestIndex w)
        /\ (forall (rot : Euler) (j : nat) (p : ParticleData),
              PhotoGroup.worldPos true (frameTime i) rot j p
              = applyQuaternion (spherePos p) (setFromEuler rot)))
  /\ (forall (w : World) (fa fb fc fd i : Tick),
        showsFist fa -> showsFist fb -> showsFist fc -> showsFist fd ->
        let w' := ticks sc w [fa; fb; fc; fd] in
        stable w' = FIST /\ exploded w' = false
        /\ positions (tick sc w' i)
           = childFrames false (frameTime i) (subsystems sc) (positions w')
        /\ closestIndex (tick sc w' i)
           = PhotoGroup.useFrame false (frameTime i)
               (ParticleSystem.containerRotation (refs w'))
               (cameraPosition i) (photos sc) (closestIndex w')).
Proof.
  intros O0 O1 O2 O3. cbv zeta.
  set (w0 := tick sc (initialWorld sc) i0).
  set (w1 := tick sc w0 i1).
  set (w2 := tick sc w1 i2).
  set (w3 := tick sc w2 i3).
  destruct (tick_open sc (initialWorld sc) i0 O0) as (_ & _ & C0 & K0 & _).
  destruct (tick_open sc w0 i1 O1) as (_ & _ & C1 & K1 & _).
  destruct (tick_open sc w1 i2 O2) as (_ & _ & C2 & K2 & _).
  destruct (tick_open sc w2 i3 O3) as (_ & _ & C3 & _ & K3).
  fold w0 in C0, K0, C1, K1. fold w1 in C1, K1, C2, K2.
  fold w2 in C2, K2, C3, K3. fold w3 in C3, K3.
  cbn [initialWorld tracker initialTracker persistenceRef openFrames
       lastState] in C0, K0.
  destruct (K0 ltac:(lia)) as [S0 E0]. specialize (E0 eq_refl).
  rewrite C0 in K1. destruct (K1 ltac:(lia)) as [S1 E1].
  rewrite S0 in S1. specialize (E1 S0).
  rewrite C1, C0 in K2. destruct (K2 ltac:(lia)) as [S2 E2].
  rewrite S1 in S2. specialize (E2 S1).
  rewrite C2, C1, C0 in K3. destruct (K3 ltac:(lia)) as [S3 E3].
  change (exploded (initialWorld sc)) with false in E0.
  rewrite E0 in E1. rewrite E1 in E2.
  assert (Z3 : sized (subsystems sc) (positions w3)).
  { unfold w3, w2, w1, w0. do 4 apply tick_sized. apply initial_sized. }
  unfold stable.
  split; [auto|]. split; [auto|]. split; [auto|]. split; [auto|].
  split; [|split; [|split]].
  - intros i4 O4.
    destruct (tick_open sc w3 i4 O4) as (_ & _ & _ & _ & K4).
    apply K4. rewrite C3, C2, C1, C0. lia.
  - destruct (tick_children sc w2 i3) as [Pp Pc]. fold w3 in Pp, Pc.
    rewrite E2 in Pp, Pc. split; assumption.
  - intros ts i B.
    assert (I3 : expandedNoFist w3).
    { unfold expandedNoFist, stable. rewrite S3. split; [discriminate|].
      split; [|exact E3].
      unfold showsOpen in O3.
      destruct (observed i3) as [lm3|] eqn:Ob; [|contradiction].
      destruct (tick_present sc w2 i3 lm3 Ob) as (Ep & Ec & _).
      cbv zeta in Ec.
      fold w3 in Ep, Ec. rewrite Ec, <- Ep, S3. reflexivity. }
    destruct (ticks_keep_expanded sc ts w3 I3 B) as (_ & _ & Ie).
    pose proof (ticks_sized sc ts w3 Z3) as Zs.
    destruct (tick_children sc (ticks sc w3 ts) i) as [Pp Pc].
    rewrite Ie in Pp, Pc.
    split; [exact Ie|]. split; [exact Pp|]. split; [|split].
    + intros k j d p Ed Ep. split; [reflexivity|].
      destruct (tick_moves sc (ticks sc w3 ts) i k j d p Zs Ed Ep)
        as (c & c' & Ec & Ec' & Mv).
      rewrite Ie in Mv. exists c, c'. auto.
    + exact Pc.
    + reflexivity.
  - intros w fa fb fc fd i Fa Fb Fc Fd. cbn [ticks].
    set (wa := tick sc w fa).
    set (wb := tick sc wa fb).
    set (wc := tick sc wb fc).
    destruct (tick_fist sc w fa Fa) as (Ca & _).
    destruct (tick_fist sc wa fb Fb) as (Cb & _).
    destruct (tick_fist sc wb fc Fc) as (Cc & _).
    destruct (tick_fist sc wc fd Fd) as (_ & Kd).
    fold wa in Ca, Cb. fold wb in Cb, Cc. fold wc in Cc.
    destruct Kd as [Sd Xd]; [rewrite Cc, Cb, Ca; lia|].
    destruct (tick_children sc (tick sc wc fd) i) as [Pp Pc].
    rewrite Xd in Pp, Pc. auto.
Qed.

Lemma open_expands_until_fist_witness :
  let open := Scenes.tickOf RefMath.openHand in
  let w3 := ticks (M := RefMath.refMath) Scenes.scene
              (initialWorld Scenes.scene) [open; open; open; open] in
  let later := [Scenes.tickOf RefMath.pinchHand; Scenes.emptyTick;
                Scenes.tickOf RefMath.fistHand;
                Scenes.tickOf RefMath.relaxedHand] in
  showsOpen (M := RefMath.refMath) open
  /\ stable w3 = OPEN /\ exploded w3 = true
  /\ fistBelowThreshold (M := RefMath.refMath) Scenes.scene w3 later
  /\ exploded (ticks (M := RefMath.refMath) Scenes.scene w3 later) = true.
Proof.
  cbv zeta.
  assert (O : showsOpen (M := RefMath.refMath)
                (Scenes.tickOf RefMath.openHand))
    by (vm_compute; reflexivity).
  destruct (open_expands_until_fist (H := RefMath.refMath) Scenes.scene
              _ _ _ _ O O O O)
    as (_ & _ & _ & (S3 & E3) & _ & _ & After & _).
  cbv zeta in S3, E3, After.
  assert (B : fistBelowThreshold (M := RefMath.refMath) Scenes.scene
                (ticks (M := RefMath.refMath) Scenes.scene
                   (initialWorld Scenes.scene)
                   (repeat (Scenes.tickOf RefMath.openHand) 4))
                [Scenes.tickOf RefMath.pinchHand; Scenes.emptyTick;
                 Scenes.tickOf RefMath.fistHand;
                 Scenes.tickOf RefMath.relaxedHand])
    by (vm_compute; repeat split; apply Nat.leb_le; reflexivity).
  split; [exact O|]. split; [exact S3|]. split; [exact E3|].
  split; [exact B|].
  exact (proj1 (After _ Scenes.emptyTick B)).
Defined.

End AppClaims.

(** ** Further properties of the tracker *)

Module TrackerExtras.

Import HandTracker StabilizerFacts PredictLoop.

Lemma run_cons `{MathLib} (t : Tracker) (r : option Landmarks)
  (rs : list (option Landmarks)) :
  run t (r :: rs)
  = (fst (run (fst (predict t r)) rs),
     snd (predict t r) :: snd (run (fst (predict t r)) rs)).
Proof.
  cbn [run]. destruct (predict t r) as [t1 e]. cbn [fst snd].
  destruct (run t1 rs) as [t2 es]. reflexivity.
Qed.

Lemma newData_oneGesture (g : StableState) (pinch : Q) (pos : Vector3) :
  oneGesture
    {| hasHand := true;
       isOpen := StableState_eqb g OPEN;
       isClosed := StableState_eqb g FIST;
       isPinching := StableState_eqb g PINCH;
       pinchDistance := pinch;
       palmPosition := pos |}.
Proof.
  unfold oneGesture. cbn [hasHand isOpen isClosed isPinching].
  destruct g; cbn; repeat split; intros; congruence.
Qed.

Lemma resetData_oneGesture : oneGesture resetData.
Proof. unfold oneGesture. cbn. repeat split; intros; congruence. Qed.

(** What a frame emits, and the last valid data it leaves, by cases. *)
Lemma predict_emits `{MathLib} (t : Tracker) (r : option Landmarks) :
  (exists (g : StableState) (pinch : Q) (pos : Vector3),
     r <> None
     /\ snd (predict t r)
        = {| hasHand := true;
             isOpen := StableState_eqb g OPEN;
             isClosed := StableState_eqb g FIST;
             isPinching := StableState_eqb g PINCH;
             pinchDistance := pinch;
             palmPosition := pos |}
     /\ lastValidHandDataRef (fst (predict t r)) = snd (predict t r))
  \/ (r = None
      /\ lastValidHandDataRef (fst (predict t r)) = lastValidHandDataRef t
      /\ (snd (predict t r) = lastValidHandDataRef t
          \/ snd (predict t r) = resetData)).
Proof.
  destruct r as [lm|].
  - left. unfold predict. cbv zeta. cbn [fst snd lastValidHandDataRef].
    eexists _, _, _. split; [discriminate|]. split; reflexivity.
  - right. split; [reflexivity|]. unfold predict. cbv zeta.
    destruct (S (missingHandFramesRef t) <? GRACE_LIMIT)%nat;
      cbn [fst snd lastValidHandDataRef]; auto.
Qed.

Lemma run_oneGesture `{MathLib} (rs : list (option Landmarks)) :
  forall t : Tracker,
  oneGesture (lastValidHandDataRef t) ->
  Forall oneGesture (snd (run t rs)).
Proof.
  induction rs as [|r rs IH]; intros t I.
  - constructor.
  - rewrite run_cons. cbn [snd].
    destruct (predict_emits t r)
      as [(g & pinch & pos & _ & E & L)|(_ & L & [E|E])].
    + constructor.
      * rewrite E. apply newData_oneGesture.
      * apply IH. rewrite L, E. apply newData_oneGesture.
    + constructor; [rewrite E; exact I|]. apply IH. rewrite L. exact I.
    + constructor; [rewrite E; apply resetData_oneGesture|].
      apply IH. rewrite L. exact I.
Qed.

(** X1.  Whatever the frames, every [HandData] the tracker emits has at
    most one of [isOpen], [isClosed], [isPinching] set, and none of them
    when [hasHand] is false; the data emitted again during a dropout
    included. *)
Theorem emitted_one_gesture `{MathLib} (rs : list (option Landmarks)) :
  Forall oneGesture (snd (run initialTracker rs)).
Proof.
  apply run_oneGesture. apply resetData_oneGesture.
Qed.

Lemma stabilize_oneCounter (p : Persistence) (f : Frame) :
  (frameIsFist f, frameIsPinch f, frameIsOpen f) = (true, false, false)
  \/ (frameIsFist f, frameIsPinch f, frameIsOpen f) = (false, true, false)
  \/ (frameIsFist f, frameIsPinch f, frameIsOpen f) = (false, false, true)
  \/ (frameIsFist f, frameIsPinch f, frameIsOpen f) = (false, false, false) ->
  oneCounter (stabilize p f).
Proof.
  intro F. unfold oneCounter, stabilize, updateCounters. cbv zeta.
  cbn [fistFrames pinchFrames openFrames].
  destruct F as [F|[F|[F|F]]]; injection F as Ff Fp Fo;
    rewrite Ff, Fp, Fo; cbv iota;
    [right; right | right; left | left | left]; split; reflexivity.
Qed.

Lemma run_oneCounter `{MathLib} (rs : list (option Landmarks)) :
  forall t : Tracker,
  oneCounter (persistenceRef t) ->
  oneCounter (persistenceRef (fst (run t rs))).
Proof.
  induction rs as [|r rs IH]; intros t I.
  - exact I.
  - rewrite run_cons. cbn [fst]. apply IH. destruct r as [lm|].
    + unfold predict. cbv zeta. cbn [fst persistenceRef].
      apply stabilize_oneCounter. apply classify_flags.
    + destruct (predict_absent_keeps t) as (Kf & Kp & Ko & _).
      unfold oneCounter in *. rewrite Kf, Kp, Ko. exact I.
Qed.

(** X2.  After any sequence of frames at most one of the three persistence
    counters is not 0: a frame with a hand zeroes the counters of the
    gestures it does not show, and a frame without one changes none. *)
Theorem counters_exclusive `{MathLib} (rs : list (option Landmarks)) :
  oneCounter (persistenceRef (fst (run initialTracker rs))).
Proof.
  apply run_oneCounter. left. split; reflexivity.
Qed.

(** X3.  A frame with a hand that shows no gesture makes the stable state
    [NEUTRAL] at once, whatever it was and however long it had lasted, and
    zeroes the three counters. *)
Theorem release_is_immediate `{MathLib} (t : Tracker) (lm : Landmarks) :
  frameIsFist (classify lm) = false ->
  frameIsPinch (classify lm) = false ->
  frameIsOpen (classify lm) = false ->
  let p' := persistenceRef (fst (predict t (Some lm))) in
  lastState p' = NEUTRAL
  /\ fistFrames p' = 0%nat /\ pinchFrames p' = 0%nat
  /\ openFrames p' = 0%nat
  /\ isOpen (snd (predict t (Some lm))) = false
  /\ isClosed (snd (predict t (Some lm))) = false
  /\ isPinching (snd (predict t (Some lm))) = false.
Proof.
  intros Ff Fp Fo. cbv zeta. unfold predict. cbv zeta.
  cbn [fst snd persistenceRef isOpen isClosed isPinching].
  destruct (stabilize_rule (persistenceRef t) (classify lm))
    as ((Cf & Cp & Co) & _ & _ & _ & Rn & _).
  rewrite Ff in Cf. rewrite Fp in Cp. rewrite Fo in Co.
  rewrite (Rn Cp Cf Co). cbn [StableState_eqb]. auto 10.
Qed.

Lemma release_is_immediate_witness :
  let t := fst (run (M := RefMath.refMath) initialTracker
                  (repeat (Some RefMath.openHand) 6)) in
  lastState (persistenceRef t) = OPEN
  /\ openFrames (persistenceRef t) = 6%nat
  /\ lastState (persistenceRef
                  (fst (predict (M := RefMath.refMath) t
                          (Some RefMath.relaxedHand)))) = NEUTRAL.
Proof.
  cbv zeta. split; [vm_compute; reflexivity|].
  split; [vm_compute; reflexivity|].
  refine (proj1 (release_is_immediate (H := RefMath.refMath) _
                   RefMath.relaxedHand _ _ _)); vm_compute; reflexivity.
Defined.

(** X4.  A frame that shows a gesture whose counter is still below 3 keeps
    the stable state: another gesture replaces the stable one only at its
    fourth frame in a row. *)
Theorem other_gesture_is_delayed `{MathLib} (t : Tracker) (lm : Landmarks)
  (g : StableState) :
  shows g lm ->
  (counterOf g (persistenceRef t) < 3)%nat ->
  lastState (persistenceRef (fst (predict t (Some lm))))
  = lastState (persistenceRef t)
  /\ counterOf g (persistenceRef (fst (predict t (Some lm))))
     = S (counterOf g (persistenceRef t)).
Proof.
  intros Sh L. unfold predict. cbv zeta. cbn [fst persistenceRef].
  destruct (stabilize_rule (persistenceRef t) (classify lm))
    as ((Cf & Cp & Co) & _ & _ & _ & _ & Rk & _).
  pose proof (classify_flags lm) as F. cbv zeta in F.
  destruct g; cbn [shows counterOf] in *; try contradiction;
    destruct F as [F|[F|[F|F]]]; injection F as Ff Fp Fo;
    try congruence; rewrite Ff, Fp, Fo in *;
    (split; [apply Rk; lia | assumption]).
Qed.

Lemma other_gesture_is_delayed_witness :
  let t := fst (run (M := RefMath.refMath) initialTracker
                  (repeat (Some RefMath.openHand) 6)) in
  lastState (persistenceRef t) = OPEN
  /\ lastState (persistenceRef
                  (fst (predict (M := RefMath.refMath) t
                          (Some RefMath.fistHand)))) = OPEN.
Proof.
  cbv zeta. split; [vm_compute; reflexivity|].
  refine (eq_trans
            (proj1 (other_gesture_is_delayed (H := RefMath.refMath) _
                      RefMath.fistHand FIST _ _)) _);
    [vm_compute; reflexivity | vm_compute; apply Nat.leb_le; reflexivity
    | vm_compute; reflexivity].
Defined.

(** A frame showing [g] counts for it, and makes it the stable state once
    it has been shown three times before. *)
Lemma shows_step `{MathLib} (t : Tracker) (lm : Landmarks) (g : StableState) :
  shows g lm ->
  let p := persistenceRef t in
  let p' := persistenceRef (fst (predict t (Some lm))) in
  counterOf g p' = S (counterOf g p)
  /\ ((3 <= counterOf g p)%nat -> lastState p' = g).
Proof.
  intros Sh. cbv zeta. unfold predict. cbv zeta. cbn [fst persistenceRef].
  destruct (stabilize_rule (persistenceRef t) (classify lm))
    as ((Cf & Cp & Co) & Rp & Rf & Ro & _).
  pose proof (classify_flags lm) as F. cbv zeta in F.
  destruct g; cbn [shows counterOf] in *; try contradiction;
    destruct F as [F|[F|[F|F]]]; injection F as Ff Fp Fo;
    try congruence; rewrite Ff, Fp, Fo in *;
    (split; [assumption|]); intro L;
    [apply Rf | apply Ro | apply Rp]; lia.
Qed.

Lemma shows_hold `{MathLib} (g : StableState) (more : list Landmarks) :
  forall (t : Tracker) (lm : Landmarks),
  (3 <= counterOf g (persistenceRef t))%nat ->
  shows g lm -> Forall (shows g) more ->
  lastState (persistenceRef (fst (run t (map Some (lm :: more))))) = g.
Proof.
  induction more as [|lm' more IH]; intros t lm L Sh Sm.
  - cbn [map]. rewrite run_cons. cbn [run fst].
    apply (shows_step t lm g Sh). exact L.
  - change (map Some (lm :: lm' :: more))
      with (Some lm :: map Some (lm' :: more)).
    rewrite run_cons. cbn [fst].
    inversion Sm as [|? ? Sh' Sm']; subst.
    apply IH; [|exact Sh'|exact Sm'].
    destruct (shows_step t lm g Sh) as [C _]. cbv zeta in C.
    rewrite C. lia.
Qed.

(** X5.  From any state of the tracker, four frames in a row showing the
    same gesture make it the stable state, and it stays the stable state
    for as long as further frames show it. *)
Theorem four_frames_acquire `{MathLib} (t : Tracker) (g : StableState)
  (a b c d : Landmarks) (more : list Landmarks) :
  shows g a -> shows g b -> shows g c -> shows g d ->
  Forall (shows g) more ->
  lastState
    (persistenceRef (fst (run t (map Some (a :: b :: c :: d :: more)))))
  = g.
Proof.
  intros Sa Sb Sc Sd Sm.
  change (map Some (a :: b :: c :: d :: more))
    with (Some a :: Some b :: Some c :: map Some (d :: more)).
  rewrite !run_cons. cbn [fst].
  set (ta := fst (predict t (Some a))).
  set (tb := fst (predict ta (Some b))).
  set (tc := fst (predict tb (Some c))).
  destruct (shows_step t a g Sa) as [Ca _].
  destruct (shows_step ta b g Sb) as [Cb _].
  destruct (shows_step tb c g Sc) as [Cc _].
  cbv zeta in Ca, Cb, Cc. fold ta in Ca, Cb. fold tb in Cb, Cc.
  fold tc in Cc.
  apply shows_hold; [|exact Sd|exact Sm].
  rewrite Cc, Cb, Ca. lia.
Qed.

Lemma four_frames_acquire_witness :
  lastState
    (persistenceRef
       (fst (run (M := RefMath.refMath) initialTracker
               (map Some [RefMath.pinchHand; RefMath.pinchHand;
                          RefMath.pinchHand; RefMath.pinchHand;
                          RefMath.pinchHand])))) = PINCH.
Proof.
  apply (four_frames_acquire (H := RefMath.refMath) initialTracker PINCH);
    try (vm_compute; reflexivity).
  repeat constructor.
Defined.

Lemma smooth_step (s : Smoothed) (f : Frame) :
  sx (smooth s f) - rawX f == (7 # 10) * (sx s - rawX f)
  /\ sy (smooth s f) - rawY f == (7 # 10) * (sy s - rawY f)
  /\ spinch (smooth s f) - targetPinch f
     == (7 # 10) * (spinch s - targetPinch f).
Proof.
  unfold smooth, alpha. cbn [sx sy spinch]. repeat split; ring.
Qed.

(** X6.  While the same hand is held, the smoothed pointer and pinch
    approach its raw values geometrically: after [n] frames each is off by
    [0.7 ^ n] times what it was off at the start. *)
Theorem smoothing_converges `{MathLib} (lm : Landmarks) (n : nat) :
  forall t : Tracker,
  let f := classify lm in
  let s := smoothedRef t in
  let s' := smoothedRef (fst (run t (repeat (Some lm) n))) in
  sx s' - rawX f == ParticleSystem.powQ (7 # 10) n * (sx s - rawX f)
  /\ sy s' - rawY f == ParticleSystem.powQ (7 # 10) n * (sy s - rawY f)
  /\ spinch s' - targetPinch f
     == ParticleSystem.powQ (7 # 10) n * (spinch s - targetPinch f).
Proof.
  induction n as [|n IH]; intro t; cbv zeta.
  - cbn. repeat split; ring.
  - cbn [repeat]. rewrite run_cons. cbn [fst].
    specialize (IH (fst (predict t (Some lm)))). cbv zeta in IH.
    destruct IH as (Ix & Iy & Ip). rewrite Ix, Iy, Ip.
    change (smoothedRef (fst (predict t (Some lm))))
      with (smooth (smoothedRef t) (classify lm)).
    destruct (smooth_step (smoothedRef t) (classify lm)) as (Sx & Sy & Sp).
    rewrite Sx, Sy, Sp. cbn [ParticleSystem.powQ]. repeat split; ring.
Qed.

Lemma clamp_range (n : Q) : 0 <= Qmin2 (Qmax2 n 0) 1 <= 1.
Proof.
  unfold Qmin2, Qmax2.
  destruct (Qltb n 0) eqn:A; [apply Qltb_lt in A | apply Qltb_ge in A].
  - destruct (Qltb 1 0) eqn:B; [apply Qltb_lt in B | apply Qltb_ge in B];
      lra.
  - destruct (Qltb 1 n) eqn:B; [apply Qltb_lt in B | apply Qltb_ge in B];
      lra.
Qed.

Lemma targetPinch_range `{MathLib} (lm : Landmarks) :
  0 <= targetPinch (classify lm) <= 1.
Proof.
  destruct (Qltb 0 (d lm 0 9)) eqn:P.
  - apply Qltb_lt in P. rewrite (classify_targetPinch lm P).
    apply clamp_range.
  - unfold classify. cbv zeta. rewrite P. cbn [targetPinch]. lra.
Qed.

Lemma rawXY `{MathLib} (lm : Landmarks) :
  rawX (classify lm) = ((1 # 2) - vx (lm 0%nat)) * 6
  /\ rawY (classify lm) = ((1 # 2) - vy (lm 0%nat)) * 6.
Proof.
  unfold classify. cbv zeta.
  repeat match goal with
         | |- context [if ?c then mkFrame _ _ _ _ _ _ else _] => destruct c
         end; split; reflexivity.
Qed.

Lemma run_pinch_range `{MathLib} (rs : list (option Landmarks)) :
  forall t : Tracker,
  0 <= spinch (smoothedRef t) <= 1 ->
  0 <= pinchDistance (lastValidHandDataRef t) <= 1 ->
  Forall (fun e => 0 <= pinchDistance e <= 1) (snd (run t rs)).
Proof.
  induction rs as [|r rs IH]; intros t Is Il.
  - constructor.
  - rewrite run_cons. cbn [snd]. destruct r as [lm|].
    + pose proof (targetPinch_range lm) as T.
      assert (N : 0 <= spinch (smooth (smoothedRef t) (classify lm)) <= 1).
      { unfold smooth, alpha. cbn [spinch]. lra. }
      constructor; [exact N|]. apply IH; exact N.
    + destruct (predict_absent_keeps t) as (_ & _ & _ & Ks & Kl & _).
      constructor.
      * destruct (predict_emits t None)
          as [(g & pinch & pos & E & _)|(_ & _ & [E|E])];
          [congruence | rewrite E; exact Il | rewrite E; cbn; lra].
      * apply IH; [rewrite Ks; exact Is | rewrite Kl; exact Il].
Qed.

(** X7.  Every pinch distance the tracker emits lies between 0 and 1. *)
Theorem pinch_distance_in_range `{MathLib} (rs : list (option Landmarks)) :
  Forall (fun e => 0 <= pinchDistance e <= 1) (snd (run initialTracker rs)).
Proof.
  apply run_pinch_range; cbn; lra.
Qed.

Lemma run_pointer_range `{MathLib} (rs : list (option Landmarks)) :
  forall t : Tracker,
  Forall wristInImage rs ->
  - (3) <= sx (smoothedRef t) <= 3 -> - (3) <= sy (smoothedRef t) <= 3 ->
  pointerInRange (lastValidHandDataRef t) ->
  Forall pointerInRange (snd (run t rs)).
Proof.
  induction rs as [|r rs IH]; intros t W Ix Iy Il.
  - constructor.
  - inversion W as [|? ? Wr W']; subst.
    rewrite run_cons. cbn [snd]. destruct r as [lm|].
    + destruct (rawXY lm) as [Rx Ry]. destruct Wr as [Wx Wy].
      assert (Nx : - (3) <= sx (smooth (smoothedRef t) (classify lm)) <= 3).
      { unfold smooth, alpha. cbn [sx]. rewrite Rx. lra. }
      assert (Ny : - (3) <= sy (smooth (smoothedRef t) (classify lm)) <= 3).
      { unfold smooth, alpha. cbn [sy]. rewrite Ry. lra. }
      assert (P : pointerInRange (snd (predict t (Some lm)))).
      { unfold pointerInRange, predict. cbv zeta.
        cbn [snd palmPosition vx vy vz]. auto. }
      constructor; [exact P|]. apply IH; try assumption.
    + destruct (predict_absent_keeps t) as (_ & _ & _ & Ks & Kl & _).
      constructor.
      * destruct (predict_emits t None)
          as [(g & pinch & pos & E & _)|(_ & _ & [E|E])];
          [congruence | rewrite E; exact Il |].
        rewrite E. unfold pointerInRange. cbn. repeat split; lra.
      * apply IH; [exact W' | rewrite Ks; exact Ix | rewrite Ks; exact Iy
                  | rewrite Kl; exact Il].
Qed.

(** X8.  If the wrist of every detected hand lies in the image (its [x] and
    [y] between 0 and 1), every pointer the tracker emits lies in the
    square from -3 to 3, with [z] equal to 0. *)
Theorem pointer_in_range `{MathLib} (rs : list (option Landmarks)) :
  Forall wristInImage rs ->
  Forall pointerInRange (snd (run initialTracker rs)).
Proof.
  intro W. apply run_pointer_range; try exact W; cbn; try lra.
  unfold pointerInRange. cbn. repeat split; lra.
Qed.

Lemma pointer_in_range_witness :
  Forall wristInImage [Some RefMath.openHand; None; Some RefMath.fistHand]
  /\ Forall pointerInRange
       (snd (run (M := RefMath.refMath) initialTracker
               [Some RefMath.openHand; None; Some RefMath.fistHand])).
Proof.
  assert (W : Forall wristInImage
                [Some RefMath.openHand; None; Some RefMath.fistHand]).
  { repeat constructor; cbn; lra. }
  split; [exact W|].
  exact (pointer_in_range (H := RefMath.refMath) _ W).
Defined.

End TrackerExtras.

(** ** The rate limit of [predict] *)

Module PredictLoopExtras.

Import HandTracker PredictLoop.

(** A call that reaches the detection was not throttled, and restarts the
    interval. *)
Lemma predictCall_emits `{MathLib} (l : Loop) (c : Call) :
  snd (predictCall l c) <> None ->
  MIN_INTERVAL <= now c - lastProcessTime l
  /\ lastProcessTime (fst (predictCall l c)) = now c
  /\ lastVideoTime (fst (predictCall l c)) = currentTime c
  /\ ready c = true
  /\ ~ currentTime c == lastVideoTime l.
Proof.
  unfold predictCall.
  destruct (Qltb (now c - lastProcessTime l) MIN_INTERVAL) eqn:T;
    [cbn; congruence|].
  apply Qltb_ge in T.
  destruct (ready c); [|cbn; congruence].
  destruct (Qeq_bool (currentTime c) (lastVideoTime l)) eqn:V;
    cbn [negb]; [cbn; congruence|].
  destruct (predict (trackerRefs l) (results c)) as [t e].
  cbn [fst snd lastProcessTime lastVideoTime]. intros _.
  repeat split; try assumption.
  intro E. apply Qeq_bool_iff in E. congruence.
Qed.

(** A call that does not reach the detection leaves the tracker and the
    time of the last video frame as they are. *)
Lemma predictCall_idle `{MathLib} (l : Loop) (c : Call) :
  snd (predictCall l c) = None ->
  trackerRefs (fst (predictCall l c)) = trackerRefs l
  /\ lastVideoTime (fst (predictCall l c)) = lastVideoTime l.
Proof.
  unfold predictCall.
  destruct (Qltb (now c - lastProcessTime l) MIN_INTERVAL);
    [cbn; auto|].
  destruct (ready c); [|cbn; auto].
  destruct (Qeq_bool (currentTime c) (lastVideoTime l));
    cbn [negb]; [cbn; auto|].
  destruct (predict (trackerRefs l) (results c)) as [t e].
  cbn. discriminate.
Qed.

(** The interval restarts at the time of some call or not at all. *)
Lemma predictCall_time `{MathLib} (l : Loop) (c : Call) :
  lastProcessTime (fst (predictCall l c)) = lastProcessTime l
  \/ lastProcessTime (fst (predictCall l c)) = now c.
Proof.
  unfold predictCall.
  destruct (Qltb (now c - lastProcessTime l) MIN_INTERVAL); [left; auto|].
  destruct (ready c); [|right; reflexivity].
  destruct (negb (Qeq_bool (currentTime c) (lastVideoTime l)));
    [|right; reflexivity].
  destruct (predict (trackerRefs l) (results c)) as [t e].
  right. reflexivity.
Qed.

Lemma predictCalls_time `{MathLib} (lo : Q) (cs : list Call) :
  forall l : Loop,
  lo <= lastProcessTime l ->
  Forall (fun c => lo <= now c) cs ->
  lo <= lastProcessTime (predictCalls l cs).
Proof.
  induction cs as [|c cs IH]; intros l L A; cbn [predictCalls].
  - exact L.
  - inversion A as [|? ? Ac A']; subst. apply IH; [|exact A'].
    destruct (predictCall_time l c) as [E|E]; rewrite E; assumption.
Qed.

(** X9.  On a clock that does not run backwards, two calls of [predict]
    that both reach the detection are at least 30 ms apart, whatever calls
    happen between them. *)
Theorem detections_spaced `{MathLib} (l : Loop) (c1 : Call)
  (cs : list Call) (c2 : Call) :
  snd (predictCall l c1) <> None ->
  Forall (fun c => now c1 <= now c) cs ->
  snd (predictCall (predictCalls (fst (predictCall l c1)) cs) c2) <> None ->
  30 <= now c2 - now c1.
Proof.
  intros E1 A E2.
  destruct (predictCall_emits l c1 E1) as (_ & T1 & _).
  destruct (predictCall_emits _ c2 E2) as (G & _).
  pose proof (predictCalls_time (now c1) cs (fst (predictCall l c1))) as I.
  rewrite T1 in I. specialize (I (Qle_refl _) A).
  unfold MIN_INTERVAL in G. lra.
Qed.

(** X10.  A video frame is processed once.  After a call that reaches the
    detection, of the calls that follow and find the same video time none
    reaches it, whatever the clock and the readiness say: each of them
    passes nothing to [onHandUpdate], and together they leave the tracker
    and the time of the last video frame untouched; the same holds of any
    of them made again after all.  The first call after them that is not
    throttled and finds the video ready at another time reaches the
    detection again. *)
Theorem frame_processed_once `{MathLib} (l : Loop) (c : Call)
  (cs : list Call) :
  snd (predictCall l c) <> None ->
  Forall (fun c' => currentTime c' == currentTime c) cs ->
  let l1 := fst (predictCall l c) in
  emitted l1 cs = repeat None (length cs)
  /\ trackerRefs (predictCalls l1 cs) = trackerRefs l1
  /\ lastVideoTime (predictCalls l1 cs) = currentTime c
  /\ Forall (fun c' => snd (predictCall (predictCalls l1 cs) c') = None) cs
  /\ (forall c2 : Call,
        ready c2 = true ->
        MIN_INTERVAL <= now c2 - lastProcessTime (predictCalls l1 cs) ->
        ~ currentTime c2 == currentTime c ->
        snd (predictCall (predictCalls l1 cs) c2)
        = Some (snd (predict (trackerRefs l1) (results c2)))).
Proof.
  intros E A. cbv zeta.
  destruct (predictCall_emits l c E) as (_ & _ & V & _).
  set (l1 := fst (predictCall l c)) in *. clearbody l1.
  assert (Idle : forall (l' : Loop) (c' : Call),
            lastVideoTime l' = currentTime c ->
            currentTime c' == currentTime c ->
            snd (predictCall l' c') = None).
  { intros l' c' V' Ec. unfold predictCall.
    destruct (Qltb (now c' - lastProcessTime l') MIN_INTERVAL);
      [reflexivity|].
    destruct (ready c'); [|reflexivity].
    rewrite V'. apply Qeq_bool_iff in Ec. rewrite Ec. reflexivity. }
  assert (Keep : forall (cs' : list Call) (l' : Loop),
            lastVideoTime l' = currentTime c ->
            Forall (fun c' => currentTime c' == currentTime c) cs' ->
            emitted l' cs' = repeat None (length cs')
            /\ trackerRefs (predictCalls l' cs') = trackerRefs l'
            /\ lastVideoTime (predictCalls l' cs') = currentTime c).
  { induction cs' as [|c' cs' IH]; intros l' V' A';
      cbn [predictCalls emitted length repeat].
    - auto.
    - inversion A' as [|? ? Ac A'']; subst.
      pose proof (Idle l' c' V' Ac) as N.
      destruct (predictCall_idle l' c' N) as [Kt Kv].
      destruct (IH (fst (predictCall l' c'))) as (Ie & It & Iv);
        [rewrite Kv; exact V' | exact A'' |].
      rewrite N, Ie, It, Kt. auto. }
  destruct (Keep cs l1 V A) as (Ke & Kt & Kv).
  split; [exact Ke|]. split; [exact Kt|]. split; [exact Kv|]. split.
  - apply Forall_forall. intros c' Hin.
    apply Idle; [exact Kv|].
    rewrite Forall_forall in A. exact (A c' Hin).
  - intros c2 R T D. unfold predictCall.
    destruct (Qltb (now c2 - lastProcessTime (predictCalls l1 cs))
                MIN_INTERVAL) eqn:Th.
    { apply Qltb_lt in Th. lra. }
    rewrite R, Kv, Kt.
    destruct (Qeq_bool (currentTime c2) (currentTime c)) eqn:Q.
    { apply Qeq_bool_iff in Q. contradiction. }
    cbn [negb].
    destruct (predict (trackerRefs l1) (results c2)) as [t e].
    reflexivity.
Qed.

Lemma detections_spaced_witness :
  snd (predictCall (M := RefMath.refMath) initialLoop (Samples.callAt 100 1))
  <> None
  /\ 30 <= 140 - 100.
Proof.
  assert (E1 : snd (predictCall (M := RefMath.refMath) initialLoop
                      (Samples.callAt 100 1)) <> None)
    by (vm_compute; discriminate).
  split; [exact E1|].
  refine (detections_spaced (H := RefMath.refMath) initialLoop
            (Samples.callAt 100 1)
            [Samples.callAt 110 2; Samples.callAt 120 3]
            (Samples.callAt 140 4) E1 _ _).
  - repeat constructor; vm_compute; discriminate.
  - vm_compute. discriminate.
Defined.

Lemma frame_processed_once_witness :
  let l1 := fst (predictCall (M := RefMath.refMath) initialLoop
                   (Samples.callAt 100 1)) in
  snd (predictCall (M := RefMath.refMath) initialLoop (Samples.callAt 100 1))
  <> None
  /\ emitted (M := RefMath.refMath) l1
       [Samples.callAt 200 1; Samples.callAt 300 1]
     = [None; None]
  /\ trackerRefs
       (predictCalls (M := RefMath.refMath) l1
          [Samples.callAt 200 1; Samples.callAt 300 1])
     = trackerRefs l1.
Proof.
  cbv zeta.
  assert (E : snd (predictCall (M := RefMath.refMath) initialLoop
                     (Samples.callAt 100 1)) <> None)
    by (vm_compute; discriminate).
  assert (A : Forall (fun c' => currentTime c'
                                == currentTime (Samples.callAt 100 1))
                [Samples.callAt 200 1; Samples.callAt 300 1])
    by (repeat constructor).
  destruct (frame_processed_once (H := RefMath.refMath) initialLoop
              (Samples.callAt 100 1)
              [Samples.callAt 200 1; Samples.callAt 300 1] E A)
    as (Ke & Kt & _).
  split; [exact E|]. split; [exact Ke|]. exact Kt.
Defined.

End PredictLoopExtras.

(** ** Further properties of the orientation *)

Module OrientationExtras.

Import ParticleSystem OrientationFacts Runs.

Lemma Qabs'_zero (a : Q) : a == 0 -> Qabs' a <= DEADZONE.
Proof.
  intro E. unfold DEADZONE.
  destruct (Qabs'_cases a) as [[L A]|[L A]]; rewrite A; lra.
Qed.

(** X11.  The first frame with a hand after frames without one takes the
    place of the hand as the new reference and does not rotate the field,
    wherever the hand reappears: the field is levelled as on any frame and
    nothing else. *)
Theorem reanchor_no_jump (r : Refs) (h : HandData) :
  wasTrackingRef r = false ->
  hasHand h = true ->
  containerRotation (useFrame r h)
  = autoLevel (isExplodedRef (useFrame r h)) (containerRotation r)
  /\ prevHandPos (useFrame r h)
     = (vx (palmPosition h), vy (palmPosition h))
  /\ wasTrackingRef (useFrame r h) = true.
Proof.
  intros W A. split.
  - apply useFrame_deadzone. intros _.
    unfold deltaX, deltaY, anchor. rewrite W. cbn [fst snd].
    split; apply Qabs'_zero; ring.
  - unfold useFrame. rewrite A. cbn. auto.
Qed.

Lemma reanchor_no_jump_witness :
  containerRotation
    (useFrame (useFrame initialRefs noHand) (openAt 3 (-3)))
  = mkEuler (lerp 0 0 (5 # 100)) 0 (lerp 0 0 (5 # 100)).
Proof.
  destruct (reanchor_no_jump (useFrame initialRefs noHand) (openAt 3 (-3))
              eq_refl eq_refl) as [E _].
  rewrite E. reflexivity.
Defined.

Lemma rotate_roll (h : HandData) (dx dy : Q) (rot : Euler) :
  ez (rotate h dx dy rot) = ez rot.
Proof.
  unfold rotate.
  destruct (Qltb DEADZONE (Qabs' dx) || Qltb DEADZONE (Qabs' dy));
    [|reflexivity].
  destruct (isClosed h); [reflexivity|].
  destruct (isOpen h); reflexivity.
Qed.

Lemma useFrame_roll (r : Refs) (h : HandData) :
  ez (containerRotation (useFrame r h))
  = ez (autoLevel (isExplodedRef (useFrame r h)) (containerRotation r)).
Proof.
  unfold useFrame. destruct (hasHand h); cbn [containerRotation isExplodedRef].
  - destruct (shapeStep h (isExplodedRef r)); cbn [autoLevel negb ez].
    + apply rotate_roll.
    + rewrite rotate_roll. reflexivity.
  - reflexivity.
Qed.

(** X12.  No movement of the hand ever drives the roll: over any frames it
    is scaled by 0.95 once for each frame on which the tree is not
    exploded and is otherwise left alone; so its absolute value never
    grows, and from the initial orientation it stays 0. *)
Theorem roll_only_decays (hs : list HandData) :
  forall r : Refs,
  ez (containerRotation (frames r hs))
  == powQ (19 # 20) (compactFrames r hs) * ez (containerRotation r)
  /\ Qabs' (ez (containerRotation (frames r hs)))
     <= Qabs' (ez (containerRotation r))
  /\ ez (containerRotation (frames initialRefs hs)) == 0.
Proof.
  assert (Closed : forall (hs' : list HandData) (r : Refs),
            ez (containerRotation (frames r hs'))
            == powQ (19 # 20) (compactFrames r hs')
               * ez (containerRotation r)).
  { induction hs' as [|h hs' IH]; intro r; cbn [frames compactFrames].
    - cbn. ring.
    - rewrite IH, useFrame_roll.
      destruct (isExplodedRef (useFrame r h)).
      + rewrite autoLevel_exploded. cbn [Nat.add]. reflexivity.
      + destruct (autoLevel_compact (containerRotation r)) as [_ Az].
        rewrite Az. cbn [Nat.add powQ]. ring. }
  intro r. split; [apply Closed|]. split.
  - pose proof (powQ_pos (compactFrames r hs)) as [P1 P2].
    rewrite (Qabs'_scaled _ _ _ P1 (Closed hs r)).
    pose proof (Qabs'_nonneg (ez (containerRotation r))) as N.
    setoid_replace (Qabs' (ez (containerRotation r)))
      with (1 * Qabs' (ez (containerRotation r))) at 2 by ring.
    apply Qmult_le_compat_r; assumption.
  - rewrite Closed. cbn [initialRefs containerRotation ez]. ring.
Qed.

(** One steering frame: the yaw follows the hand. *)
Lemma useFrame_steering (r : Refs) (h : HandData) :
  wasTrackingRef r = true ->
  hasHand h = true ->
  isOpen h = true \/ isClosed h = true ->
  DEADZONE < Qabs' (deltaX r h) \/ DEADZONE < Qabs' (deltaY r h) ->
  ey (containerRotation (useFrame r h))
  = ey (containerRotation r)
    + (vx (palmPosition h) - fst (prevHandPos r)) * sensitivity
  /\ prevHandPos (useFrame r h)
     = (vx (palmPosition h), vy (palmPosition h))
  /\ wasTrackingRef (useFrame r h) = true.
Proof.
  intros W A G D.
  assert (B : Qltb DEADZONE (Qabs' (deltaX r h))
              || Qltb DEADZONE (Qabs' (deltaY r h)) = true).
  { apply orb_true_iff. destruct D as [D|D]; [left|right];
      apply Qltb_lt; exact D. }
  unfold useFrame. rewrite A.
  cbn [containerRotation prevHandPos wasTrackingRef].
  rewrite autoLevel_yaw. unfold rotate. rewrite B.
  unfold deltaX, anchor. rewrite W.
  destruct (isClosed h) eqn:C; [cbn; auto|].
  destruct G as [G|G]; [|discriminate G]. rewrite G. cbn. auto.
Qed.

(** X13.  While the hand, open or in a fist, keeps moving by more than the
    deadzone from frame to frame, the yaw follows it exactly: its net
    change is 0.8 times the net horizontal displacement of the pointer,
    whatever the path. *)
Theorem yaw_follows_pointer (hs : list HandData) :
  forall r : Refs,
  wasTrackingRef r = true ->
  steering r hs ->
  ey (containerRotation (frames r hs)) - ey (containerRotation r)
  == (8 # 10) * (fst (prevHandPos (frames r hs)) - fst (prevHandPos r)).
Proof.
  induction hs as [|h hs IH]; intros r W S; cbn [frames].
  - ring.
  - destruct S as (A & G & D & S').
    destruct (useFrame_steering r h W A G D) as (Ey & Ep & Ew).
    pose proof (IH _ Ew S') as I.
    rewrite Ey, Ep in I. cbn [fst] in I. unfold sensitivity in I. lra.
Qed.

Lemma yaw_follows_pointer_witness :
  steering tiltedRefs [fistAt 1 0; openAt 1 1; openAt (-2) 1]
  /\ ey (containerRotation
           (frames tiltedRefs [fistAt 1 0; openAt 1 1; openAt (-2) 1])) - 2
     == (8 # 10) * (- (2) - 0).
Proof.
  assert (S : steering tiltedRefs [fistAt 1 0; openAt 1 1; openAt (-2) 1]).
  { cbn. repeat split; auto; try (left; reflexivity);
      try (right; reflexivity). }
  split; [exact S|].
  exact (yaw_follows_pointer _ tiltedRefs eq_refl S).
Defined.

(** X14.  A hand that shows neither an open hand nor a fist (a pinch, or no
    gesture) never rotates the field and never changes its shape, however
    it moves: the frame only levels the field. *)
Theorem no_gesture_no_rotation (r : Refs) (h : HandData) :
  isOpen h = false ->
  isClosed h = false ->
  containerRotation (useFrame r h)
  = autoLevel (isExplodedRef r) (containerRotation r)
  /\ isExplodedRef (useFrame r h) = isExplodedRef r.
Proof.
  intros O C. unfold useFrame, shapeStep, rotate. rewrite O, C.
  destruct (hasHand h); cbn [containerRotation isExplodedRef];
    [|auto].
  destruct (Qltb DEADZONE (Qabs' (deltaX r h))
            || Qltb DEADZONE (Qabs' (deltaY r h))); auto.
Qed.

Lemma no_gesture_no_rotation_witness :
  containerRotation (useFrame tiltedRefs (pinchAt 3 3))
  = autoLevel false (mkEuler 1 2 (-1))
  /\ isExplodedRef (useFrame tiltedRefs (pinchAt 3 3)) = false.
Proof.
  exact (no_gesture_no_rotation tiltedRefs (pinchAt 3 3) eq_refl eq_refl).
Defined.

(** X15.  A frame with a fist always leaves the tree not exploded, so the
    levelling runs on it: the roll is scaled by 0.95, and if the hand moved
    by more than the deadzone the yaw turns by 0.8 times the horizontal
    delta and the pitch is scaled by 0.9 and then by 0.95; otherwise the
    yaw is kept and the pitch scaled by 0.95 only. *)
Theorem fist_frame (r : Refs) (h : HandData) :
  hasHand h = true ->
  isClosed h = true ->
  let rot := containerRotation r in
  let rot' := containerRotation (useFrame r h) in
  isExplodedRef (useFrame r h) = false
  /\ ez rot' == (19 # 20) * ez rot
  /\ (DEADZONE < Qabs' (deltaX r h) \/ DEADZONE < Qabs' (deltaY r h) ->
      ey rot' = ey rot + deltaX r h * (8 # 10)
      /\ ex rot' == (19 # 20) * ((9 # 10) * ex rot))
  /\ (Qabs' (deltaX r h) <= DEADZONE /\ Qabs' (deltaY r h) <= DEADZONE ->
      ey rot' = ey rot /\ ex rot' == (19 # 20) * ex rot).
Proof.
  intros A C. cbv zeta.
  assert (E : isExplodedRef (useFrame r h) = false).
  { rewrite AppFacts.useFrame_exploded. unfold shapeStep.
    rewrite A, C. reflexivity. }
  split; [exact E|]. split; [|split].
  - rewrite useFrame_roll, E.
    apply (proj2 (autoLevel_compact (containerRotation r))).
  - intro D.
    assert (B : Qltb DEADZONE (Qabs' (deltaX r h))
                || Qltb DEADZONE (Qabs' (deltaY r h)) = true).
    { apply orb_true_iff. destruct D as [D|D]; [left|right];
        apply Qltb_lt; exact D. }
    unfold useFrame, shapeStep, rotate. rewrite A, C, B.
    cbn [containerRotation autoLevel negb ex ey].
    split; [reflexivity|]. unfold lerp. ring.
  - intros [Dx Dy].
    rewrite (useFrame_deadzone r h (fun _ => conj Dx Dy)), E.
    split; [apply autoLevel_yaw|].
    apply (proj1 (autoLevel_compact (containerRotation r))).
Qed.

Lemma fist_frame_witness :
  isExplodedRef (useFrame tiltedRefs (fistAt 1 0)) = false
  /\ ey (containerRotation (useFrame tiltedRefs (fistAt 1 0)))
     = 2 + (1 - 0) * (8 # 10).
Proof.
  destruct (fist_frame tiltedRefs (fistAt 1 0) eq_refl eq_refl)
    as (E & _ & M & _).
  split; [exact E|]. apply M. left. reflexivity.
Defined.

End OrientationExtras.

(** ** Further properties of the displayed positions and of the focus *)

Module FieldExtras.

Import SubSystem SubSystemFacts PhotoGroup PhotoGroupFacts Runs.

(** One frame of an exploded tree, on the three coordinates of an object. *)
Lemma exploded_frame `{MathLib} (time : Q) (data : list ParticleData)
  (cur : list Q) (i : nat) (p : ParticleData) :
  nth_error data i = Some p ->
  length cur = (length data * 3)%nat ->
  let cur' := SubSystem.useFrame true time data cur in
  length cur' = (length data * 3)%nat
  /\ getAt cur' (i * 3) - vx (spherePos p)
     == (23 # 25) * (getAt cur (i * 3) - vx (spherePos p))
  /\ getAt cur' (i * 3 + 1) - vy (spherePos p)
     == (23 # 25) * (getAt cur (i * 3 + 1) - vy (spherePos p))
  /\ getAt cur' (i * 3 + 2) - vz (spherePos p)
     == (23 # 25) * (getAt cur (i * 3 + 2) - vz (spherePos p)).
Proof.
  intros E L. cbv zeta. unfold SubSystem.useFrame.
  destruct (loop_spec true time data 0 cur) as (Hl & _ & Hv).
  { cbn [Nat.add]. lia. }
  specialize (Hv i p E). cbv zeta in Hv. cbn [Nat.add] in Hv.
  destruct Hv as (H1 & H2 & H3).
  rewrite Hl, H1, H2, H3. unfold target, lerpFactor.
  repeat split; try assumption; ring.
Qed.

(** X16.  While the tree is exploded every object closes in on its sphere
    position geometrically: after [n] frames each coordinate of the
    displayed position is off by [0.92 ^ n] times what it was off before,
    at whatever times the frames run. *)
Theorem exploded_positions_converge `{MathLib} (times : list Q)
  (data : list ParticleData) (i : nat) (p : ParticleData) :
  forall currentPositions : list Q,
  nth_error data i = Some p ->
  length currentPositions = (length data * 3)%nat ->
  let cur' := subsystemFrames true times data currentPositions in
  let k := ParticleSystem.powQ (23 # 25) (length times) in
  getAt cur' (i * 3) - vx (spherePos p)
  == k * (getAt currentPositions (i * 3) - vx (spherePos p))
  /\ getAt cur' (i * 3 + 1) - vy (spherePos p)
     == k * (getAt currentPositions (i * 3 + 1) - vy (spherePos p))
  /\ getAt cur' (i * 3 + 2) - vz (spherePos p)
     == k * (getAt currentPositions (i * 3 + 2) - vz (spherePos p)).
Proof.
  induction times as [|time times IH]; intros cur E L; cbv zeta.
  - cbn [subsystemFrames length ParticleSystem.powQ]. repeat split; ring.
  - cbn [subsystemFrames length ParticleSystem.powQ].
    destruct (exploded_frame time data cur i p E L) as (L1 & X & Y & Z).
    destruct (IH _ E L1) as (Ix & Iy & Iz).
    rewrite Ix, Iy, Iz, X, Y, Z. repeat split; ring.
Qed.

Lemma exploded_positions_converge_witness :
  getAt (subsystemFrames (M := RefMath.refMath) true [0; 1; 2]
           Scenes.nearAndFar (initialPositions Scenes.nearAndFar)) (1 * 3 + 2)
  - (- (1))
  == ParticleSystem.powQ (23 # 25) 3 * (0 - (- (1))).
Proof.
  destruct (exploded_positions_converge (H := RefMath.refMath) [0; 1; 2]
              Scenes.nearAndFar 1 _
              (initialPositions Scenes.nearAndFar) eq_refl eq_refl)
    as (_ & _ & Z).
  exact Z.
Defined.

(** X17.  After a frame over at least one photo the focus index is -1 or
    the index of a photo, and the hovered photo is the first of those at
    the least distance: strictly nearer than every photo before it. *)
Theorem focus_is_first_nearest `{MathLib} (isExploded : bool) (time : Q)
  (rotation : Euler) (camera : Vector3) (photos : list ParticleData)
  (prev : Z) :
  photos <> [] ->
  let c := PhotoGroup.useFrame isExploded time rotation camera photos prev in
  let dist := distanceOf isExploded time rotation camera photos in
  (c = (-1)%Z \/ (0 <= c < Z.of_nat (length photos))%Z)
  /\ (forall i : nat, isHovered c i = true -> (i < length photos)%nat)
  /\ (forall (i j : nat) (di dj : Q),
        isHovered c i = true -> (j < i)%nat ->
        dist i = Some di -> dist j = Some dj -> di < dj).
Proof.
  intro N. cbv zeta.
  destruct (useFrame_nearest isExploded time rotation camera photos prev N)
    as (k & p & Ek & _ & Hfirst & Ec).
  rewrite Ec. clear Ec.
  assert (Lk : (k < length photos)%nat)
    by (apply nth_error_Some; congruence).
  destruct (Qltb (distanceAt isExploded time rotation camera k p) CUTOFF).
  - split; [right; lia|]. split.
    + intros i Hi. unfold isHovered in Hi. apply Z.eqb_eq in Hi. lia.
    + intros i j di dj Hi Lj Ei Ej.
      unfold isHovered in Hi. apply Z.eqb_eq in Hi.
      apply Nat2Z.inj in Hi. subst i.
      unfold distanceOf in Ei, Ej. rewrite Ek in Ei. injection Ei as <-.
      destruct (nth_error photos j) as [pj|] eqn:Epj; [|discriminate Ej].
      injection Ej as <-. exact (Hfirst j pj Lj Epj).
  - split; [left; reflexivity|]. split.
    + intros i Hi. rewrite isHovered_none in Hi. discriminate Hi.
    + intros i j di dj Hi. rewrite isHovered_none in Hi. discriminate Hi.
Qed.

Lemma focus_is_first_nearest_witness :
  Samples.tiedPhotos <> []
  /\ distanceOf (M := RefMath.refMath) true 0 (mkEuler 0 0 0) Scenes.camera
       Samples.tiedPhotos 1
     = distanceOf (M := RefMath.refMath) true 0 (mkEuler 0 0 0)
         Scenes.camera Samples.tiedPhotos 2
  /\ PhotoGroup.useFrame (M := RefMath.refMath) true 0 (mkEuler 0 0 0)
       Scenes.camera Samples.tiedPhotos (-1) = 1%Z
  /\ (1 < length Samples.tiedPhotos)%nat.
Proof.
  assert (N : Samples.tiedPhotos <> []) by discriminate.
  destruct (focus_is_first_nearest (H := RefMath.refMath) true 0
              (mkEuler 0 0 0) Scenes.camera Samples.tiedPhotos (-1) N)
    as (_ & R & _).
  split; [exact N|]. split; [vm_compute; reflexivity|].
  split; [vm_compute; reflexivity|].
  apply R. vm_compute. reflexivity.
Defined.

End FieldExtras.

(** ** The snowfall *)

Module SnowfallExtras.

Import Snowfall.

Lemma generate_length (rnd : Random) (n : nat) : forall k : nat,
  length (generate rnd k n) = n.
Proof.
  induction n as [|n IH]; intro k; cbn [generate length]; auto.
Qed.

Lemma generate_inVolume (rnd : Random) (n : nat) :
  (forall i : nat, 0 <= rnd i <= 1) ->
  forall k : nat, Forall inVolume (generate rnd k n).
Proof.
  intro R. induction n as [|n IH]; intro k; cbn [generate].
  - constructor.
  - constructor; [|apply IH].
    unfold inVolume. cbn [x y z speed].
    pose proof (R k). pose proof (R (k + 1)%nat). pose proof (R (k + 2)%nat).
    pose proof (R (k + 3)%nat). repeat split; lra.
Qed.

Lemma fall_inVolume (rnd : Random) (k : nat) (p : Flake) :
  (forall i : nat, 0 <= rnd i <= 1) ->
  inVolume p -> inVolume (fst (fall rnd k p)).
Proof.
  intros R (Ix & Iy & Iz & Is). unfold fall. cbv zeta.
  destruct (Qltb (y p - speed p) (- (5))) eqn:B;
    [apply Qltb_lt in B | apply Qltb_ge in B];
    unfold inVolume; cbn [fst x y z speed].
  - pose proof (R k). pose proof (R (S k)). repeat split; lra.
  - repeat split; lra.
Qed.

Lemma useFrame_inVolume (rnd : Random) (ps : list Flake) :
  (forall i : nat, 0 <= rnd i <= 1) ->
  forall k : nat,
  Forall inVolume ps ->
  Forall inVolume (fst (useFrame rnd k ps))
  /\ length (fst (useFrame rnd k ps)) = length ps.
Proof.
  intro R. induction ps as [|p ps IH]; intros k A; cbn [useFrame].
  - split; [constructor | reflexivity].
  - inversion A as [|? ? Ap A']; subst.
    pose proof (fall_inVolume rnd k p R Ap) as F.
    destruct (fall rnd k p) as [p1 k1]. cbn [fst] in F.
    destruct (IH k1 A') as [I1 I2].
    destruct (useFrame rnd k1 ps) as [ps1 k2]. cbn [fst length] in *.
    split; [constructor; assumption | congruence].
Qed.

(** X18.  With draws of [Math.random] between 0 and 1 there are always 600
    flakes and each stays in the volume the component fills: [x] and [z]
    between -15 and 15, [y] between -5 and 20, a falling speed between 0.02
    and 0.06, after any number of frames. *)
Theorem snow_stays_in_volume (rnd : Random) (n : nat) :
  (forall i : nat, 0 <= rnd i <= 1) ->
  let ps := fst (frames rnd n (7 * count) (particles rnd)) in
  length ps = 600%nat /\ Forall inVolume ps.
Proof.
  intro R. cbv zeta.
  assert (G : forall (m k : nat) (ps : list Flake),
            Forall inVolume ps ->
            length (fst (frames rnd m k ps)) = length ps
            /\ Forall inVolume (fst (frames rnd m k ps))).
  { induction m as [|m IH]; intros k ps A; cbn [frames].
    - auto.
    - destruct (useFrame_inVolume rnd ps R k A) as [I1 I2].
      destruct (useFrame rnd k ps) as [ps1 k1]. cbn [fst] in I1, I2.
      destruct (IH k1 ps1 I1) as [J1 J2]. split; [congruence | exact J2]. }
  destruct (G n (7 * count)%nat (particles rnd)
              (generate_inVolume rnd count R 0%nat)) as [L A].
  split; [|exact A]. rewrite L. apply generate_length.
Qed.

Lemma snow_stays_in_volume_witness :
  (forall i : nat, 0 <= (fun _ : nat => 1 # 2) i <= 1)
  /\ length (fst (frames (fun _ => 1 # 2) 1000 (7 * count)
                    (particles (fun _ => 1 # 2)))) = 600%nat.
Proof.
  assert (R : forall i : nat, 0 <= (fun _ : nat => 1 # 2) i <= 1)
    by (intro i; cbv beta; lra).
  split; [exact R|].
  exact (proj1 (snow_stays_in_volume (fun _ => 1 # 2) 1000 R)).
Defined.

(** The four constants of a flake. *)
Lemma fall_character (rnd : Random) (k : nat) (p : Flake) :
  let p' := fst (fall rnd k p) in
  speed p' = speed p /\ swaySpeed p' = swaySpeed p
  /\ swayAmp p' = swayAmp p /\ scale p' = scale p
  /\ - (5) <= y p'
  /\ ((x p' = x p /\ z p' = z p) \/ y p' = 15).
Proof.
  cbv zeta. unfold fall. cbv zeta.
  destruct (Qltb (y p - speed p) (- (5))) eqn:B;
    [apply Qltb_lt in B | apply Qltb_ge in B]; cbn [fst x y z speed
      swaySpeed swayAmp scale]; repeat split; auto; lra.
Qed.

(** X19.  A frame never leaves a flake below the ground ([y] is at least
    -5 after it, whatever the flake and the draws were), never changes the
    falling speed, the sway or the size of a flake, and moves a flake
    sideways only when it sends it back to the top. *)
Theorem snow_frame_keeps_flakes (rnd : Random) (ps : list Flake) :
  forall k : nat,
  let ps' := fst (useFrame rnd k ps) in
  length ps' = length ps
  /\ (forall (i : nat) (p p' : Flake),
        nth_error ps i = Some p -> nth_error ps' i = Some p' ->
        speed p' = speed p /\ swaySpeed p' = swaySpeed p
        /\ swayAmp p' = swayAmp p /\ scale p' = scale p
        /\ - (5) <= y p'
        /\ ((x p' = x p /\ z p' = z p) \/ y p' = 15)).
Proof.
  induction ps as [|q ps IH]; intro k; cbv zeta; cbn [useFrame].
  - split; [reflexivity|]. intros [|i] p p' E; discriminate E.
  - pose proof (fall_character rnd k q) as F. cbv zeta in F.
    destruct (fall rnd k q) as [q1 k1]. cbn [fst] in F.
    specialize (IH k1). cbv zeta in IH. destruct IH as [I1 I2].
    destruct (useFrame rnd k1 ps) as [ps1 k2]. cbn [fst length] in *.
    split; [congruence|].
    intros [|i] p p' E E'; cbn [nth_error] in E, E'.
    + injection E as <-. injection E' as <-. exact F.
    + exact (I2 i p p' E E').
Qed.

End SnowfallExtras.

(** ** The photo frames *)

Module PhotoFrameExtras.

Import PhotoFrame.

Lemma Qabs'_mult (p a b : Q) : b == p * a -> Qabs' b == Qabs' p * Qabs' a.
Proof.
  intro E.
  destruct (Qabs'_cases p) as [[Lp Ep]|[Lp Ep]];
    destruct (Qabs'_cases a) as [[La Ea]|[La Ea]]; rewrite Ep, Ea.
  - assert (0 < (- p) * (- a)) by (apply Qmult_lt_0_compat; lra).
    assert ((- p) * (- a) == p * a) by ring.
    destruct (Qabs'_cases b) as [[Lb Eb]|[Lb Eb]]; rewrite Eb; lra.
  - assert (0 <= (- p) * a) by (apply Qmult_le_0_compat; lra).
    assert ((- p) * a == - (p * a)) by ring.
    destruct (Qabs'_cases b) as [[Lb Eb]|[Lb Eb]]; rewrite Eb; lra.
  - assert (0 <= p * (- a)) by (apply Qmult_le_0_compat; lra).
    assert (p * (- a) == - (p * a)) by ring.
    destruct (Qabs'_cases b) as [[Lb Eb]|[Lb Eb]]; rewrite Eb; lra.
  - assert (0 <= p * a) by (apply Qmult_le_0_compat; lra).
    destruct (Qabs'_cases b) as [[Lb Eb]|[Lb Eb]]; rewrite Eb; lra.
Qed.

Lemma lerp_approaches (delta a t : Q) :
  approaches delta (a, a + (t - a) * (10 * delta), t).
Proof.
  unfold approaches.
  assert (E : a + (t - a) * (10 * delta) - t == (1 - 10 * delta) * (a - t))
    by ring.
  split; [exact E|]. pose proof (Qabs'_mult _ _ _ E) as A.
  pose proof (Qabs'_nonneg (a - t)) as N. split; [|split].
  - intro D. rewrite A.
    setoid_replace (Qabs' (a - t)) with (1 * Qabs' (a - t)) at 2 by ring.
    apply Qmult_le_compat_r; [|exact N].
    destruct (Qabs'_cases (1 - 10 * delta)) as [[L F]|[L F]]; rewrite F; lra.
  - intro D. rewrite D in E.
    setoid_replace (a + (t - a) * (10 * delta))
      with (a + (t - a) * (10 * delta) - t + t) by ring.
    rewrite D at 1. lra.
  - intros D Ne. rewrite A.
    assert (P : 0 < Qabs' (a - t)).
    { destruct (Qabs'_cases (a - t)) as [[L F]|[L F]]; rewrite F; [lra|].
      apply Qle_lteq in L. destruct L as [L|L]; [lra|].
      exfalso. apply Ne. lra. }
    setoid_replace (Qabs' (a - t)) with (1 * Qabs' (a - t)) at 1 by ring.
    apply Qmult_lt_compat_r; [exact P|].
    destruct (Qabs'_cases (1 - 10 * delta)) as [[L F]|[L F]]; rewrite F; lra.
Qed.

(** X20.  Each frame multiplies the distance of the displayed scale and
    position of a photo frame from their targets, on every axis, by
    [1 - 10 * delta]: they approach the target without passing it when the
    frame took at most 0.1 s, reach it when it took exactly 0.1 s, and end
    farther from it than they were when it took more than 0.2 s. *)
Theorem photo_frame_approach `{MathLib} (cameraPosition : Vector3)
  (cameraQuaternion : Quaternion) (elapsedTime delta : Q)
  (pos : Vector3) (isHovered isSelected : bool) (g : Group) :
  let g' := useFrame cameraPosition cameraQuaternion elapsedTime delta pos
              isHovered isSelected g in
  let s := targetScale isHovered isSelected in
  let t := targetPos cameraPosition cameraQuaternion elapsedTime pos
             isHovered isSelected in
  Forall (approaches delta)
    [(vx (scale g), vx (scale g'), s);
     (vy (scale g), vy (scale g'), s);
     (vz (scale g), vz (scale g'), s);
     (vx (position g), vx (position g'), vx t);
     (vy (position g), vy (position g'), vy t);
     (vz (position g), vz (position g'), vz t)].
Proof.
  cbv zeta. unfold useFrame, lerp. cbv zeta.
  cbn [position scale vx vy vz].
  repeat constructor; apply lerp_approaches.
Qed.

End PhotoFrameExtras.

(** ** The particles of the tree *)

Module GeometryExtras.

Import Geometry.

Section Generate.
Context {M : MathLib} {G : GeoLib}.
Variable rnd : Snowfall.Random.

Lemma bind_run {A B : Type} (c : Gen A) (f : A -> Gen B) (k : nat) :
  bind c f k = f (fst (c k)) (snd (c k)).
Proof. unfold bind. destruct (c k); reflexivity. Qed.

(** [addParticle] completes its argument with a sphere position only. *)
Lemma addParticle_fields (p : Partial) (k : nat) :
  let q := fst (addParticle rnd p k) in
  ptype q = p_type p /\ color q = p_color p
  /\ treePos (data q) = p_treePos p
  /\ scale (data q) = p_scale p
  /\ rotationOffset (data q)
     = match p_rotationOffset p with
       | Some e => e
       | None => mkEuler 0 0 0
       end.
Proof.
  cbv zeta. unfold addParticle. rewrite bind_run. cbn. auto.
Qed.

Lemma foliageBody_type (i k : nat) :
  ptype (fst (foliageBody rnd i k)) = foliage.
Proof.
  unfold foliageBody. rewrite !bind_run.
  exact (proj1 (addParticle_fields _ _)).
Qed.

Lemma orbGoldBody_type (i k : nat) :
  ptype (fst (orbGoldBody rnd i k)) = orb_gold.
Proof.
  unfold orbGoldBody. rewrite !bind_run.
  exact (proj1 (addParticle_fields _ _)).
Qed.

Lemma orbRedBody_type (i k : nat) :
  ptype (fst (orbRedBody rnd i k)) = orb_red.
Proof.
  unfold orbRedBody. rewrite !bind_run.
  exact (proj1 (addParticle_fields _ _)).
Qed.

Lemma orbSilverBody_type (i k : nat) :
  ptype (fst (orbSilverBody rnd i k)) = orb_silver.
Proof.
  unfold orbSilverBody. rewrite !bind_run.
  exact (proj1 (addParticle_fields _ _)).
Qed.

Lemma snowBody_type (i k : nat) :
  ptype (fst (snowBody rnd i k)) = snow.
Proof.
  unfold snowBody. rewrite !bind_run.
  exact (proj1 (addParticle_fields _ _)).
Qed.

Lemma caneBody_type (i k : nat) :
  ptype (fst (caneBody rnd i k)) = cane.
Proof.
  unfold caneBody. rewrite !bind_run.
  exact (proj1 (addParticle_fields _ _)).
Qed.

Lemma photoBody_type (i k : nat) :
  ptype (fst (photoBody rnd i k)) = photo_placeholder.
Proof.
  unfold photoBody. exact (proj1 (addParticle_fields _ _)).
Qed.

(** A loop pushes one particle for each round. *)
Lemma forLoop_types (body : nat -> Gen Particle) (t : ParticleType) :
  (forall i k : nat, ptype (fst (body i k)) = t) ->
  forall n i k : nat,
  map ptype (fst (forLoop n i body k)) = repeat t n.
Proof.
  intro B. induction n as [|n IH]; intros i k; cbn [forLoop repeat].
  - reflexivity.
  - rewrite !bind_run. cbn [ret fst map]. rewrite B, IH. reflexivity.
Qed.

Lemma forLoop_length (body : nat -> Gen Particle) (n : nat) :
  forall i k : nat, length (fst (forLoop n i body k)) = n.
Proof.
  induction n as [|n IH]; intros i k; cbn [forLoop].
  - reflexivity.
  - rewrite !bind_run. cbn [ret fst length]. rewrite IH. reflexivity.
Qed.

(** The particle of round [j] is the one the body makes for index
    [i + j]. *)
Lemma forLoop_nth (body : nat -> Gen Particle) (n : nat) :
  forall i k j : nat,
  (j < n)%nat ->
  exists k' : nat,
    nth_error (fst (forLoop n i body k)) j = Some (fst (body (i + j)%nat k')).
Proof.
  induction n as [|n IH]; intros i k j L; [lia|].
  cbn [forLoop]. rewrite !bind_run. cbn [ret fst].
  destruct j as [|j].
  - exists k. rewrite Nat.add_0_r. reflexivity.
  - destruct (IH (S i) (snd (body i k)) j ltac:(lia)) as [k' E].
    exists k'. cbn [nth_error]. rewrite E. f_equal. f_equal. f_equal. lia.
Qed.

(** The particles are those of the seven loops, in the order of the
    loops. *)
Lemma generateParticles_parts (k : nat) :
  exists k1 k2 k3 k4 k5 k6 : nat,
    fst (generateParticles rnd TREE k)
    = fst (forLoop FOLIAGE 0 (foliageBody rnd) k)
      ++ fst (forLoop ORB_GOLD 0 (orbGoldBody rnd) k1)
      ++ fst (forLoop ORB_RED 0 (orbRedBody rnd) k2)
      ++ fst (forLoop ORB_SILVER 0 (orbSilverBody rnd) k3)
      ++ fst (forLoop SNOW 0 (snowBody rnd) k4)
      ++ fst (forLoop CANE 0 (caneBody rnd) k5)
      ++ fst (forLoop PHOTO 0 (photoBody rnd) k6).
Proof.
  unfold generateParticles. rewrite !bind_run. cbn [ret fst].
  eexists _, _, _, _, _, _. reflexivity.
Qed.

(** X21.  Whatever [Math.random] draws, the generator returns 990
    particles: 400 of foliage, then 500 gold, 30 red and 20 silver orbs, 20
    snowflakes, 10 canes and 10 photo placeholders, in this order, and none
    of type [box]. *)
Theorem particle_counts (k : nat) :
  map ptype (fst (generateParticles rnd TREE k))
  = repeat foliage 400 ++ repeat orb_gold 500 ++ repeat orb_red 30
    ++ repeat orb_silver 20 ++ repeat snow 20 ++ repeat cane 10
    ++ repeat photo_placeholder 10
  /\ length (fst (generateParticles rnd TREE k)) = 990%nat.
Proof.
  destruct (generateParticles_parts k) as (k1 & k2 & k3 & k4 & k5 & k6 & E).
  assert (T : map ptype (fst (generateParticles rnd TREE k))
              = repeat foliage 400 ++ repeat orb_gold 500
                ++ repeat orb_red 30 ++ repeat orb_silver 20
                ++ repeat snow 20 ++ repeat cane 10
                ++ repeat photo_placeholder 10).
  { rewrite E, !map_app.
    rewrite (forLoop_types _ _ foliageBody_type),
      (forLoop_types _ _ orbGoldBody_type),
      (forLoop_types _ _ orbRedBody_type),
      (forLoop_types _ _ orbSilverBody_type),
      (forLoop_types _ _ snowBody_type),
      (forLoop_types _ _ caneBody_type),
      (forLoop_types _ _ photoBody_type).
    reflexivity. }
  split; [exact T|].
  rewrite <- (length_map ptype), T, !length_app, !repeat_length.
  reflexivity.
Qed.

Lemma num_range (i : nat) : (i <= 9)%nat -> 0 <= num i <= 9.
Proof.
  intro L. unfold num. split.
  - change 0 with (inject_Z 0). rewrite <- Zle_Qle. lia.
  - change 9 with (inject_Z 9). rewrite <- Zle_Qle. lia.
Qed.

Lemma photoHeight_eq (i : nat) :
  photoHeight i == num i * (7 # 18) - 1.
Proof.
  unfold photoHeight.
  change (num (PHOTO - 1)) with 9. field.
Qed.

(** X22.  The ten photo placeholders are the particles 980 to 989 and do
    not depend on [Math.random] but for their sphere position: the
    placeholder [i] sits at the height [i / 9 * 3.5 - 1], between -1 and
    2.5 and growing with [i], at the angle [1.8 i] on the radius
    [(4 - h) * 0.55 + 0.4], turned by minus that angle, with scale 0.25. *)
Theorem photo_placeholders (k i : nat) :
  (i < 10)%nat ->
  exists q : Particle,
    nth_error (fst (generateParticles rnd TREE k)) (980 + i) = Some q
    /\ ptype q = photo_placeholder
    /\ treePos (data q)
       = mkVector3 (cos (photoAngle i) * photoRadius i) (photoHeight i)
                   (sin (photoAngle i) * photoRadius i)
    /\ scale (data q) = 25 # 100
    /\ rotationOffset (data q) = mkEuler 0 (- photoAngle i) 0
    /\ - (1) <= photoHeight i <= 5 # 2
    /\ (forall j : nat, (i < j)%nat -> photoHeight i < photoHeight j).
Proof.
  intro L.
  destruct (generateParticles_parts k) as (k1 & k2 & k3 & k4 & k5 & k6 & E).
  destruct (forLoop_nth (photoBody rnd) PHOTO 0 k6 i L) as [k' N].
  cbn [Nat.add] in N.
  exists (fst (photoBody rnd i k')). split.
  - rewrite E.
    repeat (rewrite nth_error_app2;
            rewrite forLoop_length; [|unfold FOLIAGE, ORB_GOLD, ORB_RED,
              ORB_SILVER, SNOW, CANE; lia]).
    replace (980 + i - FOLIAGE - ORB_GOLD - ORB_RED - ORB_SILVER - SNOW
             - CANE)%nat with i
      by (unfold FOLIAGE, ORB_GOLD, ORB_RED, ORB_SILVER, SNOW, CANE; lia).
    exact N.
  - unfold photoBody. cbv zeta.
    match goal with
    | |- context [addParticle rnd ?p k'] =>
        destruct (addParticle_fields p k') as (Ft & _ & Fp & Fs & Fr)
    end.
    cbn [p_type p_color p_treePos p_scale p_rotationOffset] in Ft, Fp, Fs, Fr.
    split; [exact Ft|]. split; [exact Fp|]. split; [exact Fs|].
    split; [exact Fr|].
    pose proof (num_range i ltac:(lia)) as R.
    pose proof (photoHeight_eq i) as H.
    split; [lra|].
    intros j Lj. rewrite H, (photoHeight_eq j).
    assert (num i < num j) by (unfold num; rewrite <- Zlt_Qlt; lia).
    lra.
Qed.

End Generate.

Lemma photo_placeholders_witness :
  exists q : Particle,
    nth_error
      (fst (generateParticles (M := RefMath.refMath) (G := refGeo)
              (fun _ => 1 # 2) TREE 0%nat)) (980 + 9)
    = Some q
    /\ ptype q = photo_placeholder
    /\ photoHeight 9 == 5 # 2.
Proof.
  destruct (photo_placeholders (M := RefMath.refMath) (G := refGeo)
              (fun _ => 1 # 2) 0%nat 9%nat ltac:(lia))
    as (q & N & T & _).
  exists q. split; [exact N|]. split; [exact T|]. reflexivity.
Defined.

End GeometryExtras.

(** ** The groups of the particle system and the photos shown *)

Module GroupsExtras.

Import Geometry GeometryExtras.

Section Groups.
Context {G : GeoLib}.

Lemma fold_pushInto (ps : list Particle) : forall g : Groups,
  let g' := fold_left pushInto ps g in
  g_foliage g' = g_foliage g ++ ofType foliage ps
  /\ g_orb_gold g' = g_orb_gold g ++ ofType orb_gold ps
  /\ g_orb_red g' = g_orb_red g ++ ofType orb_red ps
  /\ g_orb_silver g' = g_orb_silver g ++ ofType orb_silver ps
  /\ g_snow g' = g_snow g ++ ofType snow ps
  /\ g_cane g' = g_cane g ++ ofType cane ps
  /\ g_photo_placeholder g'
     = g_photo_placeholder g ++ ofType photo_placeholder ps.
Proof.
  induction ps as [|p ps IH]; intro g; cbv zeta.
  - cbn. rewrite !app_nil_r. repeat split.
  - cbn [fold_left]. specialize (IH (pushInto g p)). cbv zeta in IH.
    destruct IH as (I1 & I2 & I3 & I4 & I5 & I6 & I7).
    rewrite I1, I2, I3, I4, I5, I6, I7.
    unfold ofType, pushInto. cbn [filter].
    destruct (ptype p);
      cbn [ParticleType_eqb g_foliage g_orb_gold g_orb_red g_orb_silver
           g_snow g_cane g_photo_placeholder];
      rewrite <- ?app_assoc; repeat split.
Qed.

(** X23.  The groups of the particle system sort the particles by type
    without reordering them: each of the seven groups holds exactly the
    particles of its type, in the order they had; only particles of type
    [box], which has no group, are left out. *)
Theorem groups_sort_by_type (particles : list Particle) :
  let g := groups particles in
  g_foliage g = ofType foliage particles
  /\ g_orb_gold g = ofType orb_gold particles
  /\ g_orb_red g = ofType orb_red particles
  /\ g_orb_silver g = ofType orb_silver particles
  /\ g_snow g = ofType snow particles
  /\ g_cane g = ofType cane particles
  /\ g_photo_placeholder g = ofType photo_placeholder particles
  /\ (length (g_foliage g) + length (g_orb_gold g) + length (g_orb_red g)
      + length (g_orb_silver g) + length (g_snow g) + length (g_cane g)
      + length (g_photo_placeholder g) + length (ofType box particles)
      = length particles)%nat.
Proof.
  cbv zeta. unfold groups.
  destruct (fold_pushInto particles (mkGroups [] [] [] [] [] [] []))
    as (I1 & I2 & I3 & I4 & I5 & I6 & I7).
  cbn [g_foliage g_orb_gold g_orb_red g_orb_silver g_snow g_cane
       g_photo_placeholder app] in *.
  rewrite I1, I2, I3, I4, I5, I6, I7.
  repeat split.
  unfold ofType. clear.
  induction particles as [|p ps IH]; [reflexivity|].
  cbn [filter length]. destruct (ptype p); cbn [ParticleType_eqb length];
    lia.
Qed.

(** The particles of type [t] in a list of particles of type [t']. *)
Lemma ofType_typed (t t' : ParticleType) (l : list Particle) :
  forall n : nat,
  map ptype l = repeat t' n ->
  ofType t l = if ParticleType_eqb t' t then l else [].
Proof.
  induction l as [|p l IH]; intros n E.
  - cbn. destruct (ParticleType_eqb t' t); reflexivity.
  - destruct n as [|n]; [discriminate E|].
    cbn [map repeat] in E. injection E as Ep El.
    unfold ofType in *. cbn [filter]. rewrite Ep, (IH n El).
    destruct (ParticleType_eqb t' t); reflexivity.
Qed.

(** Each group holds the particles of its type. *)
Lemma groups_parts (particles : list Particle) :
  let g := groups particles in
  g_foliage g = ofType foliage particles
  /\ g_orb_gold g = ofType orb_gold particles
  /\ g_orb_red g = ofType orb_red particles
  /\ g_orb_silver g = ofType orb_silver particles
  /\ g_snow g = ofType snow particles
  /\ g_cane g = ofType cane particles
  /\ g_photo_placeholder g = ofType photo_placeholder particles.
Proof.
  cbv zeta. unfold groups.
  destruct (fold_pushInto particles (mkGroups [] [] [] [] [] [] []))
    as (I1 & I2 & I3 & I4 & I5 & I6 & I7).
  cbn [g_foliage g_orb_gold g_orb_red g_orb_silver g_snow g_cane
       g_photo_placeholder app] in *.
  rewrite I1, I2, I3, I4, I5, I6, I7. repeat split.
Qed.

Lemma skipn_exact {A : Type} (a b : list A) (n : nat) :
  length a = n -> skipn n (a ++ b) = b.
Proof.
  intros <-. induction a as [|x a IH]; cbn; auto.
Qed.

End Groups.

(** [Promise.all] resolves with the values of the promises, in order, or
    one of the promises never resolves. *)
Lemma promiseAll_spec {A : Type} (promises : list (option A)) :
  match promiseAll promises with
  | Some l => map Some l = promises
  | None => In None promises
  end.
Proof.
  induction promises as [|p rest IH]; cbn [promiseAll]; [reflexivity|].
  destruct p as [a|]; [|left; reflexivity].
  destruct (promiseAll rest) as [l|].
  - cbn [map]. rewrite IH. reflexivity.
  - right. exact IH.
Qed.

(** An upload of files whose first ten all load. *)
Lemma handleFileUpload_loaded {File Texture : Type}
  (load : File -> option Texture) (files : list File)
  (st : Upload Texture) :
  files <> [] ->
  (forall f : File, In f (firstn 10 files) -> load f <> None) ->
  let st' := handleFileUpload load files st in
  map Some (userTextures st') = map load (firstn 10 files)
  /\ length (userTextures st') = Nat.min 10 (length files)
  /\ isPanelExpanded st' = false
  /\ isProcessing st' = false.
Proof.
  intros N Ok. cbv zeta. unfold handleFileUpload.
  destruct files as [|f fs]; [congruence|].
  pose proof (promiseAll_spec (map load (firstn 10 (f :: fs)))) as P.
  destruct (promiseAll (map load (firstn 10 (f :: fs)))) as [l|].
  - cbn [userTextures isPanelExpanded isProcessing].
    split; [exact P|]. split; [|auto].
    rewrite <- (length_map Some l), P, length_map, length_firstn.
    reflexivity.
  - apply in_map_iff in P. destruct P as (x & Ex & Ix).
    exfalso. exact (Ok x Ix Ex).
Qed.

(** An upload with a file among the first ten whose load never ends. *)
Lemma handleFileUpload_pending {File Texture : Type}
  (load : File -> option Texture) (files : list File)
  (st : Upload Texture) :
  (exists f : File, In f (firstn 10 files) /\ load f = None) ->
  let st' := handleFileUpload load files st in
  userTextures st' = userTextures st
  /\ isPanelExpanded st' = isPanelExpanded st
  /\ isProcessing st' = true.
Proof.
  intros (x & Ix & Ex). cbv zeta. unfold handleFileUpload.
  destruct files as [|f fs].
  { rewrite firstn_nil in Ix. contradiction. }
  pose proof (promiseAll_spec (map load (firstn 10 (f :: fs)))) as P.
  destruct (promiseAll (map load (firstn 10 (f :: fs)))) as [l|].
  - exfalso. apply (in_map load) in Ix. rewrite Ex, <- P in Ix.
    apply in_map_iff in Ix. destruct Ix as (y & Ey & _). discriminate Ey.
  - cbn [userTextures isPanelExpanded isProcessing]. auto.
Qed.

Section Generated.
Context {M : MathLib} {G : GeoLib}.
Variable rnd : Snowfall.Random.

(** X24.  For the particles the generator returns, the seven groups have
    400, 500, 30, 20, 20, 10 and 10 members, none is empty and none of the
    990 particles is left out; the photo group is the last ten particles.
    An upload of no file changes nothing.  An upload of files whose first
    ten all load replaces the textures by those of the first ten files,
    in the order of the files and as many as the files, at most 10,
    collapses the panel and ends the loading state.  An upload with one
    of the first ten files whose load never calls back keeps the textures
    and the panel and leaves the loading state on.  The photo frames
    shown are then the first placeholders of the photo group, one for
    each texture. *)
Theorem groups_of_generated (k : nat) (File Texture : Type)
  (load : File -> option Texture) (files : list File)
  (st : Upload Texture) :
  let particles := fst (generateParticles rnd TREE k) in
  let g := groups particles in
  let st' := handleFileUpload load files st in
  let photos := map data (g_photo_placeholder g) in
  (length (g_foliage g) = 400 /\ length (g_orb_gold g) = 500
   /\ length (g_orb_red g) = 30 /\ length (g_orb_silver g) = 20
   /\ length (g_snow g) = 20 /\ length (g_cane g) = 10
   /\ length (g_photo_placeholder g) = 10)%nat
  /\ g_photo_placeholder g = skipn 980 particles
  /\ (files = [] -> st' = st)
  /\ (files <> [] ->
      (forall f : File, In f (firstn 10 files) -> load f <> None) ->
      map Some (userTextures st') = map load (firstn 10 files)
      /\ length (userTextures st') = Nat.min 10 (length files)
      /\ isPanelExpanded st' = false
      /\ isProcessing st' = false
      /\ PhotoGroup.activePhotos photos (length (userTextures st'))
         = firstn (length files) (map data (skipn 980 particles))
      /\ length (PhotoGroup.activePhotos photos
                   (length (userTextures st')))
         = Nat.min 10 (length files))
  /\ ((exists f : File, In f (firstn 10 files) /\ load f = None) ->
      userTextures st' = userTextures st
      /\ isPanelExpanded st' = isPanelExpanded st
      /\ isProcessing st' = true)
  /\ ((length (userTextures st') <= 10)%nat ->
      length (PhotoGroup.activePhotos photos (length (userTextures st')))
      = length (userTextures st')).
Proof.
  cbv zeta.
  destruct (generateParticles_parts rnd k)
    as (k1 & k2 & k3 & k4 & k5 & k6 & E).
  destruct (groups_parts (fst (generateParticles rnd TREE k)))
    as (I1 & I2 & I3 & I4 & I5 & I6 & I7).
  rewrite I1, I2, I3, I4, I5, I6, I7.
  set (l1 := fst (forLoop FOLIAGE 0 (foliageBody rnd) k)) in *.
  set (l2 := fst (forLoop ORB_GOLD 0 (orbGoldBody rnd) k1)) in *.
  set (l3 := fst (forLoop ORB_RED 0 (orbRedBody rnd) k2)) in *.
  set (l4 := fst (forLoop ORB_SILVER 0 (orbSilverBody rnd) k3)) in *.
  set (l5 := fst (forLoop SNOW 0 (snowBody rnd) k4)) in *.
  set (l6 := fst (forLoop CANE 0 (caneBody rnd) k5)) in *.
  set (l7 := fst (forLoop PHOTO 0 (photoBody rnd) k6)) in *.
  assert (T1 := forLoop_types _ _ (foliageBody_type rnd) FOLIAGE 0%nat k).
  assert (T2 := forLoop_types _ _ (orbGoldBody_type rnd) ORB_GOLD
                  0%nat k1).
  assert (T3 := forLoop_types _ _ (orbRedBody_type rnd) ORB_RED
                  0%nat k2).
  assert (T4 := forLoop_types _ _ (orbSilverBody_type rnd) ORB_SILVER
                  0%nat k3).
  assert (T5 := forLoop_types _ _ (snowBody_type rnd) SNOW 0%nat k4).
  assert (T6 := forLoop_types _ _ (caneBody_type rnd) CANE 0%nat k5).
  assert (T7 := forLoop_types _ _ (photoBody_type rnd) PHOTO 0%nat k6).
  fold l1 in T1. fold l2 in T2. fold l3 in T3. fold l4 in T4.
  fold l5 in T5. fold l6 in T6. fold l7 in T7.
  assert (L1 : length l1 = 400%nat) by apply forLoop_length.
  assert (L2 : length l2 = 500%nat) by apply forLoop_length.
  assert (L3 : length l3 = 30%nat) by apply forLoop_length.
  assert (L4 : length l4 = 20%nat) by apply forLoop_length.
  assert (L5 : length l5 = 20%nat) by apply forLoop_length.
  assert (L6 : length l6 = 10%nat) by apply forLoop_length.
  assert (L7 : length l7 = 10%nat) by apply forLoop_length.
  assert (O : forall t : ParticleType,
            ofType t (fst (generateParticles rnd TREE k))
            = ofType t l1 ++ ofType t l2 ++ ofType t l3 ++ ofType t l4
              ++ ofType t l5 ++ ofType t l6 ++ ofType t l7).
  { intro t. rewrite E. unfold ofType. rewrite !filter_app. reflexivity. }
  assert (F1 := fun t => ofType_typed t _ l1 _ T1).
  assert (F2 := fun t => ofType_typed t _ l2 _ T2).
  assert (F3 := fun t => ofType_typed t _ l3 _ T3).
  assert (F4 := fun t => ofType_typed t _ l4 _ T4).
  assert (F5 := fun t => ofType_typed t _ l5 _ T5).
  assert (F6 := fun t => ofType_typed t _ l6 _ T6).
  assert (F7 := fun t => ofType_typed t _ l7 _ T7).
  clearbody l1 l2 l3 l4 l5 l6 l7. clear T1 T2 T3 T4 T5 T6 T7.
  rewrite !O, !F1, !F2, !F3, !F4, !F5, !F6, !F7.
  cbn [ParticleType_eqb app]. rewrite !app_nil_r.
  assert (K : skipn 980 (fst (generateParticles rnd TREE k)) = l7).
  { rewrite E.
    replace (l1 ++ l2 ++ l3 ++ l4 ++ l5 ++ l6 ++ l7)
      with ((l1 ++ l2 ++ l3 ++ l4 ++ l5 ++ l6) ++ l7)
      by (rewrite <- !app_assoc; reflexivity).
    apply skipn_exact. rewrite !length_app. lia. }
  rewrite K.
  split; [auto 10|]. split; [reflexivity|]. split; [|split; [|split]].
  - intros ->. reflexivity.
  - intros N Ok.
    destruct (handleFileUpload_loaded load files st N Ok)
      as (Pm & Pl & Pe & Pp). cbv zeta in Pm, Pl, Pe, Pp.
    split; [exact Pm|]. split; [exact Pl|]. split; [exact Pe|].
    split; [exact Pp|].
    unfold PhotoGroup.activePhotos. rewrite Pl. split.
    + destruct (Nat.le_ge_cases (length files) 10) as [C|C].
      * rewrite Nat.min_r by exact C. reflexivity.
      * rewrite Nat.min_l by exact C.
        rewrite !firstn_all2 by (rewrite length_map; lia). reflexivity.
    + rewrite length_firstn, length_map, L7. lia.
  - apply handleFileUpload_pending.
  - intro L. unfold PhotoGroup.activePhotos.
    rewrite length_firstn, length_map, L7. lia.
Qed.

End Generated.

(** The upload on files: twelve files that all load, and the same with
    the load of the third never ending. *)
Lemma groups_of_generated_witness :
  let files := seq 1 12 in
  let st := mkUpload [0%nat] true false in
  let st1 := handleFileUpload (fun f : nat => Some f) files st in
  let st2 :=
    handleFileUpload (fun f : nat => if (f =? 3)%nat then None else Some f)
                     files st in
  (map Some (userTextures st1) = map Some (seq 1 10)
   /\ isPanelExpanded st1 = false /\ isProcessing st1 = false)
  /\ (userTextures st2 = [0%nat]
      /\ isPanelExpanded st2 = true /\ isProcessing st2 = true).
Proof.
  cbv zeta.
  pose proof (groups_of_generated (M := RefMath.refMath) (G := refGeo)
                (fun _ => 1 # 2) 0 nat nat (fun f : nat => Some f)
                (seq 1 12) (mkUpload [0%nat] true false)) as P1.
  pose proof (groups_of_generated (M := RefMath.refMath) (G := refGeo)
                (fun _ => 1 # 2) 0 nat nat
                (fun f : nat => if (f =? 3)%nat then None else Some f)
                (seq 1 12) (mkUpload [0%nat] true false)) as P2.
  cbv zeta in P1, P2.
  destruct P1 as (_ & _ & _ & P1 & _).
  destruct P2 as (_ & _ & _ & _ & P2 & _).
  split.
  - destruct P1 as (Pm & _ & Pe & Pp & _);
      [discriminate | intros f _; discriminate |].
    split; [exact Pm|split; assumption].
  - apply P2. exists 3%nat. split; [|reflexivity].
    cbn. auto.
Defined.

End GroupsExtras.
